(** * Cache library: key factory, tiered cache manager, invalidation service

    A shallow embedding of three TypeScript classes of [libs/cache]:

    - [CacheKeyFactory]            (factories/cache-key.factory.ts)
    - [CacheManagerService]        (services/cache-manager.service.ts)
    - [CacheInvalidationService]   (services/cache-invalidation.service.ts)

    and, further down, of the in-memory store [MemoryCacheService]
    (services/memory-cache.service.ts) and of the string keys of
    services/cache-key.factory.ts.

    Conventions of the embedding.

    - JavaScript strings are modelled by [string]: a character of the
      model is a UTF-16 code unit below 256 (the ASCII range and the
      Latin-1 supplement); strings with other code units are outside
      the model.
    - An optional field ([namespace?: string]) is an [option]; a
      JavaScript truthiness test on such a field is [truthy].
    - [async] methods are run to completion in program order; a rejected
      promise and a synchronous [throw] are both the [Thrown] outcome.
      The one [async] call that the code does not await, the promotion
      that [get] starts, is split at its first [await]: what runs
      before [get] returns, and what runs afterwards.
    - Wall-clock values ([Date.now()], [new Date()]) and the numbers that
      are computed from them only (execution and response times and their
      averages) are left out of the records.  Where the clock decides
      what a method does (the expiry of an entry of the in-memory store),
      the reading of [Date.now()] is an argument of the method.
    - The logger is not modelled: its calls have no effect on the state
      the properties speak about. *)

From Stdlib Require Import String Ascii List ZArith Bool Lia Permutation.
From stdpp Require Import gmap strings.
Import ListNotations.

Local Open Scope string_scope.
Local Open Scope list_scope.

(** ** JavaScript string and array primitives used by the sources *)

Module Js.

(** [s1 === s2] on strings. *)
Definition streq (s1 s2 : string) : bool := String.eqb s1 s2.

(** [if (s)] for a string: the empty string is falsy. *)
Definition nonempty (s : string) : bool := negb (streq s "").

(** [if (o)] for an optional string: [undefined] and [''] are falsy. *)
Definition truthy (o : option string) : bool :=
  match o with
  | Some s => nonempty s
  | None => false
  end.

(** [s.startsWith(p)]. *)
Definition startsWith (s p : string) : bool := String.prefix p s.

(** [s.split(sep)] for a one-character separator: never the empty
    array, [''.split(':')] is [['']]. *)
Fixpoint split (sep : ascii) (s : string) : list string :=
  match s with
  | EmptyString => [EmptyString]
  | String c s' =>
      if Ascii.eqb c sep then EmptyString :: split sep s'
      else match split sep s' with
           | [] => [String c EmptyString]
           | p :: ps => String c p :: ps
           end
  end.

(** [parts.join(sep)]. *)
Definition join (sep : ascii) (parts : list string) : string :=
  String.concat (String sep EmptyString) parts.

(** [parts[i]]; every use below is guarded by [i < parts.length]. *)
Definition at_ (parts : list string) (i : nat) : string :=
  nth i parts EmptyString.

(** [parts.slice(i)]. *)
Definition slice_from (parts : list string) (i : nat) : list string :=
  skipn i parts.

(** [parts.slice(i, j)]. *)
Definition slice (parts : list string) (i j : nat) : list string :=
  firstn (j - i) (skipn i parts).

(** [arr.sort()] with the default comparator: ascending by code units. *)
Fixpoint sort_insert (x : string) (l : list string) : list string :=
  match l with
  | [] => [x]
  | y :: l' => if String.leb x y then x :: l else y :: sort_insert x l'
  end.

Definition sort (l : list string) : list string :=
  fold_right sort_insert [] l.

(** [arr.indexOf(x) === index] during [filter]: keeps first occurrences. *)
Fixpoint dedup_first (seen l : list string) : list string :=
  match l with
  | [] => []
  | x :: l' =>
      if existsb (streq x) seen then dedup_first seen l'
      else x :: dedup_first (x :: seen) l'
  end.

(** [c] is one of the characters [trim] removes: the white space and
    the line terminators of the language, which below 256 are the
    codes 9 to 13, the space and the no-break space U+00A0. *)
Definition is_space (c : ascii) : bool :=
  let n := nat_of_ascii c in
  (n =? 32)%nat || ((9 <=? n)%nat && (n <=? 13)%nat) || (n =? 160)%nat.

Fixpoint trim_start (s : string) : string :=
  match s with
  | String c s' => if is_space c then trim_start s' else s
  | EmptyString => EmptyString
  end.

Fixpoint trim_end (s : string) : string :=
  match s with
  | EmptyString => EmptyString
  | String c s' =>
      match trim_end s' with
      | EmptyString => if is_space c then EmptyString else String c EmptyString
      | t => String c t
      end
  end.

(** [s.trim()]. *)
Definition trim (s : string) : string := trim_end (trim_start s).

Definition is_digit (c : ascii) : bool :=
  let n := nat_of_ascii c in (48 <=? n)%nat && (n <=? 57)%nat.
Definition is_upper (c : ascii) : bool :=
  let n := nat_of_ascii c in (65 <=? n)%nat && (n <=? 90)%nat.
Definition is_lower (c : ascii) : bool :=
  let n := nat_of_ascii c in (97 <=? n)%nat && (n <=? 122)%nat.

(** The capital letters of the Latin-1 supplement: U+00C0 to U+00DE
    without the multiplication sign U+00D7. *)
Definition is_upper_latin1 (c : ascii) : bool :=
  let n := nat_of_ascii c in
  (192 <=? n)%nat && (n <=? 222)%nat && negb (n =? 215)%nat.

(** [s.toLowerCase()]: below 256 every capital letter has its small
    letter 32 code units above it. *)
Definition lower_char (c : ascii) : ascii :=
  if is_upper c || is_upper_latin1 c
  then ascii_of_nat (nat_of_ascii c + 32) else c.

Fixpoint map_chars (f : ascii -> ascii) (s : string) : string :=
  match s with
  | EmptyString => EmptyString
  | String c s' => String (f c) (map_chars f s')
  end.

Definition toLowerCase (s : string) : string := map_chars lower_char s.

Fixpoint all_chars (p : ascii -> bool) (s : string) : bool :=
  match s with
  | EmptyString => true
  | String c s' => p c && all_chars p s'
  end.

(** The members an object literal inherits from [Object.prototype]:
    on [{}], reading one of these names does not give [undefined]. *)
Definition Object_prototype_members : list string :=
  ["constructor"; "__defineGetter__"; "__defineSetter__";
   "hasOwnProperty"; "__lookupGetter__"; "__lookupSetter__";
   "isPrototypeOf"; "propertyIsEnumerable"; "toString"; "valueOf";
   "__proto__"; "toLocaleString"].

Definition inherited (name : string) : bool :=
  existsb (streq name) Object_prototype_members.

End Js.

(** ** CacheKeyFactory *)

Module CacheKeyFactory.
Import Js.

(** [interface CacheKey]; the factory always fills [tags] with an array. *)
Record CacheKey : Type := mkCacheKey {
  key : string;
  namespace : option string;
  version : option string;
  tenantId : option string;
  userId : option string;
  tags : list string
}.

(** [Partial<CacheKey>] passed as [options]. *)
Record CacheKeyOptions : Type := mkCacheKeyOptions {
  o_namespace : option string;
  o_version : option string;
  o_tenantId : option string;
  o_userId : option string;
  o_tags : option (list string)
}.

Definition no_options : CacheKeyOptions :=
  mkCacheKeyOptions None None None None None.

Definition DEFAULT_SEPARATOR : ascii := ":"%char.
Definition DEFAULT_VERSION : string := "v1".

(** The character class [[a-zA-Z0-9\-_.]] of [sanitizeKey] and
    [sanitizeNamespace]. *)
Definition key_char (c : ascii) : bool :=
  is_lower c || is_upper c || is_digit c
  || Ascii.eqb c "-" || Ascii.eqb c "_" || Ascii.eqb c ".".

(** The character class [[a-zA-Z0-9\-_]] of [sanitizeId] and
    [sanitizeTags]. *)
Definition id_char (c : ascii) : bool :=
  is_lower c || is_upper c || is_digit c
  || Ascii.eqb c "-" || Ascii.eqb c "_".

(** [s.replace(/[^class]/g, '_')]. *)
Definition replace_outside (cls : ascii -> bool) (s : string) : string :=
  map_chars (fun c => if cls c then c else "_"%char) s.

(** The factory's errors are plain [Error]s told apart by their message. *)
Inductive result (A : Type) : Type :=
| Ok (a : A)
| Err (message : string).
Arguments Ok {A} a.
Arguments Err {A} message.

Definition sanitizeKey (k : string) : result string :=
  if negb (nonempty k) then Err "Cache key must be a non-empty string"
  else
    let sanitized := replace_outside key_char (trim k) in
    if (String.length sanitized =? 0)%nat
    then Err "Cache key cannot be empty after sanitization"
    else Ok sanitized.

Definition sanitizeNamespace (ns : string) : result string :=
  if negb (nonempty ns) then Err "Namespace must be a non-empty string"
  else
    let sanitized := replace_outside key_char (trim ns) in
    if (String.length sanitized =? 0)%nat
    then Err "Namespace cannot be empty after sanitization"
    else Ok (toLowerCase sanitized).

Definition sanitizeId (id : string) : result string :=
  if negb (nonempty id) then Err "ID must be a non-empty string"
  else
    let sanitized := replace_outside id_char (trim id) in
    if (String.length sanitized =? 0)%nat
    then Err "ID cannot be empty after sanitization"
    else Ok sanitized.

Definition sanitizeTags (ts : list string) : list string :=
  dedup_first []
    (map (replace_outside id_char)
       (List.filter nonempty (map trim (List.filter nonempty ts)))).

Definition create (k : string) (options : CacheKeyOptions)
  : result CacheKey :=
  match sanitizeKey k with
  | Err m => Err m
  | Ok sk =>
      Ok {| key := sk;
            namespace := o_namespace options;
            version := o_version options;
            tenantId := o_tenantId options;
            userId := o_userId options;
            tags := match o_tags options with
                    | Some ts => ts
                    | None => []
                    end |}
  end.

Definition with_option_namespace (ns : string) (o : CacheKeyOptions) :=
  mkCacheKeyOptions (Some ns) (o_version o) (o_tenantId o) (o_userId o)
    (o_tags o).

Definition with_option_tenantId (t : string) (o : CacheKeyOptions) :=
  mkCacheKeyOptions (o_namespace o) (o_version o) (Some t) (o_userId o)
    (o_tags o).

Definition with_option_userId (u : string) (o : CacheKeyOptions) :=
  mkCacheKeyOptions (o_namespace o) (o_version o) (o_tenantId o) (Some u)
    (o_tags o).

Definition with_option_tags (ts : list string) (o : CacheKeyOptions) :=
  mkCacheKeyOptions (o_namespace o) (o_version o) (o_tenantId o)
    (o_userId o) (Some ts).

(** The argument [{ ...options, namespace: this.sanitizeNamespace(...) }]
    is built before [create] runs, so its error comes first. *)
Definition createNamespace (ns k : string) (options : CacheKeyOptions)
  : result CacheKey :=
  match sanitizeNamespace ns with
  | Err m => Err m
  | Ok sns => create k (with_option_namespace sns options)
  end.

Definition createTenant (t k : string) (options : CacheKeyOptions)
  : result CacheKey :=
  match sanitizeId t with
  | Err m => Err m
  | Ok st => create k (with_option_tenantId st options)
  end.

Definition createUser (u k : string) (options : CacheKeyOptions)
  : result CacheKey :=
  match sanitizeId u with
  | Err m => Err m
  | Ok su => create k (with_option_userId su options)
  end.

Definition createTagged (k : string) (ts : list string)
  (options : CacheKeyOptions) : result CacheKey :=
  create k (with_option_tags (sanitizeTags ts) options).

(** The [parts] array [toString] joins. *)
Definition toString_parts (cacheKey : CacheKey) : list string :=
  (if truthy (version cacheKey)
   then [default "" (version cacheKey)] else [])
  ++ (if truthy (namespace cacheKey)
      then [default "" (namespace cacheKey)] else [])
  ++ (if truthy (tenantId cacheKey)
      then [String.append "tenant:" (default "" (tenantId cacheKey))] else [])
  ++ (if truthy (userId cacheKey)
      then [String.append "user:" (default "" (userId cacheKey))] else [])
  ++ (if (0 <? length (tags cacheKey))%nat
      then [String.append "tags:" (join "," (sort (tags cacheKey)))] else [])
  ++ [key cacheKey].

Definition toString (cacheKey : CacheKey) : string :=
  join DEFAULT_SEPARATOR (toString_parts cacheKey).

(** [cacheKey.tags.sort()] sorts the caller's array in place: this is
    the key object as the caller holds it once [toString] returned. *)
Definition after_toString (cacheKey : CacheKey) : CacheKey :=
  {| key := key cacheKey;
     namespace := namespace cacheKey;
     version := version cacheKey;
     tenantId := tenantId cacheKey;
     userId := userId cacheKey;
     tags := if (0 <? length (tags cacheKey))%nat
             then sort (tags cacheKey) else tags cacheKey |}.

(** The mutable locals of [parse]: the key under construction and
    [currentIndex]. *)
Definition parse_version (parts : list string) (st : CacheKey * nat)
  : CacheKey * nat :=
  let '(ck, i) := st in
  if (0 <? length parts)%nat && startsWith (at_ parts 0) "v"
  then (mkCacheKey (key ck) (namespace ck) (Some (at_ parts i))
          (tenantId ck) (userId ck) (tags ck), S i)
  else st.

Definition parse_namespace (parts : list string) (st : CacheKey * nat)
  : CacheKey * nat :=
  let '(ck, i) := st in
  if (i <? length parts)%nat
     && negb (streq (at_ parts i) "tenant")
     && negb (streq (at_ parts i) "user")
     && negb (streq (at_ parts i) "tags")
     && (i <? length parts - 1)%nat
  then (mkCacheKey (key ck) (Some (at_ parts i)) (version ck)
          (tenantId ck) (userId ck) (tags ck), S i)
  else st.

Definition parse_tenant (parts : list string) (st : CacheKey * nat)
  : CacheKey * nat :=
  let '(ck, i) := st in
  if (i <? length parts)%nat && streq (at_ parts i) "tenant"
  then
    let i := S i in
    if (i <? length parts)%nat
    then (mkCacheKey (key ck) (namespace ck) (version ck)
            (Some (at_ parts i)) (userId ck) (tags ck), S i)
    else (ck, i)
  else st.

Definition parse_user (parts : list string) (st : CacheKey * nat)
  : CacheKey * nat :=
  let '(ck, i) := st in
  if (i <? length parts)%nat && streq (at_ parts i) "user"
  then
    let i := S i in
    if (i <? length parts)%nat
    then (mkCacheKey (key ck) (namespace ck) (version ck)
            (tenantId ck) (Some (at_ parts i)) (tags ck), S i)
    else (ck, i)
  else st.

Definition parse_tags (parts : list string) (st : CacheKey * nat)
  : CacheKey * nat :=
  let '(ck, i) := st in
  if (i <? length parts)%nat && streq (at_ parts i) "tags"
  then
    let i := S i in
    if (i <? length parts)%nat
    then (mkCacheKey (key ck) (namespace ck) (version ck)
            (tenantId ck) (userId ck)
            (List.filter nonempty (split "," (at_ parts i))), S i)
    else (ck, i)
  else st.

Definition parse_key (parts : list string) (st : CacheKey * nat)
  : CacheKey :=
  let '(ck, i) := st in
  if (i <? length parts)%nat
  then mkCacheKey (join DEFAULT_SEPARATOR (slice_from parts i))
         (namespace ck) (version ck) (tenantId ck) (userId ck) (tags ck)
  else ck.

Definition parse_parts (parts : list string) : CacheKey :=
  parse_key parts
    (parse_tags parts
       (parse_user parts
          (parse_tenant parts
             (parse_namespace parts
                (parse_version parts
                   (mkCacheKey "" None None None None [], 0%nat)))))).

Definition parse (keyString : string) : CacheKey :=
  parse_parts (split DEFAULT_SEPARATOR keyString).

End CacheKeyFactory.

(** ** cache.interface.ts: what the manager and the invalidation
    service see of a cache store *)

Module CacheInterface.
Export CacheKeyFactory.

(** How a call on a collaborator ends: the promise resolves with a
    value or rejects (or the call throws) with an [Error]. *)
Inductive outcome (A : Type) : Type :=
| Returned (a : A)
| Thrown (message : string).
Arguments Returned {A} a.
Arguments Thrown {A} message.

(** [Partial<CacheOptions>]. *)
Record CacheOptions : Type := mkCacheOptions {
  opt_type : option string;
  opt_strategy : option string;
  opt_ttl : option Z;
  opt_maxSize : option Z;
  opt_compress : option bool;
  opt_encrypt : option bool;
  opt_retries : option Z;
  opt_retryDelay : option Z;
  opt_timeout : option Z
}.

Definition empty_options : CacheOptions :=
  mkCacheOptions None None None None None None None None None.

Definition later {A : Type} (a b : option A) : option A :=
  match b with
  | Some _ => b
  | None => a
  end.

(** [{ ...a, ...b }]: an absent object spreads to nothing. *)
Definition spread (a b : option CacheOptions) : CacheOptions :=
  let a := default empty_options a in
  let b := default empty_options b in
  {| opt_type := later (opt_type a) (opt_type b);
     opt_strategy := later (opt_strategy a) (opt_strategy b);
     opt_ttl := later (opt_ttl a) (opt_ttl b);
     opt_maxSize := later (opt_maxSize a) (opt_maxSize b);
     opt_compress := later (opt_compress a) (opt_compress b);
     opt_encrypt := later (opt_encrypt a) (opt_encrypt b);
     opt_retries := later (opt_retries a) (opt_retries b);
     opt_retryDelay := later (opt_retryDelay a) (opt_retryDelay b);
     opt_timeout := later (opt_timeout a) (opt_timeout b) |}.

Section Service.
(** [V]: the cached values; [W]: everything behind the store objects
    (their maps, a connection, a fault about to happen).  Two layers
    holding the same store object act on the same part of [W]. *)
Context {V W : Type}.

(** [interface ICacheService], the five data operations. *)
Record ICacheService : Type := mkService {
  svc_get : CacheKey -> W -> outcome (option V) * W;
  svc_set : CacheKey -> V -> option CacheOptions -> W -> outcome bool * W;
  svc_delete : CacheKey -> W -> outcome bool * W;
  svc_exists : CacheKey -> W -> outcome bool * W;
  svc_clear : option string -> W -> outcome bool * W
}.

(** One call issued to a store, with how it ended.  [target] is the
    layer name in the manager; the invalidation service has a single
    store and leaves it empty. *)
Inductive Call : Type :=
| CallGet (target : string) (k : CacheKey) (r : outcome (option V))
| CallSet (target : string) (k : CacheKey) (v : V)
    (o : option CacheOptions) (r : outcome bool)
| CallDelete (target : string) (k : CacheKey) (r : outcome bool)
| CallExists (target : string) (k : CacheKey) (r : outcome bool)
| CallClear (target : string) (ns : option string) (r : outcome bool).

Definition call_target (c : Call) : string :=
  match c with
  | CallGet t _ _ | CallSet t _ _ _ _ | CallDelete t _ _
  | CallExists t _ _ | CallClear t _ _ => t
  end.

Definition is_get (c : Call) : bool :=
  match c with CallGet _ _ _ => true | _ => false end.

Definition is_set (c : Call) : bool :=
  match c with CallSet _ _ _ _ _ => true | _ => false end.

(** A [set] call that resolved with [true]. *)
Definition set_accepted (c : Call) : bool :=
  match c with CallSet _ _ _ _ (Returned true) => true | _ => false end.

(** The request of a [set] call, without its outcome. *)
Definition set_request (c : Call)
  : option (string * CacheKey * V * option CacheOptions) :=
  match c with
  | CallSet t k v o _ => Some (t, k, v, o)
  | _ => None
  end.
End Service.
Arguments ICacheService : clear implicits.
Arguments Call : clear implicits.

End CacheInterface.

(** ** CacheManagerService *)

Module CacheManagerService.
Export CacheInterface.

Section Manager.
Context {V W : Type}.

(** [interface CacheLayerConfig] as [addLayer] receives it. *)
Record CacheLayerInput : Type := mkLayerInput {
  in_name : string;
  in_priority : Z;
  in_service : ICacheService V W;
  in_options : option CacheOptions;
  in_enabled : option bool;
  in_readOnly : option bool;
  in_fallback : option bool
}.

(** A layer as stored in [this.layers], defaults filled in. *)
Record CacheLayerConfig : Type := mkLayer {
  name : string;
  priority : Z;
  service : ICacheService V W;
  options : option CacheOptions;
  enabled : bool;
  readOnly : bool;
  fallback : bool
}.

(** An emitted event: [cache.<type>] and the layer in its payload. *)
Record CacheEvent : Type := mkEvent {
  ev_type : string;
  ev_layer : option string
}.

(** The fields of the service object.  [layers] is the [Map] in
    insertion order, keyed by [name]. *)
Record Manager : Type := mkManager {
  layers : list CacheLayerConfig;
  defaultOptions : option CacheOptions;
  enableEvents : bool;
  requestCount : nat;
  hitCount : nat;
  stats_hits : nat;
  stats_misses : nat;
  emitted : list CacheEvent
}.

(** The service object, the stores behind its layers and the calls
    issued to them so far. *)
Record State : Type := mkState {
  mgr : Manager;
  world : W;
  calls : list (Call V)
}.

Definition with_layers (ls : list CacheLayerConfig) (m : Manager) :=
  mkManager ls (defaultOptions m) (enableEvents m) (requestCount m)
    (hitCount m) (stats_hits m) (stats_misses m) (emitted m).

Definition emitEvent (type : string) (layer : option string)
  (m : Manager) : Manager :=
  if enableEvents m
  then mkManager (layers m) (defaultOptions m) (enableEvents m)
         (requestCount m) (hitCount m) (stats_hits m) (stats_misses m)
         (emitted m ++ [mkEvent type layer])
  else m.

Definition incr_requestCount (m : Manager) : Manager :=
  mkManager (layers m) (defaultOptions m) (enableEvents m)
    (S (requestCount m)) (hitCount m) (stats_hits m) (stats_misses m)
    (emitted m).

Definition incr_hitCount (m : Manager) : Manager :=
  mkManager (layers m) (defaultOptions m) (enableEvents m)
    (requestCount m) (S (hitCount m)) (stats_hits m) (stats_misses m)
    (emitted m).

Definition updateStats (m : Manager) : Manager :=
  mkManager (layers m) (defaultOptions m) (enableEvents m)
    (requestCount m) (hitCount m)
    (hitCount m) (requestCount m - hitCount m) (emitted m).

(** [Map.prototype.set]: an existing key keeps its position. *)
Fixpoint map_set (l : CacheLayerConfig) (ls : list CacheLayerConfig)
  : list CacheLayerConfig :=
  match ls with
  | [] => [l]
  | l0 :: ls' =>
      if Js.streq (name l0) (name l) then l :: ls'
      else l0 :: map_set l ls'
  end.

Definition map_has (n : string) (ls : list CacheLayerConfig) : bool :=
  existsb (fun l => Js.streq (name l) n) ls.

Definition map_delete (n : string) (ls : list CacheLayerConfig)
  : list CacheLayerConfig :=
  List.filter (fun l => negb (Js.streq (name l) n)) ls.

Definition addLayer (config : CacheLayerInput) (m : Manager)
  : bool * Manager :=
  let l := {| name := in_name config;
              priority := in_priority config;
              service := in_service config;
              options := in_options config;
              enabled := default true (in_enabled config);
              readOnly := default false (in_readOnly config);
              fallback := default false (in_fallback config) |} in
  (true,
   emitEvent "layer_added" (Some (in_name config))
     (with_layers (map_set l (layers m)) m)).

Definition removeLayer (n : string) (m : Manager) : bool * Manager :=
  if negb (map_has n (layers m)) then (false, m)
  else (true,
        emitEvent "layer_removed" (Some n)
          (with_layers (map_delete n (layers m)) m)).

Definition enableLayer (n : string) (on : bool) (m : Manager)
  : bool * Manager :=
  if negb (map_has n (layers m)) then (false, m)
  else (true,
        emitEvent "layer_toggled" (Some n)
          (with_layers
             (map (fun l =>
                     if Js.streq (name l) n
                     then mkLayer (name l) (priority l) (service l)
                            (options l) on (readOnly l) (fallback l)
                     else l) (layers m)) m)).

(** [.sort((a, b) => a.priority - b.priority)]: stable, ascending. *)
Fixpoint sort_insert (x : CacheLayerConfig) (ls : list CacheLayerConfig)
  : list CacheLayerConfig :=
  match ls with
  | [] => [x]
  | y :: ls' =>
      if (priority x <=? priority y)%Z then x :: ls
      else y :: sort_insert x ls'
  end.

Definition sort_by_priority (ls : list CacheLayerConfig)
  : list CacheLayerConfig :=
  fold_right sort_insert [] ls.

Definition getSortedLayers (m : Manager) : list CacheLayerConfig :=
  sort_by_priority (List.filter enabled (layers m)).

(** The [higherLayers] array of [promoteToHigherLayer]. *)
Definition higherLayers (m : Manager) (currentPriority : Z)
  : list CacheLayerConfig :=
  sort_by_priority
    (List.filter (fun l => enabled l && negb (readOnly l)
                      && (priority l <? currentPriority)%Z)
       (layers m)).

(** The loop of [promoteToHigherLayer]; each [set] sits in its own
    [try], a failure is logged and the loop goes on. *)
Fixpoint promote_loop (k : CacheKey) (v : V)
  (ls : list CacheLayerConfig) (currentPriority : Z) (s : State)
  : State :=
  match ls with
  | [] => s
  | l :: ls' =>
      let '(r, w') := svc_set (service l) k v None (world s) in
      let m' := match r with
                | Returned _ =>
                    emitEvent "cache_promoted" (Some (name l)) (mgr s)
                | Thrown _ => mgr s
                end in
      promote_loop k v ls' currentPriority
        (mkState m' w' (calls s ++ [CallSet (name l) k v None r]))
  end.

(** [get] starts [promoteToHigherLayer] and does not await it.  The
    method then runs up to its first [await]: it has made the array of
    the layers and issued the [set] on the first of them.  This is what
    is left of it at that point: the layer whose answer is awaited, the
    answer, and the layers still to be written. *)
Record Promotion : Type := mkPromotion {
  promoted_key : CacheKey;
  promoted_value : V;
  fromPriority : Z;
  awaited : CacheLayerConfig;
  answer : outcome bool;
  remaining : list CacheLayerConfig
}.

(** [promoteToHigherLayer] up to its first [await]; without a layer to
    write to it is over at once. *)
Definition promotion_starts (k : CacheKey) (v : V) (currentPriority : Z)
  (s : State) : State * option Promotion :=
  match higherLayers (mgr s) currentPriority with
  | [] => (s, None)
  | l :: ls' =>
      let '(r, w') := svc_set (service l) k v None (world s) in
      (mkState (mgr s) w' (calls s ++ [CallSet (name l) k v None r]),
       Some (mkPromotion k v currentPriority l r ls'))
  end.

(** [promoteToHigherLayer] from its first [await] on. *)
Definition promotion_resumes (p : Promotion) (s : State) : State :=
  let m' := match answer p with
            | Returned _ =>
                emitEvent "cache_promoted" (Some (name (awaited p))) (mgr s)
            | Thrown _ => mgr s
            end in
  promote_loop (promoted_key p) (promoted_value p) (remaining p)
    (fromPriority p) (mkState m' (world s) (calls s)).

(** The whole method, when nothing runs between its start and its
    end. *)
Definition promoteToHigherLayer (k : CacheKey) (v : V)
  (currentPriority : Z) (s : State) : State :=
  match promotion_starts k v currentPriority s with
  | (s', Some p) => promotion_resumes p s'
  | (s', None) => s'
  end.

(** How the [for] loop of [get] is left. *)
Inductive scan : Type :=
| Found (l : CacheLayerConfig) (v : V)
| NotFound
| Failed (message : string).

Fixpoint get_loop (k : CacheKey) (ls : list CacheLayerConfig)
  (w : W) (tr : list (Call V)) : scan * W * list (Call V) :=
  match ls with
  | [] => (NotFound, w, tr)
  | l :: ls' =>
      if negb (enabled l) then get_loop k ls' w tr
      else
        let '(r, w') := svc_get (service l) k w in
        let tr' := tr ++ [CallGet (name l) k r] in
        match r with
        | Returned (Some v) => (Found l v, w', tr')
        | Returned None => get_loop k ls' w' tr'
        | Thrown e => (Failed e, w', tr')
        end
  end.

(** [get] up to the point where it returns: what it resolves with, the
    service as it leaves it, and the promotion it has started and not
    awaited, if any.  On a hit the promotion is started before
    [cache_hit] is emitted. *)
Definition get_until_return (k : CacheKey) (s : State)
  : outcome (option V) * State * option Promotion :=
  let m := incr_requestCount (mgr s) in
  match get_loop k (getSortedLayers m) (world s) (calls s) with
  | (Found l v, w, tr) =>
      let m := updateStats (incr_hitCount m) in
      let s1 := mkState m w tr in
      let '(s2, pending) :=
        if (priority l >? 1)%Z
        then promotion_starts k v (priority l) s1
        else (s1, None) in
      (Returned (Some v),
       mkState (emitEvent "cache_hit" (Some (name l)) (mgr s2))
         (world s2) (calls s2),
       pending)
  | (NotFound, w, tr) =>
      (Returned None,
       mkState (emitEvent "cache_miss" None (updateStats m)) w tr,
       None)
  | (Failed e, w, tr) =>
      (Returned None, mkState (emitEvent "cache_error" None m) w tr, None)
  end.

(** [get] and the promotion it started, run to its end before any
    other call is made: the state in which the next call of a
    sequence finds the service. *)
Definition get (k : CacheKey) (s : State)
  : outcome (option V) * State :=
  let '(r, s', pending) := get_until_return k s in
  (r,
   match pending with
   | Some p => promotion_resumes p s'
   | None => s'
   end).

(** The loop of [set]: [success] and the service state are the
    variables it updates. *)
Fixpoint set_loop (k : CacheKey) (v : V)
  (mergedOptions : CacheOptions) (ls : list CacheLayerConfig)
  (success : bool) (s : State) : bool * State :=
  match ls with
  | [] => (success, s)
  | l :: ls' =>
      if negb (enabled l) || readOnly l
      then set_loop k v mergedOptions ls' success s
      else
        let o := Some (spread (options l) (Some mergedOptions)) in
        let '(r, w') := svc_set (service l) k v o (world s) in
        let tr' := calls s ++ [CallSet (name l) k v o r] in
        match r with
        | Returned true =>
            set_loop k v mergedOptions ls' true
              (mkState (emitEvent "cache_set" (Some (name l)) (mgr s))
                 w' tr')
        | Returned false | Thrown _ =>
            set_loop k v mergedOptions ls' success (mkState (mgr s) w' tr')
        end
  end.

Definition set (k : CacheKey) (v : V) (opts : option CacheOptions)
  (s : State) : outcome bool * State :=
  let mergedOptions := spread (defaultOptions (mgr s)) opts in
  let '(success, s') :=
    set_loop k v mergedOptions (getSortedLayers (mgr s)) false s in
  (Returned success,
   mkState (updateStats (mgr s')) (world s') (calls s')).

(** The loop of [delete], built like the one of [set]. *)
Fixpoint delete_loop (k : CacheKey) (ls : list CacheLayerConfig)
  (success : bool) (s : State) : bool * State :=
  match ls with
  | [] => (success, s)
  | l :: ls' =>
      if negb (enabled l) || readOnly l
      then delete_loop k ls' success s
      else
        let '(r, w') := svc_delete (service l) k (world s) in
        let tr' := calls s ++ [CallDelete (name l) k r] in
        match r with
        | Returned true =>
            delete_loop k ls' true
              (mkState (emitEvent "cache_delete" (Some (name l)) (mgr s))
                 w' tr')
        | Returned false | Thrown _ =>
            delete_loop k ls' success (mkState (mgr s) w' tr')
        end
  end.

Definition delete (k : CacheKey) (s : State) : outcome bool * State :=
  let '(success, s') := delete_loop k (getSortedLayers (mgr s)) false s in
  (Returned success,
   mkState (updateStats (mgr s')) (world s') (calls s')).

(** The loop of [clear], built like the one of [set]. *)
Fixpoint clear_loop (ns : option string) (ls : list CacheLayerConfig)
  (success : bool) (s : State) : bool * State :=
  match ls with
  | [] => (success, s)
  | l :: ls' =>
      if negb (enabled l) || readOnly l
      then clear_loop ns ls' success s
      else
        let '(r, w') := svc_clear (service l) ns (world s) in
        let tr' := calls s ++ [CallClear (name l) ns r] in
        match r with
        | Returned true =>
            clear_loop ns ls' true
              (mkState (emitEvent "cache_clear" (Some (name l)) (mgr s))
                 w' tr')
        | Returned false | Thrown _ =>
            clear_loop ns ls' success (mkState (mgr s) w' tr')
        end
  end.

Definition clear (ns : option string) (s : State) : outcome bool * State :=
  let '(success, s') := clear_loop ns (getSortedLayers (mgr s)) false s in
  (Returned success,
   mkState (updateStats (mgr s')) (world s') (calls s')).

(** How the [for] loop of [exists] is left. *)
Inductive probe : Type :=
| Present (l : CacheLayerConfig)
| Absent
| Broken (message : string).

(** The loop of [exists]: as in [get], the store call has no [try] of
    its own. *)
Fixpoint exists_loop (k : CacheKey) (ls : list CacheLayerConfig)
  (w : W) (tr : list (Call V)) : probe * W * list (Call V) :=
  match ls with
  | [] => (Absent, w, tr)
  | l :: ls' =>
      if negb (enabled l) then exists_loop k ls' w tr
      else
        let '(r, w') := svc_exists (service l) k w in
        let tr' := tr ++ [CallExists (name l) k r] in
        match r with
        | Returned true => (Present l, w', tr')
        | Returned false => exists_loop k ls' w' tr'
        | Thrown e => (Broken e, w', tr')
        end
  end.

(** The method [exists] ([exists] is a keyword here). *)
Definition exists_ (k : CacheKey) (s : State) : outcome bool * State :=
  let m := incr_requestCount (mgr s) in
  match exists_loop k (getSortedLayers m) (world s) (calls s) with
  | (Present l, w, tr) =>
      (Returned true,
       mkState (emitEvent "cache_exists" (Some (name l))
                  (updateStats (incr_hitCount m))) w tr)
  | (Absent, w, tr) => (Returned false, mkState (updateStats m) w tr)
  | (Broken e, w, tr) =>
      (Returned false, mkState (emitEvent "cache_error" None m) w tr)
  end.

(** The manager is itself a store: the invalidation service is
    typically bound to it. *)
Definition as_service : @ICacheService V State :=
  {| svc_get := get;
     svc_set := set;
     svc_delete := delete;
     svc_exists := exists_;
     svc_clear := clear |}.

(** The layers [set] writes to. *)
Definition writable (l : CacheLayerConfig) : bool :=
  enabled l && negb (readOnly l).

(** The layers before the hit all answer [null], one after the
    other; this is the state of the stores afterwards. *)
Fixpoint all_miss (k : CacheKey) (ls : list CacheLayerConfig) (w : W)
  : option W :=
  match ls with
  | [] => Some w
  | l :: ls' =>
      match svc_get (service l) k w with
      | (Returned None, w') => all_miss k ls' w'
      | _ => None
      end
  end.

End Manager.
Arguments CacheLayerConfig : clear implicits.
Arguments CacheLayerInput : clear implicits.
Arguments Manager : clear implicits.
Arguments State : clear implicits.
Arguments scan : clear implicits.
Arguments probe : clear implicits.
Arguments Promotion : clear implicits.

End CacheManagerService.

(** ** CacheInvalidationService *)

Module CacheInvalidationService.
Export CacheInterface.

(** [enum InvalidationStrategy]: at run time a strategy is its string,
    and a caller can pass any string. *)
Definition EXACT : string := "exact".
Definition PREFIX : string := "prefix".
Definition SUFFIX : string := "suffix".
Definition WILDCARD : string := "wildcard".
Definition REGEX : string := "regex".
Definition TAG : string := "tag".
Definition NAMESPACE : string := "namespace".
Definition BATCH : string := "batch".

(** [Object.values(InvalidationStrategy)]. *)
Definition InvalidationStrategy_values : list string :=
  [EXACT; PREFIX; SUFFIX; WILDCARD; REGEX; TAG; NAMESPACE; BATCH].

(** [Object.values(InvalidationTrigger)]. *)
Definition InvalidationTrigger_values : list string :=
  ["manual"; "scheduled"; "event"; "conditional"; "dependency"].

(** [interface InvalidationRule]; the descriptive fields (description,
    schedule, eventType, tags, metadata) and the two dates carry no
    behaviour and are left out. *)
Record InvalidationRule : Type := mkRule {
  id : string;
  name : string;
  strategy : string;
  pattern : string;
  trigger : string;
  enabled : bool;
  priority : Z;
  condition : option string;
  dependencies : option (list string)
}.

(** The argument of [addRule]: a rule whose [id] is optional. *)
Record RuleInput : Type := mkRuleInput {
  in_id : option string;
  in_name : string;
  in_strategy : string;
  in_pattern : string;
  in_trigger : string;
  in_enabled : bool;
  in_priority : Z;
  in_condition : option string;
  in_dependencies : option (list string)
}.

(** The argument of [updateRule]: [Partial<Omit<InvalidationRule, ...>>]. *)
Record RuleUpdates : Type := mkRuleUpdates {
  up_name : option string;
  up_strategy : option string;
  up_pattern : option string;
  up_trigger : option string;
  up_enabled : option bool;
  up_priority : option Z;
  up_condition : option string;
  up_dependencies : option (list string)
}.

(** A member of the [strategyUsage] object: a count, or [NaN]. *)
Inductive Usage : Type :=
| Counted (n : nat)
| NotANumber.

(** [interface InvalidationStats], without the average execution time
    and the date of the last invalidation. *)
Record InvalidationStats : Type := mkStats {
  totalInvalidations : nat;
  successfulInvalidations : nat;
  failedInvalidations : nat;
  totalInvalidatedKeys : nat;
  activeRules : nat;
  strategyUsage : gmap string Usage;
  triggerUsage : gmap string nat
}.

(** [interface InvalidationResult], without the date and the
    execution time.  [metadata?: Record<string, any>]: the members of
    the record have values of a type [A] that the caller chooses. *)
Record InvalidationResult {A : Type} : Type := mkResult {
  invalidatedKeys : nat;
  invalidatedNamespaces : nat;
  invalidatedTags : nat;
  keys : list string;
  namespaces : list string;
  tags : list string;
  success : bool;
  error : option string;
  metadata : option (list (string * A))
}.
Arguments InvalidationResult : clear implicits.
Arguments mkResult {A}.

(** A member of the metadata that [invalidateByRule] hands to
    [invalidate]: [ruleId] and [ruleName] are strings, [context] is
    the value the caller gave, of a type [C] of the caller's
    choice. *)
Inductive RuleMetadata {C : Type} : Type :=
| RuleText (s : string)
| RuleContext (context : C).
Arguments RuleMetadata : clear implicits.
Arguments RuleText {C}.
Arguments RuleContext {C}.

(** [target: string | string[]]. *)
Inductive Target : Type :=
| One (t : string)
| Many (ts : list string).

Definition initializeStats : InvalidationStats :=
  {| totalInvalidations := 0;
     successfulInvalidations := 0;
     failedInvalidations := 0;
     totalInvalidatedKeys := 0;
     activeRules := 0;
     strategyUsage :=
       fold_left (fun acc s => <[s := Counted 0]> acc)
         InvalidationStrategy_values ∅;
     triggerUsage :=
       fold_left (fun acc t => <[t := 0%nat]> acc)
         InvalidationTrigger_values ∅ |}.

Section Engine.
Context {V W : Type}.

(** The fields of the service object. *)
Record Engine : Type := mkEngine {
  rules : gmap string InvalidationRule;
  cacheService : option (ICacheService V W);
  defaultStrategy : string;
  batchSize : nat;
  enableEvents : bool;
  stats : InvalidationStats;
  emitted : list string
}.

(** The service object, the store bound to it and the calls issued
    to that store so far. *)
Record State : Type := mkState {
  eng : Engine;
  world : W;
  calls : list (Call V)
}.

Definition with_rules (rs : gmap string InvalidationRule) (e : Engine) :=
  mkEngine rs (cacheService e) (defaultStrategy e) (batchSize e)
    (enableEvents e) (stats e) (emitted e).

Definition with_stats (st : InvalidationStats) (e : Engine) :=
  mkEngine (rules e) (cacheService e) (defaultStrategy e) (batchSize e)
    (enableEvents e) st (emitted e).

Definition with_eng (e : Engine) (s : State) : State :=
  mkState e (world s) (calls s).

(** The constructor, given the merged configuration. *)
Definition new_engine (defaultStrategy : string) (batchSize : nat)
  (enableEvents : bool) : Engine :=
  mkEngine ∅ None defaultStrategy batchSize enableEvents
    initializeStats [].

Definition emitEvent (type : string) (e : Engine) : Engine :=
  if enableEvents e
  then mkEngine (rules e) (cacheService e) (defaultStrategy e)
         (batchSize e) (enableEvents e) (stats e) (emitted e ++ [type])
  else e.

Definition setCacheService (svc : ICacheService V W) (e : Engine)
  : Engine :=
  mkEngine (rules e) (Some svc) (defaultStrategy e) (batchSize e)
    (enableEvents e) (stats e) (emitted e).

(** [uuid] is the value [uuidv4()] yields when the rule has no id. *)
Definition addRule (rule : RuleInput) (uuid : string) (e : Engine)
  : bool * Engine :=
  let ruleId := if Js.truthy (in_id rule)
                then default "" (in_id rule) else uuid in
  let fullRule :=
    {| id := ruleId; name := in_name rule; strategy := in_strategy rule;
       pattern := in_pattern rule; trigger := in_trigger rule;
       enabled := in_enabled rule; priority := in_priority rule;
       condition := in_condition rule;
       dependencies := in_dependencies rule |} in
  (true, emitEvent "rule_added"
           (with_rules (<[ruleId := fullRule]> (rules e)) e)).

Definition removeRule (ruleId : string) (e : Engine) : bool * Engine :=
  match rules e !! ruleId with
  | None => (false, e)
  | Some _ =>
      (true, emitEvent "rule_removed"
               (with_rules (delete ruleId (rules e)) e))
  end.

Definition updateRule (ruleId : string) (updates : RuleUpdates)
  (e : Engine) : bool * Engine :=
  match rules e !! ruleId with
  | None => (false, e)
  | Some existingRule =>
      let updatedRule :=
        {| id := id existingRule;
           name := default (name existingRule) (up_name updates);
           strategy :=
             default (strategy existingRule) (up_strategy updates);
           pattern := default (pattern existingRule) (up_pattern updates);
           trigger := default (trigger existingRule) (up_trigger updates);
           enabled := default (enabled existingRule) (up_enabled updates);
           priority :=
             default (priority existingRule) (up_priority updates);
           condition :=
             later (condition existingRule) (up_condition updates);
           dependencies :=
             later (dependencies existingRule)
               (up_dependencies updates) |} in
      (true, emitEvent "rule_updated"
               (with_rules (<[ruleId := updatedRule]> (rules e)) e))
  end.

Definition getRule (ruleId : string) (e : Engine)
  : option InvalidationRule :=
  rules e !! ruleId.

Definition resetStats (e : Engine) : Engine :=
  with_stats initializeStats e.

(** [Array.from(this.rules.values()).filter(rule => rule.enabled).length] *)
Definition count_enabled (rs : gmap string InvalidationRule) : nat :=
  length (List.filter (fun kv => enabled kv.2) (map_to_list rs)).

(** [if (usage[name] !== undefined) usage[name]++] on the object
    [usage], an object literal with the counts as its own members.  An
    own member is counted up, and [NaN++] stays [NaN].  A name that is
    not an own member but is inherited from [Object.prototype] is not
    [undefined] either: [++] turns the inherited function into [NaN]
    and stores that as an own member -- but for [__proto__], an
    accessor whose setter ignores a number. *)
Definition count_usage (name : string) (usage : gmap string Usage)
  : gmap string Usage :=
  match usage !! name with
  | Some (Counted n) => <[name := Counted (S n)]> usage
  | Some NotANumber => usage
  | None =>
      if Js.streq name "__proto__" then usage
      else if Js.inherited name then <[name := NotANumber]> usage
      else usage
  end.

(** [updateStats(strategy, executionTime, invalidatedKeys, failed)]. *)
Definition updateStats (strategy : string) (invalidatedKeys : nat)
  (failed : bool) (e : Engine) : Engine :=
  let st := stats e in
  with_stats
    {| totalInvalidations := S (totalInvalidations st);
       successfulInvalidations :=
         if failed then successfulInvalidations st
         else S (successfulInvalidations st);
       failedInvalidations :=
         if failed then S (failedInvalidations st)
         else failedInvalidations st;
       totalInvalidatedKeys :=
         if failed then totalInvalidatedKeys st
         else totalInvalidatedKeys st + invalidatedKeys;
       activeRules := count_enabled (rules e);
       strategyUsage := count_usage strategy (strategyUsage st);
       triggerUsage := triggerUsage st |}
    e.

(** The private workers.  Each loop body sits in its own [try]: a
    store call that throws is logged and the loop goes on. *)
Fixpoint invalidateExact (svc : ICacheService V W) (ks : list string)
  (w : W) (tr : list (Call V)) : list string * W * list (Call V) :=
  match ks with
  | [] => ([], w, tr)
  | k :: ks' =>
      let cacheKey := CacheKeyFactory.parse k in
      let '(r, w') := svc_delete svc cacheKey w in
      let '(rest, w'', tr'') :=
        invalidateExact svc ks' w' (tr ++ [CallDelete "" cacheKey r]) in
      match r with
      | Returned true => (k :: rest, w'', tr'')
      | _ => (rest, w'', tr'')
      end
  end.

Fixpoint invalidateNamespaces (svc : ICacheService V W)
  (nss : list string) (w : W) (tr : list (Call V))
  : list string * W * list (Call V) :=
  match nss with
  | [] => ([], w, tr)
  | ns :: nss' =>
      let '(r, w') := svc_clear svc (Some ns) w in
      let '(rest, w'', tr'') :=
        invalidateNamespaces svc nss' w'
          (tr ++ [CallClear "" (Some ns) r]) in
      match r with
      | Returned true => (ns :: rest, w'', tr'')
      | _ => (rest, w'', tr'')
      end
  end.

(** The service has no search by prefix: a prefix is cleared as a
    namespace. *)
Fixpoint invalidatePrefix (svc : ICacheService V W)
  (prefixes : list string) (w : W) (tr : list (Call V))
  : list string * W * list (Call V) :=
  match prefixes with
  | [] => ([], w, tr)
  | prefix :: prefixes' =>
      let '(r, w') := svc_clear svc (Some prefix) w in
      let '(rest, w'', tr'') :=
        invalidatePrefix svc prefixes' w'
          (tr ++ [CallClear "" (Some prefix) r]) in
      match r with
      | Returned true => (prefix :: rest, w'', tr'')
      | _ => (rest, w'', tr'')
      end
  end.

Definition invalidateSuffix (svc : ICacheService V W)
  (suffixes : list string) (w : W) (tr : list (Call V))
  : list string * W * list (Call V) := ([], w, tr).

(** Only logs each pattern. *)
Definition invalidateWildcard (svc : ICacheService V W)
  (patterns : list string) (w : W) (tr : list (Call V))
  : list string * W * list (Call V) := ([], w, tr).

(** Only logs each pattern. *)
Definition invalidateRegex (svc : ICacheService V W)
  (patterns : list string) (w : W) (tr : list (Call V))
  : list string * W * list (Call V) := ([], w, tr).

(** Logs each tag and reports it. *)
Definition invalidateTags (svc : ICacheService V W)
  (tgs : list string) (w : W) (tr : list (Call V))
  : list string * W * list (Call V) := (tgs, w, tr).

(** The values [i] takes in [for (i = 0; i < n; i += size)], for
    [size >= 1]. *)
Definition batch_starts (size n : nat) : list nat :=
  map (fun c => c * size) (seq 0 (Nat.div (n + size - 1) size)).

Fixpoint batch_loop (svc : ICacheService V W) (size : nat)
  (targets : list string) (starts : list nat)
  (w : W) (tr : list (Call V)) : list string * W * list (Call V) :=
  match starts with
  | [] => ([], w, tr)
  | i :: starts' =>
      let batch := Js.slice targets i (i + size) in
      let '(batchKeys, w', tr') := invalidateExact svc batch w tr in
      let '(rest, w'', tr'') :=
        batch_loop svc size targets starts' w' tr' in
      (batchKeys ++ rest, w'', tr'')
  end.

(** [this.config.batchSize || 100]. *)
Definition invalidateBatch (size0 : nat) (svc : ICacheService V W)
  (targets : list string) (w : W) (tr : list (Call V))
  : list string * W * list (Call V) :=
  let size := if (size0 =? 0)%nat then 100%nat else size0 in
  batch_loop svc size targets (batch_starts size (length targets)) w tr.

(** The [switch] of [invalidate]: the three lists of the result, or
    [None] when the [default] branch throws. *)
Definition dispatch (size0 : nat) (svc : ICacheService V W)
  (strategy : string) (targets : list string)
  (w : W) (tr : list (Call V))
  : option (list string * list string * list string * W * list (Call V)) :=
  if Js.streq strategy EXACT then
    let '(ks, w', tr') := invalidateExact svc targets w tr in
    Some (ks, [], [], w', tr')
  else if Js.streq strategy PREFIX then
    let '(nss, w', tr') := invalidatePrefix svc targets w tr in
    Some ([], nss, [], w', tr')
  else if Js.streq strategy SUFFIX then
    let '(ks, w', tr') := invalidateSuffix svc targets w tr in
    Some (ks, [], [], w', tr')
  else if Js.streq strategy WILDCARD then
    let '(ks, w', tr') := invalidateWildcard svc targets w tr in
    Some (ks, [], [], w', tr')
  else if Js.streq strategy REGEX then
    let '(ks, w', tr') := invalidateRegex svc targets w tr in
    Some (ks, [], [], w', tr')
  else if Js.streq strategy TAG then
    let '(tgs, w', tr') := invalidateTags svc targets w tr in
    Some ([], [], tgs, w', tr')
  else if Js.streq strategy NAMESPACE then
    let '(nss, w', tr') := invalidateNamespaces svc targets w tr in
    Some ([], nss, [], w', tr')
  else if Js.streq strategy BATCH then
    let '(ks, w', tr') := invalidateBatch size0 svc targets w tr in
    Some (ks, [], [], w', tr')
  else None.

(** The object the [catch] branch of [invalidate] returns. *)
Definition failure {A : Type} (message : string) (md : list (string * A))
  : InvalidationResult A :=
  mkResult 0 0 0 [] [] [] false (Some message) (Some md).

(** The object [invalidateByRule] returns when it does not go on; it
    has no [metadata]. *)
Definition refusal {A : Type} (message : string) : InvalidationResult A :=
  mkResult 0 0 0 [] [] [] false (Some message) None.

Definition caught {A : Type} (strategy : string) (message : string)
  (md : list (string * A)) (s : State)
  : outcome (InvalidationResult A) * State :=
  (Returned (failure message md),
   with_eng
     (emitEvent "invalidation_failed"
        (updateStats strategy 0 true (eng s))) s).

(** [strategy] is [None] when the caller leaves the argument out;
    [md] is [options?.metadata || {}]. *)
Definition invalidate {A : Type} (target : Target)
  (strategy : option string) (md : list (string * A)) (s : State)
  : outcome (InvalidationResult A) * State :=
  let strategy := default (defaultStrategy (eng s)) strategy in
  let targets := match target with One t => [t] | Many ts => ts end in
  match cacheService (eng s) with
  | None => caught strategy "Cache service not set" md s
  | Some svc =>
      match dispatch (batchSize (eng s)) svc strategy targets
              (world s) (calls s) with
      | None =>
          caught strategy
            (String.append "Unsupported invalidation strategy: " strategy)
            md s
      | Some (ks, nss, tgs, w, tr) =>
          let result :=
            mkResult (length ks) (length nss) (length tgs)
              ks nss tgs true None (Some md) in
          (Returned result,
           mkState
             (emitEvent "invalidation_completed"
                (updateStats strategy (length ks) false (eng s)))
             w tr)
      end
  end.

(** The body is [return true] inside a [try]. *)
Definition evaluateCondition {C : Type} (condition : string)
  (context : C) : bool := true.

(** The dependency loop: is some dependency missing or disabled? *)
Definition dependency_unmet (e : Engine) (deps : list string) : bool :=
  existsb (fun depId =>
             match getRule depId e with
             | Some depRule => negb (enabled depRule)
             | None => true
             end) deps.

(** [context] is the second argument as the caller gave it, of a type
    [C] of the caller's choice (a record, or [undefined] when it is
    left out); the method hands it on in the metadata and does nothing
    else with it. *)
Definition invalidateByRule {C : Type} (ruleId : string)
  (context : C) (s : State)
  : outcome (InvalidationResult (RuleMetadata C)) * State :=
  match getRule ruleId (eng s) with
  | None =>
      (Thrown (String.append "Invalidation rule not found: " ruleId), s)
  | Some rule =>
      if negb (enabled rule)
      then (Returned (refusal "Rule is disabled"), s)
      else if Js.truthy (condition rule)
              && negb (evaluateCondition
                         (default "" (condition rule)) context)
      then (Returned (refusal "Condition not met"), s)
      else if match dependencies rule with
              | Some deps =>
                  (0 <? length deps)%nat && dependency_unmet (eng s) deps
              | None => false
              end
      then (Returned (refusal "Dependency not satisfied"), s)
      else
        invalidate (One (pattern rule)) (Some (strategy rule))
          [("ruleId", RuleText ruleId); ("ruleName", RuleText (name rule));
           ("context", RuleContext context)] s
  end.

(** The public methods that change the service, as one step each. *)
Inductive Op : Type :=
| OpSetCacheService (svc : ICacheService V W)
| OpAddRule (rule : RuleInput) (uuid : string)
| OpRemoveRule (ruleId : string)
| OpUpdateRule (ruleId : string) (updates : RuleUpdates)
| OpInvalidate (target : Target) (strategy : option string)
    (md : list (string * string))
| OpInvalidateByRule (ruleId : string) (context : list (string * string))
| OpResetStats.

Definition step (s : State) (op : Op) : State :=
  match op with
  | OpSetCacheService svc => with_eng (setCacheService svc (eng s)) s
  | OpAddRule rule uuid => with_eng (addRule rule uuid (eng s)).2 s
  | OpRemoveRule ruleId => with_eng (removeRule ruleId (eng s)).2 s
  | OpUpdateRule ruleId updates =>
      with_eng (updateRule ruleId updates (eng s)).2 s
  | OpInvalidate target strategy md => (invalidate target strategy md s).2
  | OpInvalidateByRule ruleId context =>
      (invalidateByRule ruleId context s).2
  | OpResetStats => with_eng (resetStats (eng s)) s
  end.

Definition run (ops : list Op) (s : State) : State :=
  fold_left step ops s.

(** The three counters of the statistics. *)
Definition counters (s : State) : nat * nat * nat :=
  (totalInvalidations (stats (eng s)),
   successfulInvalidations (stats (eng s)),
   failedInvalidations (stats (eng s))).

End Engine.
Arguments Engine : clear implicits.
Arguments State : clear implicits.
Arguments Op : clear implicits.

End CacheInvalidationService.

(** ** Properties of cache keys used in the statements *)

Module CacheKeySpec.
Import Js CacheKeyFactory.

(** Sanitization has been applied: every field that has a sanitizer is
    left as it is by that sanitizer.  ([version] has none.) *)
Definition kept_by (f : string -> result string) (o : option string)
  : Prop :=
  match o with
  | Some s => f s = Ok s
  | None => True
  end.

Definition sanitized (k : CacheKey) : Prop :=
  sanitizeKey (key k) = Ok (key k)
  /\ kept_by sanitizeNamespace (namespace k)
  /\ kept_by sanitizeId (tenantId k)
  /\ kept_by sanitizeId (userId k)
  /\ sanitizeTags (tags k) = tags k.

(** The words that open a block of the serialized key. *)
Definition reserved (s : string) : bool :=
  streq s "tenant" || streq s "user" || streq s "tags".

(** [sep] does not occur in [s]. *)
Definition no_sep (sep : ascii) (s : string) : bool :=
  all_chars (fun c => negb (Ascii.eqb c sep)) s.

Definition no_colon (s : string) : bool := no_sep DEFAULT_SEPARATOR s.

(** Neither of the two separators of the serialized form. *)
Definition word_char (c : ascii) : bool :=
  negb (Ascii.eqb c ":") && negb (Ascii.eqb c ",").

Definition word (s : string) : bool := all_chars word_char s.

(** The key is the marker of a block that [parse] still looks for when
    it reaches the key: ["tags"] without tags, ["user"] without user
    and tags, ["tenant"] without tenant, user and tags. *)
Definition key_reads_as_marker (k : CacheKey) : bool :=
  let no_tenant := negb (truthy (tenantId k)) in
  let no_user := negb (truthy (userId k)) in
  let no_tags := (length (tags k) =? 0)%nat in
  (streq (key k) "tenant" && no_tenant && no_user && no_tags)
  || (streq (key k) "user" && no_user && no_tags)
  || (streq (key k) "tags" && no_tags).

(** A version is read back when it is a colon-free word that starts
    with [v]; no version is read when the string does not start with
    [v]. *)
Definition version_reads_back (k : CacheKey) : bool :=
  match version k with
  | Some v => startsWith v "v" && no_colon v
  | None => negb (startsWith (toString k) "v")
  end.

(** A namespace is read back when it is no block marker. *)
Definition namespace_reads_back (k : CacheKey) : bool :=
  match namespace k with
  | Some ns => negb (reserved ns)
  | None => true
  end.

(** What [parse] needs to read the string of [k] back the way it was
    written. *)
Definition unambiguous (k : CacheKey) : bool :=
  version_reads_back k && namespace_reads_back k
  && negb (key_reads_as_marker k).

Definition segment (present : bool) (words : list string) : list string :=
  if present then words else [].

(** The segments of the serialized key, one word each: a segment is
    there exactly when the field is. *)
Definition segments (k : CacheKey) : list string :=
  segment (bool_decide (is_Some (version k))) [default "" (version k)]
  ++ segment (bool_decide (is_Some (namespace k)))
       [default "" (namespace k)]
  ++ segment (bool_decide (is_Some (tenantId k)))
       ["tenant"; default "" (tenantId k)]
  ++ segment (bool_decide (is_Some (userId k)))
       ["user"; default "" (userId k)]
  ++ segment (bool_decide (tags k <> []))
       ["tags"; join "," (sort (tags k))]
  ++ [key k].

End CacheKeySpec.

(** ** Store calls made one after the other *)

Module StoreSpec.
Import CacheInterface.

Section Turns.
Context {V W : Type}.

(** The calls made one after the other, one per item, each on the
    stores as the call before left them: the entries of the log and
    the stores at the end. *)
Fixpoint in_turn {A : Type} (call : A -> W -> Call V * W)
  (items : list A) (w : W) : list (Call V) * W :=
  match items with
  | [] => ([], w)
  | a :: rest =>
      ((call a w).1 :: (in_turn call rest (call a w).2).1,
       (in_turn call rest (call a w).2).2)
  end.
End Turns.
End StoreSpec.

(** ** Notions used in the statements about the manager *)

Module ManagerSpec.
Import CacheManagerService.
Export StoreSpec.

Section Requests.
Context {V W : Type}.

(** What [set] asks of layer [l]. *)
Definition set_request_for (k : CacheKey) (v : V) (mo : CacheOptions)
  (l : CacheLayerConfig V W)
  : option (string * CacheKey * V * option CacheOptions) :=
  Some (name l, k, v, Some (spread (options l) (Some mo))).

(** What a promotion asks of layer [l]. *)
Definition promotion_for (k : CacheKey) (v : V)
  (l : CacheLayerConfig V W)
  : option (string * CacheKey * V * option CacheOptions) :=
  Some (name l, k, v, None).

(** The read of [k] on layer [l] that came back with [null]. *)
Definition missed (k : CacheKey) (l : CacheLayerConfig V W) : Call V :=
  CallGet (name l) k (Returned None).

(** A store call made on the stores [w]: the entry it leaves in the
    log -- the request with what the store answered -- and the stores
    as the call leaves them. *)
Definition set_on (k : CacheKey) (v : V)
  (o : CacheLayerConfig V W -> option CacheOptions)
  (l : CacheLayerConfig V W) (w : W) : Call V * W :=
  (CallSet (name l) k v (o l) (svc_set (service l) k v (o l) w).1,
   (svc_set (service l) k v (o l) w).2).

Definition delete_on (k : CacheKey) (l : CacheLayerConfig V W) (w : W)
  : Call V * W :=
  (CallDelete (name l) k (svc_delete (service l) k w).1,
   (svc_delete (service l) k w).2).

Definition clear_on (ns : option string) (l : CacheLayerConfig V W) (w : W)
  : Call V * W :=
  (CallClear (name l) ns (svc_clear (service l) ns w).1,
   (svc_clear (service l) ns w).2).

(** The options a layer is written with by [set], and by a
    promotion. *)
Definition merged_under (mo : CacheOptions) (l : CacheLayerConfig V W)
  : option CacheOptions :=
  Some (spread (options l) (Some mo)).

Definition no_options_for (l : CacheLayerConfig V W)
  : option CacheOptions := None.

(** The [cache_promoted] events of promotion writes: one for each
    write that resolved, in the order of the writes. *)
Definition promoted_by (writes : list (Call V)) : list CacheEvent :=
  flat_map (fun c => match c with
                     | CallSet target _ _ _ (Returned _) =>
                         [mkEvent "cache_promoted" (Some target)]
                     | _ => []
                     end) writes.

(** The events a manager emits when events are switched on. *)
Definition when_enabled (m : Manager V W) (events : list CacheEvent)
  : list CacheEvent :=
  if enableEvents m then events else [].
End Requests.
End ManagerSpec.

(** ** Notions used in the statements about the invalidation service *)

Module InvalidationSpec.
Import CacheInvalidationService.

(** [strategy] is one of the eight cases of the [switch]. *)
Definition supported (strategy : string) : bool :=
  existsb (Js.streq strategy) InvalidationStrategy_values.

Section Counters.
Context {V W : Type}.

(** The statistics count every invalidation once, as a success or
    as a failure. *)
Definition balanced (s : State V W) : Prop :=
  totalInvalidations (stats (eng s))
  = successfulInvalidations (stats (eng s))
    + failedInvalidations (stats (eng s)).

(** From [s] to [s']: one more invalidation, counted once. *)
Definition counted_once (s s' : State V W) : Prop :=
  counters s'
  = (S (totalInvalidations (stats (eng s))),
     S (successfulInvalidations (stats (eng s))),
     failedInvalidations (stats (eng s)))
  \/ counters s'
     = (S (totalInvalidations (stats (eng s))),
        successfulInvalidations (stats (eng s)),
        S (failedInvalidations (stats (eng s)))).

(** From [s] to [s']: one more invalidation, counted as a success or
    as a failure according to [succeeded]. *)
Definition counted_as (succeeded : bool) (s s' : State V W) : Prop :=
  counters s'
  = (S (totalInvalidations (stats (eng s))),
     (if succeeded then S (successfulInvalidations (stats (eng s)))
      else successfulInvalidations (stats (eng s))),
     (if succeeded then failedInvalidations (stats (eng s))
      else S (failedInvalidations (stats (eng s))))).

(** The dependencies of [rule] are met: every rule it names is in the
    rule map and enabled. *)
Definition dependencies_met (s : State V W) (rule : InvalidationRule)
  : Prop :=
  forall depId, In depId (default [] (dependencies rule)) ->
    exists depRule,
      rules (eng s) !! depId = Some depRule /\ enabled depRule = true.

(** Two results that differ in their metadata at most. *)
Definition same_but_metadata {A : Type} (r r' : InvalidationResult A)
  : Prop :=
  (invalidatedKeys r, invalidatedNamespaces r, invalidatedTags r,
   keys r, namespaces r, tags r, success r, error r)
  = (invalidatedKeys r', invalidatedNamespaces r', invalidatedTags r',
     keys r', namespaces r', tags r', success r', error r').

(** Two calls that ended the same way, their results differing in
    their metadata at most. *)
Definition same_answer_but_metadata {A : Type}
  (o o' : outcome (InvalidationResult A)) : Prop :=
  match o, o' with
  | Returned r, Returned r' => same_but_metadata r r'
  | Thrown message, Thrown message' => message = message'
  | _, _ => False
  end.
End Counters.
End InvalidationSpec.

(** ** Concrete stores, managers and services for the examples *)

Module Fixtures.
Import CacheInterface.

(** Stores holding numbers: an entry is (store, serialized key, value). *)
Definition Store : Type := list (string * string * nat).

Definition holds (sid ks : string) (e : string * string * nat) : bool :=
  Js.streq e.1.1 sid && Js.streq e.1.2 ks.

(** An in-memory store, in the manner of the test suite's mock. *)
Definition memory_store (sid : string) : ICacheService nat Store :=
  {| svc_get := fun k w =>
       (Returned (option_map snd (find (holds sid (toString k)) w)), w);
     svc_set := fun k v _ w =>
       (Returned true,
        (sid, toString k, v)
          :: List.filter (fun e => negb (holds sid (toString k) e)) w);
     svc_delete := fun k w =>
       (Returned (existsb (holds sid (toString k)) w),
        List.filter (fun e => negb (holds sid (toString k) e)) w);
     svc_exists := fun k w =>
       (Returned (existsb (holds sid (toString k)) w), w);
     svc_clear := fun ns w =>
       (Returned true,
        List.filter
          (fun e =>
             negb (Js.streq e.1.1 sid)
             || match ns with
                | Some n =>
                    negb (bool_decide (namespace (parse e.1.2) = Some n))
                | None => false
                end) w) |}.

(** A store every call on which rejects, as the error layer of the
    manager's tests. *)
Definition broken_store : ICacheService nat Store :=
  {| svc_get := fun _ w => (Thrown "Layer error", w);
     svc_set := fun _ _ _ w => (Thrown "Layer error", w);
     svc_delete := fun _ w => (Thrown "Layer error", w);
     svc_exists := fun _ w => (Thrown "Layer error", w);
     svc_clear := fun _ w => (Thrown "Layer error", w) |}.

Definition plain_key (k : string) : CacheKey :=
  mkCacheKey k None None None None [].

(** The key of the factory's tests with every field set. *)
Definition full_key : CacheKey :=
  mkCacheKey "test-key" (Some "test-namespace") (Some "v2")
    (Some "tenant-123") (Some "user-456") ["tag2"; "tag1"].

(** A sanitized key whose namespace starts with the letter [v]. *)
Definition video_key : CacheKey :=
  mkCacheKey "clip" (Some "video") None None None [].

Module Mgr.
Import CacheManagerService.

Definition empty_manager : Manager nat Store :=
  mkManager [] None true 0 0 0 0 [].

Definition layer (n : string) (p : Z) (svc : ICacheService nat Store)
  (ro : option bool) : CacheLayerInput nat Store :=
  mkLayerInput n p svc None None ro None.

(** The constructor's [initializeLayers]. *)
Definition with_all (ls : list (CacheLayerInput nat Store))
  : Manager nat Store :=
  fold_left (fun m l => (addLayer l m).2) ls empty_manager.

Definition layer1 : CacheLayerConfig nat Store :=
  mkLayer "layer1" 1 (memory_store "s1") None true false false.
Definition layer2 : CacheLayerConfig nat Store :=
  mkLayer "layer2" 2 (memory_store "s2") None true false false.

(** Two tiers numbered 1 and 2. *)
Definition tiers_1_2 : Manager nat Store :=
  with_all [layer "layer1" 1 (memory_store "s1") None;
            layer "layer2" 2 (memory_store "s2") None].

(** Three tiers numbered 1, 2 and 3. *)
Definition tiers_1_2_3 : Manager nat Store :=
  with_all [layer "layer1" 1 (memory_store "s1") None;
            layer "layer2" 2 (memory_store "s2") None;
            layer "layer3" 3 (memory_store "s3") None].

(** Two tiers numbered 0 and 1. *)
Definition tiers_0_1 : Manager nat Store :=
  with_all [layer "layer0" 0 (memory_store "s0") None;
            layer "layer1" 1 (memory_store "s1") None].

(** A failing first tier in front of a working second tier. *)
Definition broken_then_memory : Manager nat Store :=
  with_all [layer "layer1" 1 broken_store None;
            layer "layer2" 2 (memory_store "s2") None].

(** A writable tier and a read-only tier. *)
Definition normal_and_readonly : Manager nat Store :=
  with_all [layer "normal" 1 (memory_store "s1") None;
            layer "frozen" 2 (memory_store "s2") (Some true)].
End Mgr.

Module Inv.
Import CacheInvalidationService.

Definition fresh : Engine nat Store := new_engine EXACT 100 true.

Definition bound : Engine nat Store :=
  setCacheService (memory_store "s1") fresh.

Definition rule (rid : string) (on : bool) : RuleInput :=
  mkRuleInput (Some rid) "rule" NAMESPACE "ns1" "manual" on 1 None None.

Definition disabled_rule : InvalidationRule :=
  mkRule "r1" "rule" NAMESPACE "ns1" "manual" false 1 None None.

(** A bound service with one disabled rule. *)
Definition with_disabled_rule : Engine nat Store :=
  (addRule (rule "r1" false) "uuid-1" bound).2.

(** The same with a second, enabled rule that has a condition and
    depends on the first. *)
Definition with_dependent_rule : Engine nat Store :=
  (addRule
     (mkRuleInput (Some "r2") "second" EXACT "ns2:k2" "manual" true 1
        (Some "x > 1") (Some ["r1"]))
     "uuid-2" with_disabled_rule).2.

(** The same once the first rule is enabled. *)
Definition with_both_enabled : Engine nat Store :=
  (updateRule "r1"
     (mkRuleUpdates None None None None (Some true) None None None)
     with_dependent_rule).2.

Definition two_keys : Store :=
  [("s1", "ns1:k1", 1); ("s1", "ns2:k2", 2)].

(** The metadata of a caller that gives no options, [{}], and the
    context of a caller that gives none, [undefined]. *)
Definition no_metadata : list (string * string) := [].
Definition no_context : option (list (string * string)) := None.
(** The service bound to the tiered manager, as deployed: the world
    behind the store is the manager with its tiers. *)
Definition on_manager : Engine nat (CacheManagerService.State nat Store) :=
  setCacheService CacheManagerService.as_service (new_engine EXACT 100 true).

Definition two_tiers_filled : CacheManagerService.State nat Store :=
  CacheManagerService.mkState Mgr.tiers_1_2
    [("s1", "ns1:k1", 1); ("s2", "ns1:k1", 1); ("s2", "ns2:k2", 2)] [].
End Inv.

End Fixtures.

From Stdlib Require Import Sorted.

(** ** CacheManagerService: the health report *)

Module CacheManagerHealth.
Import CacheManagerService.

(** [interface CacheHealth], without the response time and the date of
    the check. *)
Record CacheHealth : Type := mkHealth {
  healthy : bool;
  connected : bool;
  error : option string
}.

Section Health.
Context {V W : Type}.

(** The [getHealth] method of a store, the one operation of
    [ICacheService] that the record of the data operations leaves out. *)
Variable svc_getHealth : ICacheService V W -> W -> outcome CacheHealth * W.

(** The variables the loop of [getHealth] updates. *)
Record tally : Type := mkTally {
  healthyLayers : nat;
  hasError : bool;
  errorMessage : string
}.

(** The loop runs over [this.layers] as they were inserted; every
    [getHealth] call sits in its own [try]. *)
Fixpoint health_loop (ls : list (CacheLayerConfig V W)) (t : tally) (w : W)
  : tally * W :=
  match ls with
  | [] => (t, w)
  | l :: ls' =>
      if enabled l then
        let '(r, w') := svc_getHealth (service l) w in
        let t' :=
          match r with
          | Returned layerHealth =>
              if healthy layerHealth
              then mkTally (S (healthyLayers t)) (hasError t) (errorMessage t)
              else mkTally (healthyLayers t) true
                     (if Js.truthy (error layerHealth)
                      then default "" (error layerHealth)
                      else "Layer unhealthy")
          | Thrown message => mkTally (healthyLayers t) true message
          end in
        health_loop ls' t' w'
      else health_loop ls' t w
  end.

Definition getHealth (m : Manager V W) (w : W) : CacheHealth * W :=
  let '(t, w') := health_loop (layers m) (mkTally 0 false "") w in
  let activeLayers := length (List.filter enabled (layers m)) in
  ({| healthy := negb (hasError t) && (healthyLayers t =? activeLayers)%nat;
      connected := (0 <? healthyLayers t)%nat;
      error := if hasError t then Some (errorMessage t) else None |},
   w').

(** The answers of the enabled layers, in the order they are asked. *)
Fixpoint health_answers (ls : list (CacheLayerConfig V W)) (w : W)
  : list (outcome CacheHealth) :=
  match ls with
  | [] => []
  | l :: ls' =>
      if enabled l
      then (svc_getHealth (service l) w).1
             :: health_answers ls' (svc_getHealth (service l) w).2
      else health_answers ls' w
  end.

(** The layer answered, and answered [healthy]. *)
Definition answered_healthy (r : outcome CacheHealth) : bool :=
  match r with
  | Returned h => healthy h
  | Thrown _ => false
  end.

(** What an answer lets [getHealth] report as the error, if it is not a
    healthy one. *)
Definition complaint (r : outcome CacheHealth) : option string :=
  match r with
  | Returned h =>
      if healthy h then None
      else Some (if Js.truthy (error h) then default "" (error h)
                 else "Layer unhealthy")
  | Thrown message => Some message
  end.

End Health.
End CacheManagerHealth.

(** ** Notions used in the statements about the manager's operations *)

Module ManagerOps.
Import CacheManagerService.

Section Ops.
Context {V W : Type}.

(** The five data operations of the store contract. *)
Inductive DataOp : Type :=
| OpGet (k : CacheKey)
| OpSet (k : CacheKey) (v : V) (o : option CacheOptions)
| OpDelete (k : CacheKey)
| OpExists (k : CacheKey)
| OpClear (ns : option string).

(** The three layer-administration methods. *)
Inductive AdminOp : Type :=
| OpAddLayer (config : CacheLayerInput V W)
| OpRemoveLayer (n : string)
| OpEnableLayer (n : string) (on : bool).

(** The state after a data operation. *)
Definition after (op : DataOp) (s : State V W) : State V W :=
  match op with
  | OpGet k => (get k s).2
  | OpSet k v o => (set k v o s).2
  | OpDelete k => (delete k s).2
  | OpExists k => (exists_ k s).2
  | OpClear ns => (clear ns s).2
  end.

(** The manager after an administration method. *)
Definition administer (op : AdminOp) (m : Manager V W) : Manager V W :=
  match op with
  | OpAddLayer config => (addLayer config m).2
  | OpRemoveLayer n => (removeLayer n m).2
  | OpEnableLayer n on => (enableLayer n on m).2
  end.

(** Any mix of the two. *)
Definition do_op (s : State V W) (op : DataOp + AdminOp) : State V W :=
  match op with
  | inl d => after d s
  | inr a => mkState (administer a (mgr s)) (world s) (calls s)
  end.

(** The operations that count as a request: [get] and [exists]. *)
Definition counts_as_request (op : DataOp + AdminOp) : bool :=
  match op with
  | inl (OpGet _) | inl (OpExists _) => true
  | _ => false
  end.

(** Ascending priority number. *)
Definition by_priority (l l' : CacheLayerConfig V W) : Prop :=
  (priority l <= priority l')%Z.

(** A call that changes a store: [set], [delete] or [clear]. *)
Definition is_write (c : Call V) : bool :=
  match c with
  | CallSet _ _ _ _ _ | CallDelete _ _ _ | CallClear _ _ _ => true
  | _ => false
  end.

Definition is_exists (c : Call V) : bool :=
  match c with CallExists _ _ _ => true | _ => false end.

(** A [delete] or [clear] call that resolved with [true], an [exists]
    call that resolved with [true]. *)
Definition resolved_true (c : Call V) : bool :=
  match c with
  | CallSet _ _ _ _ (Returned true) | CallDelete _ _ (Returned true)
  | CallExists _ _ (Returned true) | CallClear _ _ (Returned true) => true
  | _ => false
  end.

(** The request of a [delete], [exists] or [clear] call, without its
    outcome. *)
Definition delete_request (c : Call V) : option (string * CacheKey) :=
  match c with CallDelete t k _ => Some (t, k) | _ => None end.

Definition exists_request (c : Call V) : option (string * CacheKey) :=
  match c with CallExists t k _ => Some (t, k) | _ => None end.

Definition clear_request (c : Call V) : option (string * option string) :=
  match c with CallClear t ns _ => Some (t, ns) | _ => None end.

(** The probe of [k] on layer [l] with the answer [b]. *)
Definition probed (k : CacheKey) (b : bool) (l : CacheLayerConfig V W)
  : Call V :=
  CallExists (name l) k (Returned b).

(** The layers before the one that has the key all answer [false] to
    [exists], one after the other; this is the state of the stores
    afterwards. *)
Fixpoint all_absent (k : CacheKey) (ls : list (CacheLayerConfig V W)) (w : W)
  : option W :=
  match ls with
  | [] => Some w
  | l :: ls' =>
      match svc_exists (service l) k w with
      | (Returned false, w') => all_absent k ls' w'
      | _ => None
      end
  end.

(** [c] goes to an enabled layer of [m], and to a writable one if it is
    a write. *)
Definition allowed (m : Manager V W) (c : Call V) : Prop :=
  exists l, In l (layers m) /\ name l = call_target c /\ enabled l = true
            /\ (is_write c = true -> readOnly l = false).

(** [this.layers.get(n)]. *)
Definition find_layer (n : string) (m : Manager V W)
  : option (CacheLayerConfig V W) :=
  find (fun l => Js.streq (name l) n) (layers m).

(** The layer [addLayer] stores for a configuration. *)
Definition stored (config : CacheLayerInput V W) : CacheLayerConfig V W :=
  {| name := in_name config;
     priority := in_priority config;
     service := in_service config;
     options := in_options config;
     enabled := default true (in_enabled config);
     readOnly := default false (in_readOnly config);
     fallback := default false (in_fallback config) |}.

(** [m'] is [m] but for the events emitted since. *)
Definition same_but_events (m m' : Manager V W) : Prop :=
  layers m' = layers m /\ defaultOptions m' = defaultOptions m
  /\ enableEvents m' = enableEvents m /\ requestCount m' = requestCount m
  /\ hitCount m' = hitCount m /\ stats_hits m' = stats_hits m
  /\ stats_misses m' = stats_misses m.

(** The request and hit counters are consistent with each other and
    with the published statistics. *)
Definition counters_consistent (m : Manager V W) : Prop :=
  hitCount m <= requestCount m
  /\ stats_hits m <= hitCount m
  /\ stats_hits m + stats_misses m <= requestCount m.

(** The calls a state has seen beyond those of an earlier state. *)
Definition new_calls (s s' : State V W) : list (Call V) :=
  skipn (length (calls s)) (calls s').

(** The layer names are the keys of the [Map]: no two layers share one. *)
Definition names_unique (m : Manager V W) : Prop :=
  NoDup (map name (layers m)).

(** The manager as the constructor leaves it when it is given no
    layers. *)
Definition initial (defaults : option CacheOptions) (events : bool)
  : Manager V W :=
  mkManager [] defaults events 0 0 0 0 [].

End Ops.
Arguments DataOp : clear implicits.
Arguments AdminOp : clear implicits.
End ManagerOps.

(** ** Notions used in the statements about the invalidation workers *)

Module InvalidationOps.
Import CacheInvalidationService.
Export StoreSpec.

Section Ops.
Context {V W : Type}.

(** The targets of a loop whose store call resolved with [true], the
    calls being those of the loop, one per target. *)
Definition kept (targets : list string) (cs : list (Call V)) : list string :=
  map fst
    (List.filter (fun tc => ManagerOps.resolved_true tc.2)
       (combine targets cs)).


(** The [clear] the namespace worker requests for a target. *)
Definition clear_of (t : string) : option (string * option string) :=
  Some ("", Some t).


Definition clear_target (svc : ICacheService V W) (t : string) (w : W)
  : Call V * W :=
  (CallClear "" (Some t) (svc_clear svc (Some t) w).1,
   (svc_clear svc (Some t) w).2).

(** [Array.isArray(target) ? target : [target]]. *)
Definition targets_of (target : Target) : list string :=
  match target with One t => [t] | Many ts => ts end.

(** Every rule is stored under its own [id]. *)
Definition ids_are_keys (e : Engine V W) : Prop :=
  forall k r, getRule k e = Some r -> id r = k.

End Ops.
End InvalidationOps.

(** ** The key factory: patterns, and what the sanitizers let through *)

Module CacheKeyPatterns.
Import Js CacheKeyFactory.

(** One optional block of [createPattern]: nothing when the option is
    falsy, else the sanitized value behind its label. *)
Definition pattern_block (label : string) (f : string -> result string)
  (o : option string) : result (list string) :=
  if truthy o then
    match f (default "" o) with
    | Ok s => Ok [String.append label s]
    | Err m => Err m
    end
  else Ok [].

(** [createPattern(pattern, options)]: the pattern itself is not
    sanitized; a sanitizer that throws ends the call. *)
Definition createPattern (pattern : string) (options : CacheKeyOptions)
  : result string :=
  let v := if truthy (o_version options)
           then default "" (o_version options) else DEFAULT_VERSION in
  match pattern_block "" sanitizeNamespace (o_namespace options) with
  | Err m => Err m
  | Ok ns =>
      match pattern_block "tenant:" sanitizeId (o_tenantId options) with
      | Err m => Err m
      | Ok t =>
          match pattern_block "user:" sanitizeId (o_userId options) with
          | Err m => Err m
          | Ok u =>
              let tg :=
                match o_tags options with
                | Some ts =>
                    if (0 <? length ts)%nat
                    then [String.append "tags:"
                            (join "," (sort (sanitizeTags ts)))]
                    else []
                | None => []
                end in
              Ok (join DEFAULT_SEPARATOR
                    ([v] ++ ns ++ t ++ u ++ tg ++ [pattern]))
          end
      end
  end.

(** The options that describe a key. *)
Definition options_of (k : CacheKey) : CacheKeyOptions :=
  mkCacheKeyOptions (namespace k) (version k) (tenantId k) (userId k)
    (Some (tags k)).

(** The key [k] with the pattern [p] in the place of its key name. *)
Definition with_key (p : string) (k : CacheKey) : CacheKey :=
  mkCacheKey p (namespace k) (version k) (tenantId k) (userId k) (tags k).

(** The class of [sanitizeNamespace]'s result: the key class without
    the capital letters. *)
Definition namespace_char (c : ascii) : bool :=
  key_char c && negb (is_upper c).

(** A non-empty string of the class [cls]. *)
Definition clean (cls : ascii -> bool) (s : string) : Prop :=
  nonempty s = true /\ all_chars cls s = true.

(** What a sanitizer answers on [k]: [Ok] of a clean string that it
    leaves as it is, for a [k] that is not blank; an error for a blank
    [k]. *)
Definition sanitizes_to (f : string -> result string)
  (cls : ascii -> bool) (k : string) : Prop :=
  match f k with
  | Ok s => trim k <> "" /\ clean cls s /\ f s = Ok s
  | Err _ => trim k = ""
  end.

End CacheKeyPatterns.

(** ** memory-cache.service.ts: the in-memory store

    The data operations, the eviction and the cleanup that the timer
    runs.  [getStats], [getHealth] and [onModuleDestroy] are not
    modelled. *)

Module MemoryCacheService.
Import Js CacheInterface.

(** A [Map] with string keys, in insertion order. *)
Section StringMap.
Context {A : Type}.

Definition smap_get (k : string) (m : list (string * A)) : option A :=
  option_map snd (find (fun kv => streq kv.1 k) m).

(** [Map.prototype.set]: an existing key keeps its position. *)
Fixpoint smap_set (k : string) (a : A) (m : list (string * A))
  : list (string * A) :=
  match m with
  | [] => [(k, a)]
  | (k', a') :: m' =>
      if streq k' k then (k, a) :: m' else (k', a') :: smap_set k a m'
  end.

Definition smap_delete (k : string) (m : list (string * A))
  : list (string * A) :=
  List.filter (fun kv => negb (streq kv.1 k)) m.

End StringMap.

(** The configuration: the constructor sets it to these values and
    reads no other. *)
Definition defaultTtl : Z := 300000.
Definition maxSize : nat := 1000.
Definition defaultStrategy : string := "lru".

(** [this.stats], without the two rates and the date of the reset. *)
Record MemoryStats : Type := mkMemoryStats {
  totalEntries : nat;
  hits : nat;
  misses : nat;
  totalSize : Z;
  expiredEntries : nat;
  evictedEntries : nat
}.

(** [for (const [key, x] of entries) if (x < min) { min = x;
    keyToEvict = key }], [min] starting at [Infinity]: the first key
    that has the least number. *)
Fixpoint first_min (l : list (string * Z)) (best : option (string * Z))
  : option string :=
  match l with
  | [] => option_map fst best
  | (k, x) :: l' =>
      match best with
      | None => first_min l' (Some (k, x))
      | Some (_, least) =>
          if (x <? least)%Z then first_min l' (Some (k, x))
          else first_min l' best
      end
  end.

(** [const index = arr.indexOf(k); if (index > -1) arr.splice(index, 1)]. *)
Fixpoint remove_first (k : string) (l : list string) : list string :=
  match l with
  | [] => []
  | x :: l' => if streq x k then l' else x :: remove_first k l'
  end.

Section Memory.
Context {V : Type}.

(** [Buffer.byteLength(JSON.stringify(value), 'utf8')], 0 when that
    throws. *)
Variable calculateSize : V -> Z.

(** [interface MemoryCacheEntry] with the [CacheValue] inside it; the
    access counters and dates that are written and never read are left
    out. *)
Record MemoryCacheEntry : Type := mkEntry {
  value : V;
  expiresAt : option Z;
  size : Z;
  createdAt : Z
}.

(** The fields of the service object. *)
Record Memory : Type := mkMemory {
  cache : list (string * MemoryCacheEntry);
  accessOrder : list string;
  accessFrequency : list (string * nat);
  stats : MemoryStats
}.

Definition new_memory : Memory :=
  mkMemory [] [] [] (mkMemoryStats 0 0 0 0 0 0).

Definition with_stats (st : MemoryStats) (m : Memory) : Memory :=
  mkMemory (cache m) (accessOrder m) (accessFrequency m) st.

(** [now] is the reading of [Date.now()]. *)
Definition isExpired (entry : MemoryCacheEntry) (now : Z) : bool :=
  match expiresAt entry with
  | Some t => (t <? now)%Z
  | None => false
  end.

Definition updateStats (isHit : bool) (m : Memory) : Memory :=
  let st := stats m in
  with_stats
    (mkMemoryStats (totalEntries st)
       (if isHit then S (hits st) else hits st)
       (if isHit then misses st else S (misses st))
       (totalSize st) (expiredEntries st) (evictedEntries st))
    m.

(** The three deletions that go together: from the map, from the
    access order (its first occurrence) and from the frequencies. *)
Definition forget (keyString : string) (m : Memory) : Memory :=
  mkMemory (smap_delete keyString (cache m))
    (remove_first keyString (accessOrder m))
    (smap_delete keyString (accessFrequency m))
    (stats m).

Definition updateAccessInfo (keyString : string) (m : Memory) : Memory :=
  let newFreq :=
    S (default 0%nat (smap_get keyString (accessFrequency m))) in
  mkMemory (cache m)
    (remove_first keyString (accessOrder m) ++ [keyString])
    (smap_set keyString newFreq (accessFrequency m))
    (stats m).

Definition get (k : CacheKey) (now : Z) (m : Memory)
  : option V * Memory :=
  let keyString := toString k in
  match smap_get keyString (cache m) with
  | None => (None, updateStats false m)
  | Some entry =>
      if isExpired entry now then
        let m1 := forget keyString m in
        let st := stats m1 in
        (None,
         updateStats false
           (with_stats
              (mkMemoryStats (totalEntries st) (hits st) (misses st)
                 (totalSize st) (S (expiredEntries st))
                 (evictedEntries st)) m1))
      else
        (Some (value entry),
         updateStats true (updateAccessInfo keyString m))
  end.

(** The key [evictEntry] picks, and the access order as [shift] leaves
    it. *)
Definition keyToEvict (strategy : string) (m : Memory)
  : option string * list string :=
  if streq strategy "lru" then
    (head (accessOrder m), tail (accessOrder m))
  else if streq strategy "lfu" then
    (first_min
       (map (fun kf => (kf.1, Z.of_nat kf.2)) (accessFrequency m)) None,
     accessOrder m)
  else if streq strategy "fifo" then
    (first_min (map (fun ke => (ke.1, createdAt ke.2)) (cache m)) None,
     accessOrder m)
  else if streq strategy "ttl" then
    (first_min
       (omap (fun ke =>
                match expiresAt ke.2 with
                | Some t => if (t =? 0)%Z then None else Some (ke.1, t)
                | None => None
                end) (cache m)) None,
     accessOrder m)
  else (None, accessOrder m).

Definition evictEntry (strategy : string) (m : Memory) : Memory :=
  let '(k, order) := keyToEvict strategy m in
  let m := mkMemory (cache m) order (accessFrequency m) (stats m) in
  if truthy k then
    let keyString := default "" k in
    match smap_get keyString (cache m) with
    | Some entry =>
        let m1 := forget keyString m in
        let st := stats m1 in
        with_stats
          (mkMemoryStats (length (cache m1)) (hits st) (misses st)
             (totalSize st - size entry) (expiredEntries st)
             (S (evictedEntries st))) m1
    | None => m
    end
  else m.

(** [now] is the reading of [Date.now()] that makes [expiresAt],
    [created] the one that makes the [createdAt] of the entry. *)
Definition set (k : CacheKey) (v : V) (options : option CacheOptions)
  (now created : Z) (m : Memory) : bool * Memory :=
  let keyString := toString k in
  let strategy := default defaultStrategy (options ≫= opt_strategy) in
  let ttl := default defaultTtl (options ≫= opt_ttl) in
  let valueSize := calculateSize v in
  let entry :=
    {| value := v;
       expiresAt := if (0 <? ttl)%Z then Some (now + ttl)%Z else None;
       size := valueSize;
       createdAt := created |} in
  let m := if (maxSize <=? length (cache m))%nat
           then evictEntry strategy m else m in
  let cache' := smap_set keyString entry (cache m) in
  let st := stats m in
  (true,
   mkMemory cache' (accessOrder m ++ [keyString])
     (smap_set keyString 0%nat (accessFrequency m))
     (mkMemoryStats (length cache') (hits st) (misses st)
        (totalSize st + valueSize) (expiredEntries st)
        (evictedEntries st))).

Definition delete (k : CacheKey) (m : Memory) : bool * Memory :=
  let keyString := toString k in
  match smap_get keyString (cache m) with
  | None => (false, m)
  | Some entry =>
      let m1 := forget keyString m in
      let st := stats m1 in
      (true,
       with_stats
         (mkMemoryStats (length (cache m1)) (hits st) (misses st)
            (totalSize st - size entry) (expiredEntries st)
            (evictedEntries st)) m1)
  end.

Definition exists_ (k : CacheKey) (now : Z) (m : Memory) : bool * Memory :=
  let keyString := toString k in
  match smap_get keyString (cache m) with
  | None => (false, m)
  | Some entry =>
      if isExpired entry now then
        let m1 := forget keyString m in
        let st := stats m1 in
        (false,
         with_stats
           (mkMemoryStats (totalEntries st) (hits st) (misses st)
              (totalSize st) (S (expiredEntries st))
              (evictedEntries st)) m1)
      else (true, m)
  end.

(** The second loop of [clear(namespace)] and of
    [cleanupExpiredEntries]: the listed keys are taken out one by one;
    [expired] tells whether each counts as an expired entry. *)
Fixpoint take_out (expired : bool) (keysToDelete : list string)
  (m : Memory) : Memory :=
  match keysToDelete with
  | [] => m
  | keyString :: rest =>
      match smap_get keyString (cache m) with
      | Some entry =>
          let m1 := forget keyString m in
          let st := stats m1 in
          take_out expired rest
            (with_stats
               (mkMemoryStats (totalEntries st) (hits st) (misses st)
                  (totalSize st - size entry)
                  (if expired then S (expiredEntries st)
                   else expiredEntries st)
                  (evictedEntries st)) m1)
      | None => take_out expired rest m
      end
  end.

Definition recount (m : Memory) : Memory :=
  let st := stats m in
  with_stats
    (mkMemoryStats (length (cache m)) (hits st) (misses st)
       (totalSize st) (expiredEntries st) (evictedEntries st)) m.

(** [if (namespace)] is false for the empty string too: everything is
    cleared then. *)
Definition clear (ns : option string) (m : Memory) : bool * Memory :=
  if truthy ns then
    let keysToDelete :=
      map fst
        (List.filter
           (fun ke => bool_decide (namespace (parse ke.1) = ns))
           (cache m)) in
    (true, recount (take_out false keysToDelete m))
  else
    let st := stats m in
    (true,
     mkMemory [] [] []
       (mkMemoryStats 0 (hits st) (misses st) 0 (expiredEntries st)
          (evictedEntries st))).

(** What the cleanup timer runs. *)
Definition cleanupExpiredEntries (now : Z) (m : Memory) : Memory :=
  let keysToDelete :=
    map fst (List.filter (fun ke => isExpired ke.2 now) (cache m)) in
  recount (take_out true keysToDelete m).

Definition resetStats (m : Memory) : Memory :=
  with_stats
    (mkMemoryStats (length (cache m)) 0 0 (totalSize (stats m)) 0 0) m.

(** The calls on the store, and the runs of the cleanup timer. *)
Inductive Op : Type :=
| OpGet (k : CacheKey) (now : Z)
| OpSet (k : CacheKey) (v : V) (options : option CacheOptions)
    (now created : Z)
| OpDelete (k : CacheKey)
| OpExists (k : CacheKey) (now : Z)
| OpClear (ns : option string)
| OpCleanup (now : Z)
| OpResetStats.

Definition step (m : Memory) (op : Op) : Memory :=
  match op with
  | OpGet k now => (get k now m).2
  | OpSet k v options now created => (set k v options now created m).2
  | OpDelete k => (delete k m).2
  | OpExists k now => (exists_ k now m).2
  | OpClear ns => (clear ns m).2
  | OpCleanup now => cleanupExpiredEntries now m
  | OpResetStats => resetStats m
  end.

Definition run (ops : list Op) (m : Memory) : Memory :=
  fold_left step ops m.

(** The entry is gone at [now']: it was stored at [now] with a
    positive time to live that has run out. *)
Definition lapsed (options : option CacheOptions) (now now' : Z) : bool :=
  let ttl := default defaultTtl (options ≫= opt_ttl) in
  (0 <? ttl)%Z && (now + ttl <? now')%Z.


End Memory.
Arguments MemoryCacheEntry : clear implicits.
Arguments Memory : clear implicits.
Arguments Op : clear implicits.

End MemoryCacheService.

(** ** services/cache-key.factory.ts: the string keys of the services

    [createKey] with the two helpers that only fix its arguments,
    [parseKey], [validateKey] and the private functions they use. *)

Module KeyStrings.
Import Js.

(** The configuration: the constructor sets it to these values and
    reads no other. *)
Definition defaultNamespace : string := "cache".
Definition separator : ascii := ":"%char.
Definition enableCompression : bool := false.
Definition maxKeyLength : nat := 250.
Definition enableValidation : bool := true.

(** [interface CacheKeyOptions]: the fields the key is made of. *)
Record KeyOptions : Type := mkKeyOptions {
  k_namespace : option string;
  k_version : option string;
  k_tenantId : option string;
  k_userId : option string
}.

Definition no_key_options : KeyOptions := mkKeyOptions None None None None.

(** [s.substring(a, b)]: the two indices are swapped when [a > b] and
    cut at the length of [s]. *)
Definition substring (a b : nat) (s : string) : string :=
  String.substring (Nat.min a b) (Nat.max a b - Nat.min a b) s.

(** [ToInt32]. *)
Definition to_int32 (z : Z) : Z :=
  let r := (z mod 4294967296)%Z in
  if (r <? 2147483648)%Z then r else (r - 4294967296)%Z.

Definition digit36 (d : Z) : ascii :=
  if (d <? 10)%Z then ascii_of_nat (48 + Z.to_nat d)
  else ascii_of_nat (87 + Z.to_nat d).

(** [n.toString(36)] for an integer [n >= 0]; a number has no more
    digits than bits. *)
Fixpoint base36 (fuel : nat) (n : Z) (acc : string) : string :=
  match fuel with
  | O => acc
  | S fuel' =>
      let acc := String (digit36 (n mod 36)) acc in
      if (n / 36 =? 0)%Z then acc else base36 fuel' (n / 36) acc
  end.

Definition toString36 (n : Z) : string :=
  base36 (S (Z.to_nat (Z.log2 n))) n "".

(** The loop of [simpleHash]: [hash = (hash << 5) - hash + char;
    hash = hash & hash]. *)
Fixpoint hash_loop (s : string) (hash : Z) : Z :=
  match s with
  | EmptyString => hash
  | String c s' =>
      let char := Z.of_nat (nat_of_ascii c) in
      hash_loop s' (to_int32 (to_int32 (hash * 32) - hash + char))
  end.

Definition simpleHash (s : string) : string :=
  toString36 (Z.abs (hash_loop s 0)).

Definition compressKey (key : string) : string :=
  join separator (List.filter nonempty (split separator key)).

(** [Math.floor(250 * 0.3)] is 75 and [Math.floor(250 * 0.2)] is 50. *)
Definition prefixLength : nat := 75.
Definition suffixLength : nat := 50.

Definition truncateKey (key : string) : string :=
  if (String.length key <=? maxKeyLength)%nat then key
  else
    let middleLength := maxKeyLength - prefixLength - suffixLength - 3 in
    let prefix := substring 0 prefixLength key in
    let suffix :=
      String.substring (String.length key - suffixLength)
        (String.length key) key in
    let hash :=
      simpleHash
        (substring prefixLength (String.length key - suffixLength) key) in
    String.append prefix
      (String.append "..."
         (String.append (substring 0 middleLength hash)
            (String.append "..." suffix))).

(** The [parts] array of [createKey]. *)
Definition key_parts (namespace type id : string) (options : KeyOptions)
  : list string :=
  [if truthy (k_namespace options)
   then default "" (k_namespace options) else defaultNamespace;
   namespace; type; id]
  ++ (if truthy (k_version options)
      then ["v"; default "" (k_version options)] else [])
  ++ (if truthy (k_tenantId options)
      then ["tenant"; default "" (k_tenantId options)] else [])
  ++ (if truthy (k_userId options)
      then ["user"; default "" (k_userId options)] else []).

(** [createKey], without the statistics it keeps of the keys made. *)
Definition createKey (namespace type id : string) (options : KeyOptions)
  : string :=
  let key := join separator (key_parts namespace type id options) in
  let key := if enableCompression then compressKey key else key in
  if enableValidation && (maxKeyLength <? String.length key)%nat
  then truncateKey key else key.

Definition createUserKey (userId tenantId type id : string)
  (options : KeyOptions) : string :=
  createKey "user" type id
    (mkKeyOptions (k_namespace options) (k_version options)
       (Some tenantId) (Some userId)).

Definition createTenantKey (tenantId type id : string)
  (options : KeyOptions) : string :=
  createKey "tenant" type id
    (mkKeyOptions (k_namespace options) (k_version options)
       (Some tenantId) (k_userId options)).

(** What [parseKey] returns. *)
Record ParsedKey : Type := mkParsedKey {
  p_namespace : option string;
  p_type : option string;
  p_id : option string;
  p_version : option string;
  p_tenantId : option string;
  p_userId : option string
}.

(** [parts.indexOf(x)], [None] for -1. *)
Fixpoint indexOf (x : string) (parts : list string) : option nat :=
  match parts with
  | [] => None
  | p :: rest =>
      if streq p x then Some 0%nat
      else option_map S (indexOf x rest)
  end.

(** The part behind the first [marker] that is not the first part. *)
Definition part_behind (marker : string) (parts : list string)
  : option string :=
  match indexOf marker parts with
  | Some i =>
      if (0 <? i)%nat && (i + 1 <? length parts)%nat
      then Some (at_ parts (i + 1)) else None
  | None => None
  end.

Definition parseKey (key : string) : ParsedKey :=
  let parts := split separator key in
  if (4 <=? length parts)%nat then
    {| p_namespace := Some (at_ parts 1);
       p_type := Some (at_ parts 2);
       p_id := Some (at_ parts 3);
       p_version := part_behind "v" parts;
       p_tenantId := part_behind "tenant" parts;
       p_userId := part_behind "user" parts |}
  else mkParsedKey None None None None None None.

(** [/[^\w\-:]/]: a character that makes a key invalid. *)
Definition valid_char (c : ascii) : bool :=
  is_lower c || is_upper c || is_digit c
  || Ascii.eqb c "_" || Ascii.eqb c "-" || Ascii.eqb c ":".

Definition validateKey (key : string) : bool :=
  if negb (nonempty key) then false
  else if (maxKeyLength <? String.length key)%nat then false
  else all_chars valid_char key.

(** A part that [parseKey] reads as it was written: it holds no
    separator and is none of the three markers. *)
Definition plain (s : string) : bool :=
  all_chars (fun c => negb (Ascii.eqb c separator)) s
  && negb (streq s "v") && negb (streq s "tenant")
  && negb (streq s "user").

Definition plain_option (o : option string) : bool :=
  match o with
  | Some s => nonempty s && plain s
  | None => true
  end.

End KeyStrings.

(** ** The key factory: lemmas on strings and sanitization *)

Module KeyLemmas.
Import Js CacheKeyFactory CacheKeySpec.

Lemma split_no_sep sep s : no_sep sep s = true -> split sep s = [s].
Proof.
  induction s as [|c s IH]; simpl; [reflexivity|].
  intros H. apply andb_prop in H as [Hc Hs].
  apply negb_true_iff in Hc. rewrite Hc, (IH Hs). reflexivity.
Qed.

Lemma split_app sep s r :
  no_sep sep s = true ->
  split sep (String.append s (String sep r)) = s :: split sep r.
Proof.
  induction s as [|c s IH]; simpl.
  - intros _. rewrite Ascii.eqb_refl. reflexivity.
  - intros H. apply andb_prop in H as [Hc Hs].
    apply negb_true_iff in Hc. rewrite Hc, (IH Hs). reflexivity.
Qed.

Lemma join_cons sep x y (parts : list string) :
  join sep (x :: y :: parts)
  = String.append x (String sep (join sep (y :: parts))).
Proof. reflexivity. Qed.

Lemma split_join sep (parts : list string) :
  parts <> [] ->
  Forall (fun s => no_sep sep s = true) parts ->
  split sep (join sep parts) = parts.
Proof.
  induction parts as [|x parts IH]; [congruence|].
  intros _ Hall. inversion Hall as [|? ? Hx Hrest]; subst.
  destruct parts as [|y parts].
  - simpl. apply split_no_sep, Hx.
  - rewrite join_cons, split_app by exact Hx. f_equal. apply IH; [congruence|exact Hrest].
Qed.

(** *** What sanitization guarantees *)

Lemma all_chars_map_chars (q : ascii -> bool) f s :
  (forall c, q (f c) = true) -> all_chars q (map_chars f s) = true.
Proof.
  intros Hf. induction s as [|c s IH]; simpl; [reflexivity|].
  rewrite Hf, IH. reflexivity.
Qed.

Lemma map_chars_compose f g s :
  map_chars f (map_chars g s) = map_chars (fun c => f (g c)) s.
Proof.
  induction s as [|c s IH]; simpl; [reflexivity|]. rewrite IH. reflexivity.
Qed.

Lemma all_chars_impl (p q : ascii -> bool) s :
  (forall c, p c = true -> q c = true) ->
  all_chars p s = true -> all_chars q s = true.
Proof.
  intros Hpq. induction s as [|c s IH]; simpl; [reflexivity|].
  intros H. apply andb_prop in H as [Hc Hs].
  rewrite (Hpq _ Hc), (IH Hs). reflexivity.
Qed.

Lemma word_no_sep_colon s : word s = true -> no_sep ":" s = true.
Proof.
  apply all_chars_impl. intros c H.
  apply andb_prop in H as [H _]. exact H.
Qed.

Lemma word_no_sep_comma s : word s = true -> no_sep "," s = true.
Proof.
  apply all_chars_impl. intros c H.
  apply andb_prop in H as [_ H]. exact H.
Qed.

Ltac all_ascii c :=
  destruct c as [[] [] [] [] [] [] [] []]; reflexivity.

Lemma key_class_word c :
  word_char (if key_char c then c else "_"%char) = true.
Proof. all_ascii c. Qed.

Lemma namespace_class_word c :
  word_char (lower_char (if key_char c then c else "_"%char)) = true.
Proof. all_ascii c. Qed.

Lemma id_class_word c :
  word_char (if id_char c then c else "_"%char) = true.
Proof. all_ascii c. Qed.

Lemma map_chars_nonempty f s :
  nonempty (map_chars f s) = nonempty s.
Proof. destruct s; reflexivity. Qed.

Lemma length_zero_nonempty s :
  (String.length s =? 0)%nat = negb (nonempty s).
Proof. destruct s; reflexivity. Qed.

Lemma sanitizeKey_fixed k :
  sanitizeKey k = Ok k -> nonempty k = true /\ word k = true.
Proof.
  unfold sanitizeKey. destruct (nonempty k) eqn:Hk; simpl; [|discriminate].
  destruct (_ =? _)%nat; [discriminate|].
  intros [= H]. split; [reflexivity|]. rewrite <- H.
  apply all_chars_map_chars, key_class_word.
Qed.

Lemma sanitizeNamespace_fixed ns :
  sanitizeNamespace ns = Ok ns -> nonempty ns = true /\ word ns = true.
Proof.
  unfold sanitizeNamespace.
  destruct (nonempty ns) eqn:Hk; simpl; [|discriminate].
  destruct (_ =? _)%nat; [discriminate|].
  intros [= H]. split; [reflexivity|]. rewrite <- H.
  unfold toLowerCase, replace_outside. rewrite map_chars_compose.
  apply all_chars_map_chars, namespace_class_word.
Qed.

Lemma sanitizeId_fixed i :
  sanitizeId i = Ok i -> nonempty i = true /\ word i = true.
Proof.
  unfold sanitizeId. destruct (nonempty i) eqn:Hk; simpl; [|discriminate].
  destruct (_ =? _)%nat; [discriminate|].
  intros [= H]. split; [reflexivity|]. rewrite <- H.
  apply all_chars_map_chars, id_class_word.
Qed.

Lemma dedup_first_In seen l x : In x (dedup_first seen l) -> In x l.
Proof.
  revert seen. induction l as [|y l IH]; simpl; [tauto|].
  intros seen. destruct (existsb _ seen).
  - intros H. right. eapply IH, H.
  - intros [H|H]; [left; exact H | right; eapply IH, H].
Qed.

Lemma sanitizeTags_fixed ts :
  sanitizeTags ts = ts ->
  Forall (fun t => nonempty t = true /\ word t = true) ts.
Proof.
  intros H. rewrite <- H. apply List.Forall_forall. intros x Hx.
  apply dedup_first_In in Hx. apply in_map_iff in Hx as [y [<- Hy]].
  apply filter_In in Hy as [_ Hy]. split.
  - unfold replace_outside. rewrite map_chars_nonempty. exact Hy.
  - apply all_chars_map_chars, id_class_word.
Qed.

(** *** Sorting keeps the elements *)

Lemma sort_insert_In x y l : In y (sort_insert x l) <-> y = x \/ In y l.
Proof.
  induction l as [|z l IH]; simpl.
  - intuition.
  - destruct (String.leb x z); simpl; rewrite ?IH; intuition.
Qed.

Lemma sort_In y l : In y (sort l) <-> In y l.
Proof.
  induction l as [|x l IH]; simpl; [tauto|].
  rewrite sort_insert_In, IH. intuition.
Qed.

Lemma sort_Forall (P : string -> Prop) l : Forall P l -> Forall P (sort l).
Proof.
  rewrite !List.Forall_forall. intros H x Hx. apply H, sort_In, Hx.
Qed.

Lemma sort_nonnil l : l <> [] -> sort l <> [].
Proof.
  destruct l as [|x l]; [congruence|]. intros _ H.
  assert (Hin : In x (sort (x :: l))) by (apply sort_In; left; reflexivity).
  rewrite H in Hin. exact Hin.
Qed.

Lemma no_sep_append sep s r :
  no_sep sep (String.append s r) = no_sep sep s && no_sep sep r.
Proof.
  unfold no_sep. induction s as [|c s IH]; simpl; [reflexivity|].
  rewrite IH, andb_assoc. reflexivity.
Qed.

Lemma join_comma_no_colon l :
  Forall (fun t => word t = true) l -> no_sep ":" (join "," l) = true.
Proof.
  induction l as [|x l IH]; [reflexivity|].
  intros H. inversion H as [|? ? Hx Hl]; subst.
  destruct l as [|y l]; [apply word_no_sep_colon, Hx|].
  rewrite join_cons, no_sep_append. simpl.
  rewrite (word_no_sep_colon _ Hx). apply IH, Hl.
Qed.

Lemma filter_nonempty_id l :
  Forall (fun t => nonempty t = true) l -> List.filter nonempty l = l.
Proof.
  induction l as [|x l IH]; [reflexivity|].
  intros H. inversion H as [|? ? Hx Hl]; subst. simpl.
  rewrite Hx, (IH Hl). reflexivity.
Qed.

(** What [parse] gets back from the [tags:] block. *)
Lemma tags_block_roundtrip ts :
  ts <> [] ->
  Forall (fun t => nonempty t = true /\ word t = true) ts ->
  List.filter nonempty (split "," (join "," (sort ts))) = sort ts.
Proof.
  intros Hne Hall. apply sort_Forall in Hall.
  rewrite split_join.
  - apply filter_nonempty_id. eapply List.Forall_impl; [|exact Hall].
    intros t [H _]. exact H.
  - apply sort_nonnil, Hne.
  - eapply List.Forall_impl; [|exact Hall].
    intros t [_ H]. apply word_no_sep_comma, H.
Qed.
End KeyLemmas.

(** ** The key factory: [parse] after [toString] *)

Module KeyRoundTrip.
Import Js CacheKeyFactory CacheKeySpec KeyLemmas.

Lemma startsWith_append s r p :
  nonempty s = true ->
  startsWith (String.append s r) (String p "") = startsWith s (String p "").
Proof.
  destruct s as [|c s]; [discriminate|]. intros _.
  unfold startsWith. simpl. destruct (ascii_dec p c); [|reflexivity].
  destruct s, r; reflexivity.
Qed.

Lemma reserved_false s :
  negb (reserved s) = true ->
  streq s "tenant" = false /\ streq s "user" = false
  /\ streq s "tags" = false.
Proof.
  unfold reserved. rewrite negb_true_iff, !orb_false_iff. tauto.
Qed.

(** *** What [parse] yields on any string *)

Lemma split_head sep s :
  exists h t,
    split sep s = h :: t /\ no_sep sep h = true
    /\ (forall c, c <> sep ->
          startsWith s (String c "") = startsWith h (String c "")).
Proof.
  induction s as [|a s IH].
  - exists "", []. auto.
  - simpl. destruct (Ascii.eqb a sep) eqn:E.
    + exists "", (split sep s). split; [reflexivity|]. split; [reflexivity|].
      intros c Hc. apply Ascii.eqb_eq in E. subst a.
      unfold startsWith. simpl. destruct (ascii_dec c sep); [contradiction|].
      reflexivity.
    + destruct IH as (h & t & Hs & Hn & _). rewrite Hs.
      exists (String a h), t. split; [reflexivity|]. split.
      * unfold no_sep in *. simpl. rewrite E. exact Hn.
      * intros c _. unfold startsWith. simpl.
        destruct (ascii_dec c a); [|reflexivity]. destruct s, h; reflexivity.
Qed.

(** The version is decided by the first part alone. *)
Lemma parse_parts_version parts :
  version (parse_parts parts)
  = if (0 <? length parts)%nat && startsWith (at_ parts 0) "v"
    then Some (at_ parts 0) else None.
Proof.
  unfold parse_parts.
  set (st0 := (mkCacheKey "" None None None None [], 0%nat)).
  assert (Hns : forall st, version (parse_namespace parts st).1 = version st.1).
  { intros [ck i]. unfold parse_namespace.
    destruct (_ && _); reflexivity. }
  assert (Hte : forall st, version (parse_tenant parts st).1 = version st.1).
  { intros [ck i]. unfold parse_tenant.
    destruct (_ && _); [|reflexivity]. destruct (_ <? _)%nat; reflexivity. }
  assert (Hus : forall st, version (parse_user parts st).1 = version st.1).
  { intros [ck i]. unfold parse_user.
    destruct (_ && _); [|reflexivity]. destruct (_ <? _)%nat; reflexivity. }
  assert (Hta : forall st, version (parse_tags parts st).1 = version st.1).
  { intros [ck i]. unfold parse_tags.
    destruct (_ && _); [|reflexivity]. destruct (_ <? _)%nat; reflexivity. }
  assert (Hke : forall st, version (parse_key parts st) = version st.1).
  { intros [ck i]. unfold parse_key. destruct (_ <? _)%nat; reflexivity. }
  rewrite Hke, Hta, Hus, Hte, Hns. unfold parse_version, st0.
  destruct (_ && _); reflexivity.
Qed.

(** A block marker is never taken for the namespace. *)
Lemma parse_parts_namespace parts ns :
  namespace (parse_parts parts) = Some ns -> reserved ns = false.
Proof.
  unfold parse_parts.
  set (st0 := (mkCacheKey "" None None None None [], 0%nat)).
  assert (Hve : namespace (parse_version parts st0).1 = None).
  { unfold parse_version, st0. destruct (_ && _); reflexivity. }
  assert (Hns : forall st,
             namespace st.1 = None ->
             namespace (parse_namespace parts st).1 = Some ns ->
             reserved ns = false).
  { intros [ck i] Hnone. unfold parse_namespace.
    destruct (_ && _) eqn:E; [|simpl in *; congruence].
    simpl. intros [= <-]. unfold reserved.
    repeat (apply andb_prop in E as [E ?]).
    repeat match goal with
           | H : negb _ = true |- _ => apply negb_true_iff in H; rewrite H
           end.
    reflexivity. }
  assert (Hte : forall st,
             namespace (parse_tenant parts st).1 = namespace st.1).
  { intros [ck i]. unfold parse_tenant.
    destruct (_ && _); [|reflexivity]. destruct (_ <? _)%nat; reflexivity. }
  assert (Hus : forall st, namespace (parse_user parts st).1 = namespace st.1).
  { intros [ck i]. unfold parse_user.
    destruct (_ && _); [|reflexivity]. destruct (_ <? _)%nat; reflexivity. }
  assert (Hta : forall st, namespace (parse_tags parts st).1 = namespace st.1).
  { intros [ck i]. unfold parse_tags.
    destruct (_ && _); [|reflexivity]. destruct (_ <? _)%nat; reflexivity. }
  assert (Hke : forall st, namespace (parse_key parts st) = namespace st.1).
  { intros [ck i]. unfold parse_key. destruct (_ <? _)%nat; reflexivity. }
  rewrite Hke, Hta, Hus, Hte. apply Hns, Hve.
Qed.

#[local] Arguments startsWith : simpl never.
#[local] Arguments streq : simpl never.
#[local] Arguments nonempty : simpl never.
#[local] Arguments no_sep : simpl never.
#[local] Arguments word : simpl never.
#[local] Arguments join : simpl never.
#[local] Arguments sort : simpl never.
#[local] Arguments split : simpl never.

(** Evaluate the tests whose arguments are literals. *)
Ltac eval_closed :=
  repeat match goal with
    | |- context [streq ?a ?b] =>
        let r := eval vm_compute in (streq a b) in
        match r with
        | true => change (streq a b) with true
        | false => change (streq a b) with false
        end
    | |- context [startsWith ?a ?b] =>
        let r := eval vm_compute in (startsWith a b) in
        match r with
        | true => change (startsWith a b) with true
        | false => change (startsWith a b) with false
        end
    | |- context [no_sep ?a ?b] =>
        let r := eval vm_compute in (no_sep a b) in
        match r with
        | true => change (no_sep a b) with true
        end
    end.

Lemma append_block w sep x r :
  String.append (String.append w (String sep x)) r
  = String.append w (String sep (String.append x r)).
Proof.
  induction w as [|c w IH]; [reflexivity|].
  change (String c (String.append (String.append w (String sep x)) r)
          = String c (String.append w (String sep (String.append x r)))).
  f_equal. exact IH.
Qed.

(** A part [word:rest] of [toString] reads as two words once joined. *)
Lemma join_block sep w x rest :
  join sep (String.append w (String sep x) :: rest)
  = join sep (w :: x :: rest).
Proof.
  destruct rest as [|y rest]; [reflexivity|].
  rewrite !join_cons, append_block. reflexivity.
Qed.

Lemma startsWith_join x rest p :
  nonempty x = true ->
  startsWith (join ":" (x :: rest)) (String p "")
  = startsWith x (String p "").
Proof.
  intros H. destruct rest as [|y rest]; [reflexivity|].
  rewrite join_cons. apply startsWith_append, H.
Qed.

Lemma startsWith_nonempty s p :
  startsWith s (String p "") = true -> nonempty s = true.
Proof. destruct s; [discriminate | reflexivity]. Qed.

Lemma streq_neq a b : a <> b -> streq a b = false.
Proof. apply String.eqb_neq. Qed.

Ltac key_cases key0 :=
  let N1 := fresh "N1" in
  let N2 := fresh "N2" in
  let N3 := fresh "N3" in
  destruct (String.eqb_spec key0 "tenant") as [->|N1];
  [| destruct (String.eqb_spec key0 "user") as [->|N2];
     [| destruct (String.eqb_spec key0 "tags") as [->|N3];
        [| apply streq_neq in N1; apply streq_neq in N2;
           apply streq_neq in N3 ] ] ].

Ltac blocks :=
  repeat match goal with
    | |- context [String.append "tenant:" ?t] =>
        change (String.append "tenant:" t)
          with (String.append "tenant" (String ":" t))
    | |- context [String.append "user:" ?t] =>
        change (String.append "user:" t)
          with (String.append "user" (String ":" t))
    | |- context [String.append "tags:" ?t] =>
        change (String.append "tags:" t)
          with (String.append "tags" (String ":" t))
    end.

Ltac bool_facts :=
  repeat match goal with
    | H : _ && _ = true |- _ => apply andb_prop in H as [? ?]
    | H : negb _ = true |- _ => apply negb_true_iff in H
    | H : _ || _ = false |- _ => apply orb_false_iff in H as [? ?]
    | H : true = true |- _ => clear H
    end.

Ltac use_facts :=
  repeat match goal with
    | H : streq ?a ?b = _ |- context [streq ?a ?b] => rewrite H
    | H : startsWith ?a ?b = _ |- context [startsWith ?a ?b] => rewrite H
    end.

(** What [parse] makes of the string of a sanitized key whose version
    and namespace read back: the key itself, tags sorted, unless the key
    is taken for a block marker, and then the parsed key is empty. *)
Lemma parse_of_toString k :
  sanitized k ->
  version_reads_back k = true -> namespace_reads_back k = true ->
  split ":" (toString k) = segments k
  /\ (if key_reads_as_marker k then key (parse (toString k)) = ""
      else parse (toString k) = after_toString k).
Proof.
  destruct k as [key0 [ns|] [v|] [t|] [u|] [|tg tgs]];
  intros (Hkey & Hns & Ht & Hu & Htags) Hver Hnsp;
  unfold version_reads_back, namespace_reads_back in *;
  cbn [key namespace version tenantId userId tags kept_by] in *.
  all: apply sanitizeKey_fixed in Hkey as [Hk1 Hk2].
  all: try (apply sanitizeNamespace_fixed in Hns as [Hn1 Hn2]).
  all: try (apply sanitizeId_fixed in Ht as [Ht1 Ht2]).
  all: try (apply sanitizeId_fixed in Hu as [Hu1 Hu2]).
  all: apply sanitizeTags_fixed in Htags.
  all: try (pose proof (tags_block_roundtrip (tg :: tgs)
                          ltac:(congruence) Htags) as Hcsv;
            assert (Hcsv2 : no_sep ":" (join "," (sort (tg :: tgs))) = true)
              by (apply join_comma_no_colon, sort_Forall;
                  eapply List.Forall_impl; [|exact Htags];
                  intros ? [_ ?]; assumption);
            set (csv := join "," (sort (tg :: tgs))) in * ).
  all: try (apply andb_prop in Hver as [Hv1 Hv2];
            pose proof (startsWith_nonempty _ _ Hv1) as Hv0).
  all: match goal with |- split _ (toString ?k) = _ /\ _ =>
         assert (Hstr : toString k = join ":" (segments k)) by
           (unfold toString, toString_parts, segments; cbn;
            rewrite ?Hv0, ?Hn1, ?Ht1, ?Hu1; cbn; blocks;
            rewrite ?join_block; reflexivity)
       end.
  all: try rewrite Hstr in Hver; rewrite Hstr; clear Hstr.
  all: key_cases key0.
  all: revert Hnsp; try revert Hver;
       unfold key_reads_as_marker, reserved, segments; cbn.
  all: rewrite ?Ht1, ?Hu1, ?N1, ?N2, ?N3; cbn.
  all: rewrite ?startsWith_join by (assumption || reflexivity).
  all: eval_closed; cbn.
  all: intros; bool_facts.
  all: match goal with |- split _ (join _ ?l) = _ /\ _ =>
         assert (Hsplit : split ":" (join ":" l) = l)
           by (apply split_join; [discriminate|];
               repeat constructor;
               first [ reflexivity | assumption
                     | apply word_no_sep_colon; assumption ])
       end.
  all: split; [exact Hsplit|].
  all: unfold parse; change DEFAULT_SEPARATOR with ":"%char;
       rewrite Hsplit; clear Hsplit.
  all: unfold parse_parts, parse_key, parse_tags, parse_user, parse_tenant,
         parse_namespace, parse_version, after_toString.
  all: repeat (progress (cbn; use_facts; eval_closed)).
  all: try (subst csv; rewrite Hcsv); reflexivity.
Qed.

(** C3, as amended.  For every cache key [k] whose fields are
    sanitized and whose string [parse] can read back without a guess
    ([unambiguous]: a version is a colon-free word starting with [v] and,
    without a version, the string does not start with [v]; the namespace
    is none of [tenant], [user], [tags]; the key is not one of these
    words in a place where [parse] takes it for a block marker), the
    serialized string splits at the colons into exactly the segments of
    the fields that are present -- version, namespace, [tenant] and id,
    [user] and id, [tags] and the sorted comma-joined tags, key -- and
    parsing it yields [k] as the caller holds it after [toString], that
    is [k] with its tags sorted, hence [k] itself when its tags are
    sorted already. *)
Theorem parse_inverts_toString_when_unambiguous k :
  sanitized k -> unambiguous k = true ->
  split ":" (toString k) = segments k
  /\ parse (toString k) = after_toString k
  /\ (sort (tags k) = tags k -> parse (toString k) = k).
Proof.
  intros Hsan Hun. unfold unambiguous in Hun.
  apply andb_prop in Hun as [Hun Hkey]. apply andb_prop in Hun as [Hv Hn].
  destruct (parse_of_toString k Hsan Hv Hn) as [Hsplit Hparse].
  apply negb_true_iff in Hkey. rewrite Hkey in Hparse.
  split; [exact Hsplit|]. split; [exact Hparse|].
  intros Hsorted. rewrite Hparse. unfold after_toString. rewrite Hsorted.
  destruct k as [? ? ? ? ? ts]. simpl. destruct (0 <? length ts)%nat;
    reflexivity.
Qed.

(** The amendment is as small as it can be: for a sanitized key the
    string is read back exactly when the key is [unambiguous]. *)
Lemma roundtrip_only_when_unambiguous k :
  sanitized k ->
  parse (toString k) = after_toString k -> unambiguous k = true.
Proof.
  intros Hsan Hrt.
  assert (Hparts : parse (toString k)
                   = parse_parts (split ":" (toString k))) by reflexivity.
  assert (Hv : version_reads_back k = true).
  { pose proof (parse_parts_version (split ":" (toString k))) as H1.
    rewrite <- Hparts, Hrt in H1.
    destruct (split_head ":" (toString k)) as (h & t & Hs & Hn & Hst).
    rewrite Hs in H1. cbn in H1. unfold version_reads_back.
    replace (version (after_toString k)) with (version k) in H1
      by (destruct k; reflexivity).
    destruct (version k) as [v|].
    - destruct (startsWith h "v") eqn:E; [|discriminate].
      injection H1 as ->. rewrite E. exact Hn.
    - destruct (startsWith h "v") eqn:E; [discriminate|].
      rewrite (Hst "v"%char ltac:(discriminate)), E. reflexivity. }
  assert (Hn : namespace_reads_back k = true).
  { unfold namespace_reads_back.
    destruct (namespace k) as [ns|] eqn:E; [|reflexivity].
    apply negb_true_iff.
    apply (parse_parts_namespace (split ":" (toString k))).
    rewrite <- Hparts, Hrt. destruct k; exact E. }
  destruct (parse_of_toString k Hsan Hv Hn) as [_ Hp].
  unfold unambiguous. rewrite Hv, Hn.
  destruct (key_reads_as_marker k); [|reflexivity].
  rewrite Hrt in Hp. destruct Hsan as [Hkey _].
  apply sanitizeKey_fixed in Hkey as [Hne _].
  destruct k as [key0 ? ? ? ? ?]. simpl in *. subst key0. discriminate.
Qed.

(** The amended C3 on the key of the factory's tests that has every
    field. *)
Lemma parse_inverts_toString_when_unambiguous_witness :
  sanitized Fixtures.full_key /\ unambiguous Fixtures.full_key = true
  /\ split ":" (toString Fixtures.full_key) = segments Fixtures.full_key
  /\ parse (toString Fixtures.full_key) = after_toString Fixtures.full_key.
Proof.
  assert (H1 : sanitized Fixtures.full_key) by (repeat split; reflexivity).
  assert (H2 : unambiguous Fixtures.full_key = true) by reflexivity.
  split; [exact H1|]. split; [exact H2|].
  destruct (parse_inverts_toString_when_unambiguous Fixtures.full_key H1 H2)
    as (Hsegments & Hparse & _).
  split; [exact Hsegments | exact Hparse].
Defined.

(** The strings of the factory's own tests. *)
Example toString_full_key :
  toString Fixtures.full_key
  = "v2:test-namespace:tenant:tenant-123:user:user-456:tags:tag1,tag2:test-key"
  /\ parse "test-namespace:test-key"
   = mkCacheKey "test-key" (Some "test-namespace") None None None []
  /\ create "test key with spaces!@#" no_options
   = Ok (Fixtures.plain_key "test_key_with_spaces___").
Proof. vm_compute. auto. Qed.

(** C3 as stated fails on a sanitized key: the namespace [video] comes
    back as the version, and the parsed key has no namespace. *)
Lemma namespace_starting_with_v_is_parsed_as_version :
  sanitized Fixtures.video_key
  /\ toString Fixtures.video_key = "video:clip"
  /\ parse (toString Fixtures.video_key)
   = mkCacheKey "clip" None (Some "video") None None []
  /\ parse (toString Fixtures.video_key) <> Fixtures.video_key.
Proof.
  split; [repeat split; reflexivity|]. split; [reflexivity|].
  split; [reflexivity|]. vm_compute. discriminate.
Qed.

End KeyRoundTrip.

(** ** The tiered manager: lemmas about its loops *)

Module ManagerLemmas.
Import CacheManagerService ManagerSpec.

Section Proofs.
Context {V W : Type}.
Implicit Types (l x : CacheLayerConfig V W).
Implicit Types (ls : list (CacheLayerConfig V W)).
Implicit Types (m : Manager V W) (s : State V W).

Lemma layer_sort_insert_In x l ls :
  In l (sort_insert x ls) <-> l = x \/ In l ls.
Proof.
  induction ls as [|y ls IH]; simpl.
  - intuition.
  - destruct (priority x <=? priority y)%Z; simpl; rewrite ?IH; intuition.
Qed.

Lemma sort_by_priority_In l ls : In l (sort_by_priority ls) <-> In l ls.
Proof.
  induction ls as [|x ls IH]; simpl; [tauto|].
  rewrite layer_sort_insert_In, IH. intuition.
Qed.

Lemma getSortedLayers_In l m :
  In l (getSortedLayers m) <-> In l (layers m) /\ enabled l = true.
Proof.
  unfold getSortedLayers. rewrite sort_by_priority_In. apply filter_In.
Qed.

Lemma higherLayers_In l m p :
  In l (higherLayers m p)
  <-> In l (layers m) /\ enabled l = true /\ readOnly l = false
      /\ (priority l < p)%Z.
Proof.
  unfold higherLayers. rewrite sort_by_priority_In, filter_In.
  rewrite !andb_true_iff, negb_true_iff, Z.ltb_lt. tauto.
Qed.

Lemma set_loop_spec k v mo ls success s :
  exists new,
    calls (set_loop k v mo ls success s).2 = calls s ++ new
    /\ map set_request new
       = map (set_request_for k v mo) (List.filter writable ls)
    /\ (set_loop k v mo ls success s).1
       = success || existsb set_accepted new.
Proof.
  revert success s. induction ls as [|l ls IH]; intros success s.
  - exists []. simpl. rewrite app_nil_r, orb_false_r. auto.
  - simpl. unfold writable.
    destruct (enabled l), (readOnly l); simpl; try apply IH.
    destruct (svc_set (service l) k v _ (world s)) as [r w'] eqn:Hset.
    set (c := CallSet (name l) k v
                (Some (spread (options l) (Some mo))) r).
    assert (Hgo : forall b m',
      exists new',
        calls (set_loop k v mo ls b (mkState m' w' (calls s ++ [c]))).2
        = calls s ++ c :: new'
        /\ map set_request (c :: new')
           = set_request_for k v mo l
               :: map (set_request_for k v mo) (List.filter writable ls)
        /\ (set_loop k v mo ls b (mkState m' w' (calls s ++ [c]))).1
           = b || existsb set_accepted new').
    { intros b m'.
      destruct (IH b (mkState m' w' (calls s ++ [c])))
        as (new & Hc & Hr & Hs).
      exists new. simpl in Hc. rewrite Hc, <- app_assoc. simpl.
      rewrite Hr. auto. }
    destruct r as [[|]|msg].
    + destruct (Hgo true (emitEvent "cache_set" (Some (name l)) (mgr s)))
        as (new & Hc & Hr & Hs).
      exists (c :: new). split; [exact Hc|]. split; [exact Hr|].
      rewrite Hs. simpl. rewrite orb_true_r. reflexivity.
    + destruct (Hgo success (mgr s)) as (new & Hc & Hr & Hs).
      exists (c :: new). split; [exact Hc|]. split; [exact Hr|].
      rewrite Hs. reflexivity.
    + destruct (Hgo success (mgr s)) as (new & Hc & Hr & Hs).
      exists (c :: new). split; [exact Hc|]. split; [exact Hr|].
      rewrite Hs. reflexivity.
Qed.

Lemma set_request_Some (c : Call V) t k v o :
  set_request c = Some (t, k, v, o) ->
  is_set c = true /\ call_target c = t /\ exists r, c = CallSet t k v o r.
Proof.
  destruct c; simpl; try discriminate.
  intros [= -> -> -> ->]. eauto.
Qed.

Lemma promote_loop_spec k v ls p s :
  exists sets,
    calls (promote_loop k v ls p s) = calls s ++ sets
    /\ map set_request sets = map (promotion_for k v) ls.
Proof.
  revert s. induction ls as [|l ls IH]; intros s.
  - exists []. simpl. rewrite app_nil_r. auto.
  - simpl. destruct (svc_set (service l) k v None (world s)) as [r w'].
    match goal with |- context [promote_loop k v ls p ?s1] =>
      destruct (IH s1) as (sets & Hc & Hr) end.
    exists (CallSet (name l) k v None r :: sets).
    rewrite Hc. simpl. rewrite <- app_assoc, Hr. auto.
Qed.

(** The loops and the calls made in turn: each entry of the log
    carries what the store answered, and the stores end as the last
    call leaves them. *)
Lemma in_turn_requests {A : Type} (call : A -> W -> Call V * W)
  (request : Call V -> option (string * CacheKey * V * option CacheOptions))
  (wanted : A -> option (string * CacheKey * V * option CacheOptions))
  (items : list A) (w : W) :
  (forall a w', request (call a w').1 = wanted a) ->
  map request (in_turn call items w).1 = map wanted items.
Proof.
  intros H. revert w. induction items as [|a rest IH]; intros w;
    [reflexivity|].
  simpl. now rewrite H, IH.
Qed.

Lemma in_turn_cons {A : Type} (call : A -> W -> Call V * W) a rest w c w' :
  call a w = (c, w') ->
  in_turn call (a :: rest) w
  = (c :: (in_turn call rest w').1, (in_turn call rest w').2).
Proof. intros E. cbn [in_turn]. now rewrite E. Qed.

Lemma set_on_answer k v o l w r w' :
  svc_set (service l) k v (o l) w = (r, w') ->
  set_on k v o l w = (CallSet (name l) k v (o l) r, w').
Proof. intros E. unfold set_on. now rewrite E. Qed.

Lemma promote_loop_turn k v ls p s :
  calls (promote_loop k v ls p s)
  = calls s ++ (in_turn (set_on k v no_options_for) ls (world s)).1
  /\ world (promote_loop k v ls p s)
     = (in_turn (set_on k v no_options_for) ls (world s)).2.
Proof.
  revert s. induction ls as [|l ls IH]; intros s.
  - simpl. rewrite app_nil_r. auto.
  - cbn [promote_loop].
    destruct (svc_set (service l) k v None (world s)) as [r w'] eqn:E.
    rewrite (in_turn_cons _ _ _ _ _ _
               (set_on_answer k v no_options_for l _ _ _ E)).
    match goal with |- context [promote_loop k v ls p ?s1] =>
      destruct (IH s1) as [Hc Hw] end.
    cbn [fst snd world calls] in *.
    rewrite Hc, Hw, <- app_assoc. auto.
Qed.

Lemma writable_test l :
  writable l = negb (negb (enabled l) || readOnly l).
Proof. unfold writable. destruct (enabled l), (readOnly l); reflexivity. Qed.

Lemma set_loop_turn k v mo ls success s :
  calls (set_loop k v mo ls success s).2
  = calls s
    ++ (in_turn (set_on k v (merged_under mo)) (List.filter writable ls)
          (world s)).1
  /\ world (set_loop k v mo ls success s).2
     = (in_turn (set_on k v (merged_under mo)) (List.filter writable ls)
          (world s)).2.
Proof.
  revert success s. induction ls as [|l ls IH]; intros success s.
  - simpl. rewrite app_nil_r. auto.
  - cbn [set_loop List.filter].
    rewrite writable_test.
    destruct (negb (enabled l) || readOnly l); cbn [negb]; [apply IH|].
    destruct (svc_set (service l) k v
                (Some (spread (options l) (Some mo))) (world s))
      as [r w'] eqn:E.
    rewrite (in_turn_cons _ _ _ _ _ _
               (set_on_answer k v (merged_under mo) l _ _ _ E)).
    cbn [fst snd]. unfold merged_under at 1 3.
    assert (Hgo : forall b m',
      calls (set_loop k v mo ls b
               (mkState m' w'
                  (calls s
                   ++ [CallSet (name l) k v
                         (Some (spread (options l) (Some mo))) r]))).2
      = calls s
        ++ CallSet (name l) k v (Some (spread (options l) (Some mo))) r
           :: (in_turn (set_on k v (merged_under mo))
                 (List.filter writable ls) w').1
      /\ world (set_loop k v mo ls b
                  (mkState m' w'
                     (calls s
                      ++ [CallSet (name l) k v
                            (Some (spread (options l) (Some mo))) r]))).2
         = (in_turn (set_on k v (merged_under mo))
              (List.filter writable ls) w').2).
    { intros b m'.
      match goal with |- context [set_loop k v mo ls b ?s1] =>
        destruct (IH b s1) as [Hc Hw] end.
      cbn [world calls] in *. rewrite Hc, Hw, <- app_assoc. auto. }
    destruct r as [[|]|msg]; apply Hgo.
Qed.

Lemma get_loop_miss_prefix k pre rest w w1 tr :
  Forall (fun l => enabled l = true) pre ->
  all_miss k pre w = Some w1 ->
  get_loop k (pre ++ rest) w tr
  = get_loop k rest w1 (tr ++ map (missed k) pre).
Proof.
  revert w tr. induction pre as [|l pre IH]; intros w tr Hen Hmiss.
  - simpl in *. injection Hmiss as ->. rewrite app_nil_r. reflexivity.
  - inversion Hen as [|? ? Hl Hpre]; subst. simpl in *. rewrite Hl. simpl.
    destruct (svc_get (service l) k w) as [[[v|]|msg] w'];
      try discriminate.
    rewrite (IH w' _ Hpre Hmiss), <- app_assoc. reflexivity.
Qed.

Lemma getSortedLayers_enabled m :
  Forall (fun l => enabled l = true) (getSortedLayers m).
Proof.
  apply List.Forall_forall. intros l Hl.
  apply getSortedLayers_In in Hl. tauto.
Qed.

(** [get] when the layers before [L] miss and [L] answers. *)
Lemma get_loop_hit k m pre L post w w1 w2 v tr :
  getSortedLayers m = pre ++ L :: post ->
  all_miss k pre w = Some w1 ->
  svc_get (service L) k w1 = (Returned (Some v), w2) ->
  get_loop k (getSortedLayers m) w tr
  = (Found L v, w2,
     tr ++ map (missed k) pre ++ [CallGet (name L) k (Returned (Some v))]).
Proof.
  intros Hsorted Hmiss Hhit.
  pose proof (getSortedLayers_enabled m) as Hen. rewrite Hsorted in *.
  apply Forall_app in Hen as [Hpre HL].
  inversion HL as [|? ? HLen _]; subst.
  rewrite (get_loop_miss_prefix _ _ _ _ _ _ Hpre Hmiss).
  simpl. rewrite HLen, Hhit. simpl. rewrite <- app_assoc. reflexivity.
Qed.

(** [get] when the layers before [L] miss and [L] throws. *)
Lemma get_loop_throw k m pre L post w w1 w2 msg tr :
  getSortedLayers m = pre ++ L :: post ->
  all_miss k pre w = Some w1 ->
  svc_get (service L) k w1 = (Thrown msg, w2) ->
  get_loop k (getSortedLayers m) w tr
  = (Failed msg, w2,
     tr ++ map (missed k) pre ++ [CallGet (name L) k (Thrown msg)]).
Proof.
  intros Hsorted Hmiss Hhit.
  pose proof (getSortedLayers_enabled m) as Hen. rewrite Hsorted in *.
  apply Forall_app in Hen as [Hpre HL].
  inversion HL as [|? ? HLen _]; subst.
  rewrite (get_loop_miss_prefix _ _ _ _ _ _ Hpre Hmiss).
  simpl. rewrite HLen, Hhit. simpl. rewrite <- app_assoc. reflexivity.
Qed.
Lemma emitEvent_emitted ty lay m :
  emitted (emitEvent ty lay m)
  = emitted m ++ when_enabled m [mkEvent ty lay]
  /\ enableEvents (emitEvent ty lay m) = enableEvents m.
Proof.
  unfold emitEvent, when_enabled. destruct (enableEvents m) eqn:E; simpl.
  - auto.
  - rewrite app_nil_r. auto.
Qed.

Lemma when_enabled_app m m' (a b : list CacheEvent) :
  enableEvents m' = enableEvents m ->
  when_enabled m a ++ when_enabled m' b = when_enabled m (a ++ b).
Proof.
  unfold when_enabled. intros ->. now destruct (enableEvents m).
Qed.

Lemma promoted_by_set t k v o r (cs : list (Call V)) :
  promoted_by (CallSet t k v o r :: cs)
  = match r with
    | Returned _ => [mkEvent "cache_promoted" (Some t)]
    | Thrown _ => []
    end ++ promoted_by cs.
Proof. reflexivity. Qed.

Lemma promote_loop_events k v ls p s :
  emitted (mgr (promote_loop k v ls p s))
  = emitted (mgr s)
    ++ when_enabled (mgr s)
         (promoted_by (in_turn (set_on k v no_options_for) ls (world s)).1)
  /\ enableEvents (mgr (promote_loop k v ls p s)) = enableEvents (mgr s).
Proof.
  revert s. induction ls as [|l ls IH]; intros s.
  - simpl. unfold when_enabled. destruct (enableEvents (mgr s));
      rewrite app_nil_r; auto.
  - cbn [promote_loop].
    destruct (svc_set (service l) k v None (world s)) as [r w'] eqn:E.
    rewrite (in_turn_cons _ _ _ _ _ _
               (set_on_answer k v no_options_for l _ _ _ E)).
    match goal with |- context [promote_loop k v ls p ?s1] =>
      destruct (IH s1) as [He Hen] end.
    cbn [fst snd mgr world calls] in *. rewrite He, Hen.
    rewrite promoted_by_set.
    destruct r as [b|msg].
    + destruct (emitEvent_emitted "cache_promoted" (Some (name l)) (mgr s))
        as [H1 H2].
      rewrite H1, H2, <- app_assoc. split; [|reflexivity]. f_equal.
      rewrite when_enabled_app by exact H2. reflexivity.
    + auto.
Qed.

Lemma delete_on_answer k l w r w' :
  svc_delete (service l) k w = (r, w') ->
  delete_on k l w = (CallDelete (name l) k r, w').
Proof. intros E. unfold delete_on. now rewrite E. Qed.

Lemma clear_on_answer ns l w r w' :
  svc_clear (service l) ns w = (r, w') ->
  clear_on ns l w = (CallClear (name l) ns r, w').
Proof. intros E. unfold clear_on. now rewrite E. Qed.

Lemma delete_loop_turn k ls success s :
  calls (delete_loop k ls success s).2
  = calls s ++ (in_turn (delete_on k) (List.filter writable ls) (world s)).1
  /\ world (delete_loop k ls success s).2
     = (in_turn (delete_on k) (List.filter writable ls) (world s)).2.
Proof.
  revert success s. induction ls as [|l ls IH]; intros success s.
  - simpl. rewrite app_nil_r. auto.
  - cbn [delete_loop List.filter]. rewrite writable_test.
    destruct (negb (enabled l) || readOnly l); cbn [negb]; [apply IH|].
    destruct (svc_delete (service l) k (world s)) as [r w'] eqn:E.
    rewrite (in_turn_cons _ _ _ _ _ _ (delete_on_answer k l _ _ _ E)).
    cbn [fst snd].
    assert (Hgo : forall b m',
      calls (delete_loop k ls b
               (mkState m' w' (calls s ++ [CallDelete (name l) k r]))).2
      = calls s
        ++ CallDelete (name l) k r
           :: (in_turn (delete_on k) (List.filter writable ls) w').1
      /\ world (delete_loop k ls b
                  (mkState m' w' (calls s ++ [CallDelete (name l) k r]))).2
         = (in_turn (delete_on k) (List.filter writable ls) w').2).
    { intros b m'.
      match goal with |- context [delete_loop k ls b ?s1] =>
        destruct (IH b s1) as [Hc Hw] end.
      cbn [world calls] in *. rewrite Hc, Hw, <- app_assoc. auto. }
    destruct r as [[|]|msg]; apply Hgo.
Qed.

Lemma clear_loop_turn ns ls success s :
  calls (clear_loop ns ls success s).2
  = calls s ++ (in_turn (clear_on ns) (List.filter writable ls) (world s)).1
  /\ world (clear_loop ns ls success s).2
     = (in_turn (clear_on ns) (List.filter writable ls) (world s)).2.
Proof.
  revert success s. induction ls as [|l ls IH]; intros success s.
  - simpl. rewrite app_nil_r. auto.
  - cbn [clear_loop List.filter]. rewrite writable_test.
    destruct (negb (enabled l) || readOnly l); cbn [negb]; [apply IH|].
    destruct (svc_clear (service l) ns (world s)) as [r w'] eqn:E.
    rewrite (in_turn_cons _ _ _ _ _ _ (clear_on_answer ns l _ _ _ E)).
    cbn [fst snd].
    assert (Hgo : forall b m',
      calls (clear_loop ns ls b
               (mkState m' w' (calls s ++ [CallClear (name l) ns r]))).2
      = calls s
        ++ CallClear (name l) ns r
           :: (in_turn (clear_on ns) (List.filter writable ls) w').1
      /\ world (clear_loop ns ls b
                  (mkState m' w' (calls s ++ [CallClear (name l) ns r]))).2
         = (in_turn (clear_on ns) (List.filter writable ls) w').2).
    { intros b m'.
      match goal with |- context [clear_loop ns ls b ?s1] =>
        destruct (IH b s1) as [Hc Hw] end.
      cbn [world calls] in *. rewrite Hc, Hw, <- app_assoc. auto. }
    destruct r as [[|]|msg]; apply Hgo.
Qed.

(** A promotion, in the two parts [get] cuts it into, makes the
    calls of its loop. *)
Lemma promotion_turn k v p s (m' : Manager V W) :
  let started := promotion_starts k v p s in
  let finished :=
    match started.2 with
    | Some pending =>
        promotion_resumes pending
          (mkState m' (world started.1) (calls started.1))
    | None => mkState m' (world started.1) (calls started.1)
    end in
  let writes :=
    in_turn (set_on k v no_options_for) (higherLayers (mgr s) p) (world s) in
  calls finished = calls s ++ writes.1
  /\ world finished = writes.2
  /\ calls started.1 = calls s ++ firstn 1 writes.1
  /\ mgr started.1 = mgr s
  /\ emitted (mgr finished)
     = emitted m' ++ when_enabled m' (promoted_by writes.1)
  /\ world started.1
     = (in_turn (set_on k v no_options_for)
          (firstn 1 (higherLayers (mgr s) p)) (world s)).2.
Proof.
  cbv zeta. unfold promotion_starts.
  destruct (higherLayers (mgr s) p) as [|l ls].
  - simpl. unfold when_enabled. destruct (enableEvents m');
      rewrite !app_nil_r; auto 10.
  - destruct (svc_set (service l) k v None (world s)) as [r w'] eqn:E.
    cbn [firstn].
    rewrite !(in_turn_cons _ _ _ _ _ _
                (set_on_answer k v no_options_for l _ _ _ E)).
    cbn [fst snd firstn world calls mgr in_turn]. unfold promotion_resumes.
    cbn [answer awaited remaining promoted_key promoted_value fromPriority
         world calls mgr].
    match goal with |- context [promote_loop k v ls p ?s1] =>
      destruct (promote_loop_turn k v ls p s1) as [Hc Hw];
      destruct (promote_loop_events k v ls p s1) as [He _] end.
    cbn [world calls mgr] in *. rewrite Hc, Hw, He, <- app_assoc.
    repeat (split; [reflexivity|]).
    split; [|reflexivity].
    rewrite promoted_by_set.
    destruct r as [b|msg].
    + destruct (emitEvent_emitted "cache_promoted" (Some (name l)) m')
        as [H1 H2].
      rewrite H1, <- app_assoc. f_equal.
      rewrite when_enabled_app by exact H2. reflexivity.
    + reflexivity.
Qed.

(** The two parts of a promotion, run one after the other, are the
    loop of [promoteToHigherLayer] over the layers above. *)
Lemma promoteToHigherLayer_loop k v p s :
  promoteToHigherLayer k v p s
  = promote_loop k v (higherLayers (mgr s) p) p s.
Proof.
  unfold promoteToHigherLayer, promotion_starts, promotion_resumes.
  destruct (higherLayers (mgr s) p) as [|l ls]; [reflexivity|].
  cbn [promote_loop].
  destruct (svc_set (service l) k v None (world s)) as [r w'].
  destruct s as [m w tr]. reflexivity.
Qed.

(** [get] when its loop ends on a hit. *)
Lemma get_found k s L v w tr :
  get_loop k (getSortedLayers (mgr s)) (world s) (calls s)
  = (Found L v, w, tr) ->
  let writes :=
    in_turn (set_on k v no_options_for)
      (if (priority L >? 1)%Z then higherLayers (mgr s) (priority L)
       else []) w in
  let hit := mkEvent "cache_hit" (Some (name L)) in
  (get k s).1 = Returned (Some v)
  /\ calls (get k s).2 = tr ++ writes.1
  /\ world (get k s).2 = writes.2
  /\ emitted (mgr (get k s).2)
     = emitted (mgr s) ++ when_enabled (mgr s) (hit :: promoted_by writes.1)
  /\ (get_until_return k s).1.1 = Returned (Some v)
  /\ calls (get_until_return k s).1.2 = tr ++ firstn 1 writes.1
  /\ emitted (mgr (get_until_return k s).1.2)
     = emitted (mgr s) ++ when_enabled (mgr s) [hit]
  /\ world (get_until_return k s).1.2
     = (in_turn (set_on k v no_options_for)
          (firstn 1
             (if (priority L >? 1)%Z then higherLayers (mgr s) (priority L)
              else [])) w).2.
Proof.
  intros Hloop. cbv zeta. unfold get, get_until_return.
  change (getSortedLayers (incr_requestCount (mgr s)))
    with (getSortedLayers (mgr s)).
  rewrite Hloop.
  set (m0 := updateStats (incr_hitCount (incr_requestCount (mgr s)))).
  destruct (emitEvent_emitted "cache_hit" (Some (name L)) m0) as [H1 H2].
  change (emitted m0) with (emitted (mgr s)) in H1.
  change (when_enabled m0) with (when_enabled (mgr s)) in H1.
  destruct (priority L >? 1)%Z.
  - set (s1 := mkState m0 w tr).
    pose proof (promotion_turn k v (priority L) s1
                  (emitEvent "cache_hit" (Some (name L))
                     (mgr (promotion_starts k v (priority L) s1).1)))
      as (Hc & Hw & Hs & Hm & He & Hws).
    cbv zeta in Hc, Hw, He.
    change (higherLayers (mgr s1) (priority L))
      with (higherLayers (mgr s) (priority L)) in *.
    rewrite Hm in *. change (mgr s1) with m0 in *.
    rewrite H1, <- app_assoc in He.
    rewrite (when_enabled_app (mgr s) _ _ _ H2) in He.
    change (world s1) with w in *. change (calls s1) with tr in *.
    destruct (promotion_starts k v (priority L) s1) as [s2 [pending|]];
      cbn [fst snd world calls mgr app] in *; repeat split; congruence.
  - cbn [fst snd in_turn firstn world calls mgr promoted_by flat_map].
    rewrite app_nil_r. auto 10.
Qed.

(** [get] with its promotion run to the end, as one loop. *)
Lemma get_at_once k s :
  get k s
  = match get_loop k (getSortedLayers (mgr s)) (world s) (calls s) with
    | (Found l v, w, tr) =>
        let s1 :=
          mkState
            (emitEvent "cache_hit" (Some (name l))
               (updateStats (incr_hitCount (incr_requestCount (mgr s)))))
            w tr in
        (Returned (Some v),
         if (priority l >? 1)%Z
         then promote_loop k v (higherLayers (mgr s) (priority l))
                (priority l) s1
         else s1)
    | (NotFound, w, tr) =>
        (Returned None,
         mkState (emitEvent "cache_miss" None
                    (updateStats (incr_requestCount (mgr s)))) w tr)
    | (Failed e, w, tr) =>
        (Returned None,
         mkState (emitEvent "cache_error" None (incr_requestCount (mgr s)))
           w tr)
    end.
Proof.
  unfold get, get_until_return.
  change (getSortedLayers (incr_requestCount (mgr s)))
    with (getSortedLayers (mgr s)).
  destruct (get_loop k (getSortedLayers (mgr s)) (world s) (calls s))
    as [[[L v| |msg] w] tr]; try reflexivity.
  cbv zeta. destruct (priority L >? 1)%Z; [|reflexivity].
  unfold promotion_starts. cbn [mgr world calls].
  change (higherLayers
            (updateStats (incr_hitCount (incr_requestCount (mgr s))))
            (priority L))
    with (higherLayers (mgr s) (priority L)).
  destruct (higherLayers (mgr s) (priority L)) as [|l ls]; [reflexivity|].
  cbn [promote_loop world calls mgr].
  destruct (svc_set (service l) k v None w) as [r w']. reflexivity.
Qed.

End Proofs.
End ManagerLemmas.

(** ** The tiered manager: [get] and [set] *)

Section ManagerProperties.
Import CacheManagerService ManagerSpec ManagerLemmas.
Context {V W : Type}.
Implicit Types (l L : CacheLayerConfig V W).
Implicit Types (m : Manager V W) (s : State V W).

(** C1, as amended.  When [get] finds the key in layer [L] -- the
    enabled layers before [L] in priority order all answer [null] --
    it returns the value, whatever the promotion writes do.  If the
    priority number of [L] is greater than 1, it issues one [set] of
    the key and value, without options, to every enabled, non-read-only
    layer whose priority number is strictly lower, in priority order,
    and no other write.  If the priority number of [L] is 1 or less, it
    issues no write at all.

    The writes are the calls of [set] on the stores themselves, made in
    turn from the stores as the reads left them: each entry of [sets]
    carries what the store answered, and the stores end as the last of
    these writes leaves them.  The promotion is not awaited:
    when [get] returns, the first of the writes has been issued -- the
    stores are as it left them -- and [cache_hit] is the one event
    emitted; the other writes, and one [cache_promoted] for each write
    that resolved, come afterwards. *)
Theorem get_promotes_above_priority_1
  (k : CacheKey) m (w w1 w2 : W) (tr : list (Call V))
  (pre post : list (CacheLayerConfig V W)) L (v : V) :
  getSortedLayers m = pre ++ L :: post ->
  all_miss k pre w = Some w1 ->
  svc_get (service L) k w1 = (Returned (Some v), w2) ->
  let writes :=
    in_turn (set_on k v no_options_for)
      (if (priority L >? 1)%Z then higherLayers m (priority L) else [])
      w2 in
  let hit := mkEvent "cache_hit" (Some (name L)) in
  (get k (mkState m w tr)).1 = Returned (Some v)
  /\ exists sets,
      calls (get k (mkState m w tr)).2
      = tr ++ map (missed k) pre
           ++ [CallGet (name L) k (Returned (Some v))] ++ sets
      /\ map set_request sets
         = (if (priority L >? 1)%Z
            then map (promotion_for k v) (higherLayers m (priority L))
            else [])
      /\ ((1 < priority L)%Z ->
          forall l, In l (layers m) -> enabled l = true ->
                    readOnly l = false -> (priority l < priority L)%Z ->
                    exists r, In (CallSet (name l) k v None r) sets)
      /\ ((priority L <= 1)%Z -> sets = [])
      /\ sets = writes.1
      /\ world (get k (mkState m w tr)).2 = writes.2
      /\ emitted (mgr (get k (mkState m w tr)).2)
         = emitted m ++ when_enabled m (hit :: promoted_by sets)
      /\ (get_until_return k (mkState m w tr)).1.1 = Returned (Some v)
      /\ calls (get_until_return k (mkState m w tr)).1.2
         = tr ++ map (missed k) pre
              ++ [CallGet (name L) k (Returned (Some v))] ++ firstn 1 sets
      /\ emitted (mgr (get_until_return k (mkState m w tr)).1.2)
         = emitted m ++ when_enabled m [hit]
      /\ world (get_until_return k (mkState m w tr)).1.2
         = (in_turn (set_on k v no_options_for)
              (firstn 1
                 (if (priority L >? 1)%Z then higherLayers m (priority L)
                  else [])) w2).2.
Proof.
  intros Hsorted Hmiss Hhit writes hit.
  pose proof (get_loop_hit k m pre L post w w1 w2 v tr Hsorted Hmiss Hhit)
    as Hloop.
  destruct (get_found k (mkState m w tr) L v w2 _ Hloop)
    as (Hres & Hcalls & Hworld & Hev & Hres' & Hcalls' & Hev' & Hworld').
  cbn [mgr world calls] in *. fold writes in Hcalls, Hworld, Hev, Hcalls'.
  fold hit in Hev, Hev'.
  split; [exact Hres|]. exists writes.1.
  assert (Hreq : map set_request writes.1
                 = (if (priority L >? 1)%Z
                    then map (promotion_for k v) (higherLayers m (priority L))
                    else [])).
  { unfold writes.
    rewrite (in_turn_requests _ set_request (promotion_for k v))
      by reflexivity.
    now destruct (priority L >? 1)%Z. }
  split; [rewrite Hcalls, <- !app_assoc; reflexivity|].
  split; [exact Hreq|].
  split; [|split].
  - intros Hlt l Hin Hen Hro Hp.
    assert (Hl : In l (higherLayers m (priority L)))
      by (apply higherLayers_In; auto).
    apply (in_map (promotion_for k v)) in Hl.
    assert (Hgt : (priority L >? 1)%Z = true)
      by (rewrite Z.gtb_ltb; apply Z.ltb_lt; exact Hlt).
    rewrite Hgt in Hreq. rewrite <- Hreq in Hl.
    apply in_map_iff in Hl as (c & Hc & Hc').
    apply set_request_Some in Hc as (_ & _ & r & ->).
    exists r. exact Hc'.
  - intros Hle. unfold writes.
    assert (Hgt : (priority L >? 1)%Z = false)
      by (rewrite Z.gtb_ltb; apply Z.ltb_ge; exact Hle).
    rewrite Hgt. reflexivity.
  - split; [reflexivity|]. split; [exact Hworld|]. split; [exact Hev|].
    split; [exact Hres'|].
    split; [rewrite Hcalls', <- !app_assoc; reflexivity|].
    split; [exact Hev' | exact Hworld'].
Qed.

(** After the reads that answered [null] and the read on [L] that
    threw or found the key, [get] is what its loop left. *)
Lemma get_when_nothing_found k s w tr (sc : scan V W) :
  get_loop k (getSortedLayers (mgr s)) (world s) (calls s) = (sc, w, tr) ->
  (forall L v, sc <> Found L v) ->
  (get k s).1 = Returned None /\ calls (get k s).2 = tr
  /\ world (get k s).2 = w.
Proof.
  intros Hloop Hsc. unfold get, get_until_return.
  change (getSortedLayers (incr_requestCount (mgr s)))
    with (getSortedLayers (mgr s)).
  rewrite Hloop. destruct sc as [L v| |msg]; [now destruct (Hsc L v)| |];
    cbn; auto.
Qed.

(** [get] never throws: whatever the layers do, it resolves with a
    value or with [null]. *)
Lemma get_never_throws (k : CacheKey) s :
  exists o, (get k s).1 = Returned o.
Proof.
  destruct (get_loop k (getSortedLayers (mgr s)) (world s) (calls s))
    as [[sc w] tr] eqn:Hloop.
  destruct sc as [L v| |msg].
  - exists (Some v). exact (proj1 (get_found k s L v w tr Hloop)).
  - exists None.
    now apply (get_when_nothing_found k s w tr (NotFound)).
  - exists None.
    now apply (get_when_nothing_found k s w tr (Failed msg)).
Qed.

(** When the layers before [L] miss and the read on [L] throws, [get]
    resolves with [null] and stops there: the layers after [L] get no
    call. *)
Lemma get_stops_where_a_layer_throws
  (k : CacheKey) m (w w1 w2 : W) (tr : list (Call V))
  (pre post : list (CacheLayerConfig V W)) L (msg : string) :
  getSortedLayers m = pre ++ L :: post ->
  all_miss k pre w = Some w1 ->
  svc_get (service L) k w1 = (Thrown msg, w2) ->
  (get k (mkState m w tr)).1 = Returned None
  /\ calls (get k (mkState m w tr)).2
     = tr ++ map (missed k) pre ++ [CallGet (name L) k (Thrown msg)].
Proof.
  intros Hsorted Hmiss Hthrow.
  pose proof (get_loop_throw k m pre L post w w1 w2 msg tr
                Hsorted Hmiss Hthrow) as Hloop.
  destruct (get_when_nothing_found k (mkState m w tr) _ _ _ Hloop)
    as (Hres & Hcalls & _); [discriminate|].
  split; [exact Hres | exact Hcalls].
Qed.

(** C4.  [set] issues one write to every enabled, non-read-only layer,
    in priority order, each with the layer's options merged under the
    call's, and no other call: a layer that is disabled or read-only
    gets none, and how a write ends (accepted, refused, thrown) does
    not change which writes follow.  It returns [true] exactly when
    one of these writes resolved with [true], and it never throws.

    The writes are the calls of [set] on the stores themselves, made
    in turn from the stores as they are when [set] is called: each
    entry of [new] carries what the store answered, and the stores end
    as the last of these writes leaves them. *)
Theorem set_fans_out_to_writable_layers
  (k : CacheKey) (v : V) (opts : option CacheOptions) s :
  let writes :=
    in_turn
      (set_on k v (merged_under (spread (defaultOptions (mgr s)) opts)))
      (List.filter writable (getSortedLayers (mgr s))) (world s) in
  exists new,
    calls (set k v opts s).2 = calls s ++ new
    /\ map set_request new
       = map (set_request_for k v (spread (defaultOptions (mgr s)) opts))
           (List.filter writable (getSortedLayers (mgr s)))
    /\ (forall l, In l (layers (mgr s)) -> writable l = true ->
                  exists c, In c new /\ is_set c = true
                            /\ call_target c = name l)
    /\ (forall c, In c new ->
                  is_set c = true
                  /\ exists l, In l (layers (mgr s)) /\ writable l = true
                               /\ call_target c = name l)
    /\ ((set k v opts s).1 = Returned true
        <-> exists c, In c new /\ set_accepted c = true)
    /\ (exists b, (set k v opts s).1 = Returned b)
    /\ new = writes.1
    /\ world (set k v opts s).2 = writes.2.
Proof.
  intros writes. unfold set.
  set (mo := spread (defaultOptions (mgr s)) opts) in *.
  destruct (set_loop_spec k v mo (getSortedLayers (mgr s)) false s)
    as (new & Hc & Hr & Hs).
  destruct (set_loop_turn k v mo (getSortedLayers (mgr s)) false s)
    as (Hc' & Hw'). fold writes in Hc', Hw'.
  destruct (set_loop k v mo (getSortedLayers (mgr s)) false s)
    as [success s'] eqn:Hloop.
  cbn [fst snd calls world] in *. exists new.
  split; [exact Hc|]. split; [exact Hr|]. split; [|split; [|split; [|split]]].
  - intros l Hin Hw.
    assert (Hl : In l (List.filter writable (getSortedLayers (mgr s)))).
    { apply filter_In. split; [|exact Hw]. apply getSortedLayers_In.
      split; [exact Hin|]. unfold writable in Hw.
      apply andb_prop in Hw. tauto. }
    apply (in_map (set_request_for k v mo)) in Hl. rewrite <- Hr in Hl.
    apply in_map_iff in Hl as (c & Hreq & Hc'').
    apply set_request_Some in Hreq as (Hset & Ht & _). eauto.
  - intros c Hin. apply (in_map set_request) in Hin. rewrite Hr in Hin.
    apply in_map_iff in Hin as (l & Hreq & Hl).
    symmetry in Hreq. apply set_request_Some in Hreq as (Hset & Ht & _).
    apply filter_In in Hl as [Hl Hw]. apply getSortedLayers_In in Hl.
    split; [exact Hset|]. exists l. tauto.
  - rewrite Hs. simpl. split.
    + intros [= Hex]. apply existsb_exists in Hex. exact Hex.
    + intros Hex. apply existsb_exists in Hex. rewrite Hex. reflexivity.
  - eauto.
  - split; [|exact Hw']. rewrite Hc in Hc'.
    now apply app_inv_head in Hc'.
Qed.

End ManagerProperties.

Section ManagerExamples.
Import CacheManagerService ManagerSpec ManagerLemmas Fixtures Fixtures.Mgr.

(** The amended C1 on the tiers 1 and 2 of the specification's
    promotion scenario: the key is in tier 2 only. *)
Lemma get_promotes_above_priority_1_witness :
  let k := plain_key "k" in
  let w := [("s2", "k", 7)] in
  getSortedLayers tiers_1_2 = [layer1] ++ layer2 :: []
  /\ all_miss k [layer1] w = Some w
  /\ svc_get (service layer2) k w = (Returned (Some 7), w)
  /\ (get k (mkState tiers_1_2 w [])).1 = Returned (Some 7)
  /\ exists sets,
       calls (get k (mkState tiers_1_2 w [])).2
       = [missed k layer1; CallGet "layer2" k (Returned (Some 7))] ++ sets
       /\ map set_request sets = [promotion_for k 7 layer1]
       /\ sets = [CallSet "layer1" k 7 None (Returned true)]
       /\ world (get k (mkState tiers_1_2 w [])).2
          = [("s1", "k", 7); ("s2", "k", 7)].
Proof.
  intros k w.
  assert (H1 : getSortedLayers tiers_1_2 = [layer1] ++ layer2 :: [])
    by reflexivity.
  assert (H2 : all_miss k [layer1] w = Some w) by reflexivity.
  assert (H3 : svc_get (service layer2) k w = (Returned (Some 7), w))
    by reflexivity.
  split; [exact H1|]. split; [exact H2|]. split; [exact H3|].
  destruct (get_promotes_above_priority_1 k tiers_1_2 w w w []
              [layer1] [] layer2 7 H1 H2 H3)
    as (Hres & sets & Hcalls & Hsets & _ & _ & Hturn & Hworld & _).
  split; [exact Hres|]. exists sets. split; [exact Hcalls|].
  split; [exact Hsets|]. split; [exact Hturn | exact Hworld].
Defined.

(** The promotion is started and not awaited.  On three tiers with
    the key in the third: when [get] returns, the write to the first
    tier has been issued and [cache_hit] has been emitted; the write
    to the second tier and the two [cache_promoted] events come
    after. *)
Example promotion_goes_on_after_get_returned :
  let k := plain_key "k" in
  let s := mkState tiers_1_2_3 [("s3", "k", 7)] [] in
  let returned := get_until_return k s in
  returned.1.1 = Returned (Some 7)
  /\ skipn 2 (calls returned.1.2)
     = [CallGet "layer3" k (Returned (Some 7));
        CallSet "layer1" k 7 None (Returned true)]
  /\ world returned.1.2 = [("s1", "k", 7); ("s3", "k", 7)]
  /\ skipn 3 (emitted (mgr returned.1.2))
     = [mkEvent "cache_hit" (Some "layer3")]
  /\ skipn 2 (calls (get k s).2)
     = [CallGet "layer3" k (Returned (Some 7));
        CallSet "layer1" k 7 None (Returned true);
        CallSet "layer2" k 7 None (Returned true)]
  /\ world (get k s).2 = [("s2", "k", 7); ("s1", "k", 7); ("s3", "k", 7)]
  /\ skipn 3 (emitted (mgr (get k s).2))
     = [mkEvent "cache_hit" (Some "layer3");
        mkEvent "cache_promoted" (Some "layer1");
        mkEvent "cache_promoted" (Some "layer2")].
Proof. vm_compute. repeat split. Qed.

(** The promotion scenario of the specification, run: the value comes
    back and tier 1 then holds the key. *)
Example promotion_fills_layer1 :
  let k := plain_key "k" in
  let res := get k (mkState tiers_1_2 [("s2", "k", 7)] []) in
  res.1 = Returned (Some 7)
  /\ world res.2 = [("s1", "k", 7); ("s2", "k", 7)]
  /\ calls res.2
     = [CallGet "layer1" k (Returned None);
        CallGet "layer2" k (Returned (Some 7));
        CallSet "layer1" k 7 None (Returned true)].
Proof. vm_compute. auto. Qed.

(** C1 as stated fails on tiers 0 and 1: the key is found in the layer
    of priority 1, the enabled and writable layer of priority 0 is
    asked once, misses, and is never written to. *)
Lemma hit_at_priority_1_is_not_promoted :
  let k := plain_key "k" in
  let res := get k (mkState tiers_0_1 [("s1", "k", 7)] []) in
  res.1 = Returned (Some 7)
  /\ calls res.2
     = [CallGet "layer0" k (Returned None);
        CallGet "layer1" k (Returned (Some 7))]
  /\ world res.2 = [("s1", "k", 7)]
  /\ map (fun l => (name l, priority l, enabled l, readOnly l))
       (layers tiers_0_1)
     = [("layer0", 0%Z, true, false); ("layer1", 1%Z, true, false)].
Proof. vm_compute. auto. Qed.

(** C2 on a failing first tier: the second tier holds the key, yet
    [get] answers [null] after the single call that threw; the second
    tier is not consulted. *)
Theorem get_gives_up_at_throwing_layer :
  let k := plain_key "k" in
  let w := [("s2", "k", 7)] in
  let res := get k (mkState broken_then_memory w []) in
  svc_get (memory_store "s2") k w = (Returned (Some 7), w)
  /\ res.1 = Returned None
  /\ calls res.2 = [CallGet "layer1" k (Thrown "Layer error")].
Proof. vm_compute. auto. Qed.

(** The same two tiers under [delete]: the first tier throws, the
    loop goes on and the second tier deletes the key. *)
Example delete_goes_on_after_throwing_layer :
  let k := plain_key "k" in
  let res := delete k (mkState broken_then_memory [("s2", "k", 7)] []) in
  res.1 = Returned true
  /\ world res.2 = []
  /\ calls res.2
     = [CallDelete "layer1" k (Thrown "Layer error");
        CallDelete "layer2" k (Returned true)].
Proof. vm_compute. auto. Qed.

(** The fan-out scenario of the specification: the read-only tier is
    not written, the normal tier is. *)
Example set_skips_readonly_layer :
  let k := plain_key "k" in
  let res := set k 7 None (mkState normal_and_readonly [] []) in
  res.1 = Returned true
  /\ world res.2 = [("s1", "k", 7)]
  /\ map call_target (calls res.2) = ["normal"].
Proof. vm_compute. auto. Qed.

End ManagerExamples.

(** ** The invalidation service *)

Section InvalidationProperties.
Import CacheInvalidationService InvalidationSpec.
Context {V W A : Type}.
Implicit Types (e : Engine V W) (s : State V W).
Implicit Types (md : list (string * A)).
Implicit Types (svc : ICacheService V W).

Lemma stats_emitEvent type e : stats (emitEvent type e) = stats e.
Proof. unfold emitEvent. destruct (enableEvents e); reflexivity. Qed.

Lemma dispatch_unsupported size svc st targets (w : W) (tr : list (Call V)) :
  supported st = false ->
  dispatch size svc st targets w tr = None.
Proof.
  unfold supported, InvalidationStrategy_values, dispatch. simpl.
  rewrite !orb_false_iff. intros (-> & -> & -> & -> & -> & -> & -> & -> & _).
  reflexivity.
Qed.

(** C5, as amended.  With a store bound, a strategy outside the eight
    supported ones does not make [invalidate] throw: the error is
    caught, counted as a failed invalidation, and handed back as a
    result with [success = false], the message [Unsupported
    invalidation strategy: <strategy>] and zero counts.  No store
    operation is issued. *)
Theorem invalidate_reports_unsupported_strategy
  (target : Target) (strategy : option string)
  (md : list (string * A)) s svc :
  cacheService (eng s) = Some svc ->
  supported (default (defaultStrategy (eng s)) strategy) = false ->
  exists r,
    (invalidate target strategy md s).1 = Returned r
    /\ success r = false
    /\ error r
       = Some (String.append "Unsupported invalidation strategy: "
                 (default (defaultStrategy (eng s)) strategy))
    /\ (invalidatedKeys r, invalidatedNamespaces r, invalidatedTags r)
       = (0, 0, 0)
    /\ calls (invalidate target strategy md s).2 = calls s
    /\ world (invalidate target strategy md s).2 = world s
    /\ counters (invalidate target strategy md s).2
       = (S (totalInvalidations (stats (eng s))),
          successfulInvalidations (stats (eng s)),
          S (failedInvalidations (stats (eng s)))).
Proof.
  intros Hsvc Hnot. unfold invalidate. rewrite Hsvc.
  rewrite (dispatch_unsupported _ _ _ _ _ _ Hnot).
  eexists. split; [reflexivity|]. unfold counters. simpl.
  rewrite stats_emitEvent. simpl. auto 10.
Qed.

(** C6, as amended.  With no store bound, [invalidate] does not throw:
    the error is caught, counted as a failed invalidation, and handed
    back as a result with [success = false] and the message [Cache
    service not set].  No store operation is issued. *)
Theorem invalidate_reports_missing_store
  (target : Target) (strategy : option string)
  (md : list (string * A)) s :
  cacheService (eng s) = None ->
  exists r,
    (invalidate target strategy md s).1 = Returned r
    /\ success r = false
    /\ error r = Some "Cache service not set"
    /\ (invalidatedKeys r, invalidatedNamespaces r, invalidatedTags r)
       = (0, 0, 0)
    /\ calls (invalidate target strategy md s).2 = calls s
    /\ world (invalidate target strategy md s).2 = world s
    /\ counters (invalidate target strategy md s).2
       = (S (totalInvalidations (stats (eng s))),
          successfulInvalidations (stats (eng s)),
          S (failedInvalidations (stats (eng s)))).
Proof.
  intros Hsvc. unfold invalidate. rewrite Hsvc.
  eexists. split; [reflexivity|]. unfold counters. simpl.
  rewrite stats_emitEvent. simpl. auto 10.
Qed.

(** C7.  With a store bound -- the store interface offers no way to
    list keys -- [invalidate] with strategy [wildcard] or [regex]
    (passed, or taken from the configuration when the argument is left
    out) issues no operation on the store and returns a result with
    [success = true] and [invalidatedKeys = 0]. *)
Theorem invalidate_by_pattern_is_a_successful_noop
  (target : Target) (strategy : option string)
  (md : list (string * A)) s svc :
  cacheService (eng s) = Some svc ->
  default (defaultStrategy (eng s)) strategy = WILDCARD
  \/ default (defaultStrategy (eng s)) strategy = REGEX ->
  exists r,
    (invalidate target strategy md s).1 = Returned r
    /\ success r = true
    /\ error r = None
    /\ invalidatedKeys r = 0
    /\ keys r = []
    /\ calls (invalidate target strategy md s).2 = calls s
    /\ world (invalidate target strategy md s).2 = world s.
Proof.
  intros Hsvc Hst. unfold invalidate. rewrite Hsvc.
  destruct Hst as [-> | ->]; simpl;
    eexists; (split; [reflexivity|]); simpl; auto 10.
Qed.

(** C8.  For a rule of the rule map with [enabled = false],
    [invalidateByRule] returns -- it does not throw -- a result with
    [success = false] and the error [Rule is disabled], and leaves the
    service, the store and the list of store operations as they were. *)
Theorem invalidateByRule_refuses_disabled_rule
  {C : Type} (ruleId : string) (context : C) s
  (rule : InvalidationRule) :
  rules (eng s) !! ruleId = Some rule ->
  enabled rule = false ->
  exists r,
    invalidateByRule ruleId context s = (Returned r, s)
    /\ success r = false
    /\ error r = Some "Rule is disabled"
    /\ calls (invalidateByRule ruleId context s).2 = calls s
    /\ world (invalidateByRule ruleId context s).2 = world s.
Proof.
  intros Hrule Hoff. unfold invalidateByRule, getRule.
  rewrite Hrule, Hoff. simpl. eexists. auto 10.
Qed.

Lemma invalidate_counted_as {B : Type} target strategy
  (md : list (string * B)) s :
  exists r,
    (invalidate target strategy md s).1 = Returned r
    /\ counted_as (success r) s (invalidate target strategy md s).2.
Proof.
  unfold counted_as, invalidate, caught, counters.
  destruct (cacheService (eng s)) as [svc|].
  - destruct (dispatch _ _ _ _ _ _) as [[[[[ks nss] tgs] w] tr]|];
      eexists; (split; [reflexivity|]); simpl; rewrite stats_emitEvent;
      reflexivity.
  - eexists; (split; [reflexivity|]); simpl; rewrite stats_emitEvent;
      reflexivity.
Qed.

Lemma counted_as_once (b : bool) s s' :
  counted_as b s s' -> counted_once s s'.
Proof. unfold counted_as, counted_once. destruct b; auto. Qed.

Lemma invalidate_counted_once {B : Type} target strategy
  (md : list (string * B)) s :
  counted_once s (invalidate target strategy md s).2.
Proof.
  destruct (invalidate_counted_as target strategy md s) as (r & _ & H).
  exact (counted_as_once _ _ _ H).
Qed.

(** The test of the dependency loop fails exactly when the
    dependencies are met. *)
Lemma dependency_test s (rule : InvalidationRule) :
  match dependencies rule with
  | Some deps => (0 <? length deps)%nat && dependency_unmet (eng s) deps
  | None => false
  end = false
  <-> dependencies_met s rule.
Proof.
  unfold dependencies_met, dependency_unmet, getRule.
  destruct (dependencies rule) as [deps|]; simpl;
    [|split; [intros _ d []|reflexivity]].
  assert (H : existsb
                (fun depId =>
                   match rules (eng s) !! depId with
                   | Some depRule => negb (enabled depRule)
                   | None => true
                   end) deps = false
              <-> forall depId, In depId deps ->
                    exists depRule,
                      rules (eng s) !! depId = Some depRule
                      /\ enabled depRule = true).
  { induction deps as [|d deps IH]; simpl.
    - split; [intros _ d []|reflexivity].
    - rewrite orb_false_iff, IH. split.
      + intros [Hd Hrest] d' [<- | Hin]; [|auto].
        destruct (rules (eng s) !! d) as [depRule|]; [|discriminate].
        exists depRule. split; [reflexivity|].
        now apply negb_false_iff in Hd.
      + intros Hall. split; [|intros d' Hin; apply Hall; auto].
        destruct (Hall d (or_introl eq_refl)) as (depRule & -> & Hon).
        now rewrite Hon. }
  destruct deps as [|d deps]; [simpl; split; [intros _ d []|reflexivity]|].
  exact H.
Qed.

(** What [invalidateByRule] does, by the rule it finds. *)
Lemma invalidateByRule_by_rule {C : Type} ruleId (context : C) s :
  (rules (eng s) !! ruleId = None ->
   invalidateByRule ruleId context s
   = (Thrown (String.append "Invalidation rule not found: " ruleId), s))
  /\ (forall rule,
        rules (eng s) !! ruleId = Some rule ->
        (enabled rule = false ->
         invalidateByRule ruleId context s
         = (Returned (refusal "Rule is disabled"), s))
        /\ (enabled rule = true -> ~ dependencies_met s rule ->
            invalidateByRule ruleId context s
            = (Returned (refusal "Dependency not satisfied"), s))
        /\ (enabled rule = true -> dependencies_met s rule ->
            invalidateByRule ruleId context s
            = invalidate (One (pattern rule)) (Some (strategy rule))
                [("ruleId", RuleText ruleId);
                 ("ruleName", RuleText (name rule));
                 ("context", RuleContext context)] s)).
Proof.
  unfold invalidateByRule, getRule. split.
  - intros ->. reflexivity.
  - intros rule ->. pose proof (dependency_test s rule) as Hdeps.
    destruct (enabled rule); simpl; rewrite ?andb_false_r;
      (split; [|split]); try discriminate; try reflexivity.
    + intros _ Hnot.
      destruct (match dependencies rule with Some _ => _ | None => _ end);
        [reflexivity|]. destruct Hnot. now apply Hdeps.
    + intros _ Hmet. apply Hdeps in Hmet. now rewrite Hmet.
Qed.

(** [invalidateByRule] either hands over to [invalidate] or leaves
    everything as it was: it throws for an unknown rule and returns a
    refusal for a disabled rule and for an unmet dependency. *)
Lemma invalidateByRule_cases {C : Type} ruleId (context : C) s :
  (invalidateByRule ruleId context s).2 = s
  \/ exists rule,
       rules (eng s) !! ruleId = Some rule /\ enabled rule = true
       /\ invalidateByRule ruleId context s
          = invalidate (One (pattern rule)) (Some (strategy rule))
              [("ruleId", RuleText ruleId);
               ("ruleName", RuleText (name rule));
               ("context", RuleContext context)] s.
Proof.
  unfold invalidateByRule, getRule.
  destruct (rules (eng s) !! ruleId) as [rule|] eqn:Hrule; [|auto].
  destruct (enabled rule) eqn:Hon; simpl; [|auto].
  rewrite andb_false_r.
  destruct (match dependencies rule with Some _ => _ | None => _ end);
    [auto|].
  right. exists rule. auto.
Qed.

Lemma counted_once_balanced s s' :
  balanced s -> counted_once s s' -> balanced s'.
Proof.
  unfold balanced, counted_once, counters.
  intros Hb [[= H1 H2 H3] | [= H1 H2 H3]]; lia.
Qed.

Lemma step_balanced s (op : Op V W) : balanced s -> balanced (step s op).
Proof.
  intros Hb. destruct op; simpl.
  - exact Hb.
  - unfold balanced, addRule in *. simpl.
    rewrite stats_emitEvent. exact Hb.
  - unfold balanced, removeRule in *.
    destruct (rules (eng s) !! ruleId); simpl; [|exact Hb].
    rewrite stats_emitEvent. exact Hb.
  - unfold balanced, updateRule in *.
    destruct (rules (eng s) !! ruleId); simpl; [|exact Hb].
    rewrite stats_emitEvent. exact Hb.
  - eapply counted_once_balanced; [exact Hb|].
    apply invalidate_counted_once.
  - destruct (invalidateByRule_cases ruleId context s)
      as [-> | (rule & _ & _ & ->)]; [exact Hb|].
    eapply counted_once_balanced; [exact Hb|].
    apply invalidate_counted_once.
  - reflexivity.
Qed.

(** C9, as amended.  From the constructor on, after every sequence of
    calls of the public methods, [totalInvalidations =
    successfulInvalidations + failedInvalidations].  Every call of
    [invalidate] adds exactly 1 to [totalInvalidations] and to exactly
    one of the other two counters: to [successfulInvalidations] when
    the result it returns has [success = true], to
    [failedInvalidations] otherwise.  A call of [invalidateByRule]
    does the same when it hands the rule over to [invalidate], and
    leaves the statistics untouched when it throws (unknown rule) or
    returns a refusal (disabled rule, unmet dependency).  Which of
    these it does is fixed by the rule map: without a rule of that id
    it throws; for a disabled rule it refuses; for an enabled rule
    with a dependency that is missing or disabled it refuses; for an
    enabled rule whose dependencies are met it is the call of
    [invalidate] on the rule's pattern and strategy, counted once. *)
Theorem statistics_stay_balanced :
  (forall (ops : list (Op V W)) (defaultStrategy : string)
          (batchSize : nat) (enableEvents : bool) (w : W),
      balanced
        (run ops
           (mkState (new_engine defaultStrategy batchSize enableEvents)
              w [])))
  /\ (forall target strategy md s,
        counted_once s (invalidate target strategy md s).2
        /\ exists r,
             (invalidate target strategy md s).1 = Returned r
             /\ counted_as (success r) s
                  (invalidate target strategy md s).2)
  /\ (forall (C : Type) ruleId (context : C) s,
        ((invalidateByRule ruleId context s).2 = s
         \/ (exists rule,
               rules (eng s) !! ruleId = Some rule /\ enabled rule = true)
            /\ counted_once s (invalidateByRule ruleId context s).2)
        /\ (rules (eng s) !! ruleId = None ->
            invalidateByRule ruleId context s
            = (Thrown
                 (String.append "Invalidation rule not found: " ruleId),
               s))
        /\ (forall rule,
              rules (eng s) !! ruleId = Some rule ->
              (enabled rule = false ->
               invalidateByRule ruleId context s
               = (Returned (refusal "Rule is disabled"), s))
              /\ (enabled rule = true -> ~ dependencies_met s rule ->
                  invalidateByRule ruleId context s
                  = (Returned (refusal "Dependency not satisfied"), s))
              /\ (enabled rule = true -> dependencies_met s rule ->
                  invalidateByRule ruleId context s
                  = invalidate (One (pattern rule)) (Some (strategy rule))
                      [("ruleId", RuleText ruleId);
                       ("ruleName", RuleText (name rule));
                       ("context", RuleContext context)] s
                  /\ counted_once s (invalidateByRule ruleId context s).2
                  /\ exists r,
                       (invalidateByRule ruleId context s).1 = Returned r
                       /\ counted_as (success r) s
                            (invalidateByRule ruleId context s).2))).
Proof.
  split; [|split].
  - intros ops ds bs ev w.
    set (s0 := mkState (new_engine ds bs ev) w []).
    assert (H0 : balanced s0) by reflexivity.
    revert H0. generalize s0. clear s0.
    induction ops as [|op ops IH]; intros s0 H0; [exact H0|].
    simpl. apply IH, step_balanced, H0.
  - intros target strategy md s.
    split; [apply invalidate_counted_once | apply invalidate_counted_as].
  - intros C ruleId context s. split; [|split].
    + destruct (invalidateByRule_cases ruleId context s)
        as [H | (rule & Hr & Hon & H)]; [left; exact H|].
      right. split; [eauto|]. rewrite H. apply invalidate_counted_once.
    + apply invalidateByRule_by_rule.
    + intros rule Hrule.
      destruct (invalidateByRule_by_rule ruleId context s) as [_ H].
      destruct (H rule Hrule) as (Hoff & Hunmet & Hmet).
      split; [exact Hoff|]. split; [exact Hunmet|].
      intros Hon Hdeps. rewrite (Hmet Hon Hdeps).
      split; [reflexivity|].
      split; [apply invalidate_counted_once | apply invalidate_counted_as].
Qed.

(** C10.  For a rule id that is not in the rule map, [removeRule]
    returns [false] and [updateRule] returns [false]; both leave the
    rule map, and the whole service, as it was. *)
Theorem absent_rule_is_neither_removed_nor_updated
  (ruleId : string) (updates : RuleUpdates) e :
  rules e !! ruleId = None ->
  removeRule ruleId e = (false, e)
  /\ updateRule ruleId updates e = (false, e)
  /\ rules (removeRule ruleId e).2 = rules e
  /\ rules (updateRule ruleId updates e).2 = rules e.
Proof.
  intros Habsent. unfold removeRule, updateRule. rewrite Habsent. auto.
Qed.

End InvalidationProperties.


Section InvalidationExamples.
Import CacheInvalidationService InvalidationSpec Fixtures Fixtures.Inv.

(** The amended C5 on the call of the service's own test. *)
Lemma invalidate_reports_unsupported_strategy_witness :
  let s := mkState bound two_keys [] in
  cacheService (eng s) = Some (memory_store "s1")
  /\ supported "unsupported" = false
  /\ exists r,
     (invalidate (Many ["key1"]) (Some "unsupported") no_metadata s).1
     = Returned r
     /\ success r = false
     /\ error r = Some "Unsupported invalidation strategy: unsupported".
Proof.
  intros s.
  assert (H1 : cacheService (eng s) = Some (memory_store "s1")) by reflexivity.
  assert (H2 : supported (default (defaultStrategy (eng s))
                          (Some "unsupported")) = false) by reflexivity.
  split; [exact H1|]. split; [exact H2|].
  destruct (invalidate_reports_unsupported_strategy
            (Many ["key1"]) (Some "unsupported") no_metadata s _ H1 H2)
  as (r & Hr & Hs & He & _).
  exists r. auto.
Defined.

(** C5 as stated fails on the call of the service's own test: the
    unsupported strategy comes back as a result, nothing is thrown. *)
Lemma unsupported_strategy_is_returned_not_thrown :
  (invalidate (Many ["key1"]) (Some "unsupported") no_metadata
   (mkState bound two_keys [])).1
  = Returned
    (mkResult 0 0 0 [] [] [] false
       (Some "Unsupported invalidation strategy: unsupported") (Some [])).
Proof. reflexivity. Qed.

(** The amended C6 on a service that was never given a store. *)
Lemma invalidate_reports_missing_store_witness :
  let s := mkState fresh two_keys [] in
  cacheService (eng s) = None
  /\ exists r,
     (invalidate (Many ["key1"]) (Some EXACT) no_metadata s).1 = Returned r
     /\ success r = false
     /\ error r = Some "Cache service not set"
     /\ calls (invalidate (Many ["key1"]) (Some EXACT) no_metadata s).2
        = [].
Proof.
  intros s.
  assert (H1 : cacheService (eng s) = None) by reflexivity.
  split; [exact H1|].
  destruct (invalidate_reports_missing_store
            (Many ["key1"]) (Some EXACT) no_metadata s H1)
  as (r & Hr & Hs & He & _ & Hc & _).
  exists r. auto.
Defined.

(** C6 as stated fails on a service that was never given a store: the
    missing store comes back as a result, nothing is thrown. *)
Lemma missing_store_is_returned_not_thrown :
  (invalidate (Many ["key1"]) (Some EXACT) no_metadata
   (mkState fresh two_keys [])).1
  = Returned
    (mkResult 0 0 0 [] [] [] false (Some "Cache service not set")
       (Some [])).
Proof. reflexivity. Qed.

(** C7 on a wildcard pattern. *)
Lemma invalidate_by_pattern_is_a_successful_noop_witness :
  let s := mkState bound two_keys [] in
  cacheService (eng s) = Some (memory_store "s1")
  /\ (WILDCARD = WILDCARD \/ WILDCARD = REGEX)
  /\ exists r,
     (invalidate (One "ns1:*") (Some WILDCARD) no_metadata s).1
     = Returned r
     /\ success r = true
     /\ invalidatedKeys r = 0
     /\ calls (invalidate (One "ns1:*") (Some WILDCARD) no_metadata s).2
        = []
     /\ world (invalidate (One "ns1:*") (Some WILDCARD) no_metadata s).2
        = two_keys.
Proof.
  intros s.
  assert (H1 : cacheService (eng s) = Some (memory_store "s1")) by reflexivity.
  assert (H2 : WILDCARD = WILDCARD \/ WILDCARD = REGEX)
  by (left; reflexivity).
  split; [exact H1|]. split; [exact H2|].
  destruct (invalidate_by_pattern_is_a_successful_noop
              (One "ns1:*") (Some WILDCARD) no_metadata s _ H1 H2)
  as (r & Hr & Hs & _ & Hk & _ & Hc & Hw).
  exists r. auto 10.
Defined.

(** C8 on a service whose only rule is disabled. *)
Lemma invalidateByRule_refuses_disabled_rule_witness :
  let s := mkState with_disabled_rule two_keys [] in
  rules (eng s) !! "r1" = Some disabled_rule
  /\ enabled disabled_rule = false
  /\ exists r,
     invalidateByRule "r1" no_context s = (Returned r, s)
     /\ success r = false
     /\ error r = Some "Rule is disabled".
Proof.
  intros s.
  assert (H1 : rules (eng s) !! "r1" = Some disabled_rule) by reflexivity.
  assert (H2 : enabled disabled_rule = false) by reflexivity.
  split; [exact H1|]. split; [exact H2|].
  destruct (invalidateByRule_refuses_disabled_rule "r1" no_context s _
              H1 H2)
  as (r & Hr & Hs & He & _).
  exists r. auto.
Defined.

(** C9 as stated fails on a disabled rule: the call completes with a
    result and none of the three counters moves. *)
Lemma refused_rule_is_not_counted :
  let s := mkState with_disabled_rule two_keys [] in
  (invalidateByRule "r1" no_context s).1
  = Returned (mkResult 0 0 0 [] [] [] false (Some "Rule is disabled") None)
  /\ counters s = (0, 0, 0)
  /\ counters (invalidateByRule "r1" no_context s).2 = (0, 0, 0).
Proof. vm_compute. auto. Qed.

(** The amended C9 on a rule that depends on another: refused and not
    counted while the other rule is disabled, handed over and counted
    once, as a success, when it is enabled. *)
Example dependent_rule_is_counted_when_handed_over :
  let s := mkState with_dependent_rule two_keys [] in
  let s' := mkState with_both_enabled two_keys [] in
  invalidateByRule "r2" no_context s
  = (Returned (refusal "Dependency not satisfied"), s)
  /\ counters s = (0, 0, 0)
  /\ counters (invalidateByRule "r2" no_context s').2 = (1, 1, 0)
  /\ world (invalidateByRule "r2" no_context s').2 = [("s1", "ns1:k1", 1)].
Proof. vm_compute. auto. Qed.

(** C10 on a service without rules. *)
Lemma absent_rule_is_neither_removed_nor_updated_witness :
  rules fresh !! "missing" = None
  /\ removeRule "missing" fresh = (false, fresh)
  /\ updateRule "missing"
     (mkRuleUpdates (Some "renamed") None None None None None None None)
     fresh
   = (false, fresh).
Proof.
  assert (H1 : rules fresh !! "missing" = None) by reflexivity.
  split; [exact H1|].
  destruct (absent_rule_is_neither_removed_nor_updated "missing"
            (mkRuleUpdates (Some "renamed") None None None None None
               None None) fresh H1) as (Hr & Hu & _).
  auto.
Defined.

(** The namespace scenario of the specification: the keys of [ns1] go,
    those of [ns2] stay, one namespace is reported. *)
Example invalidate_namespace_ns1 :
  let res := invalidate (Many ["ns1"]) (Some NAMESPACE) no_metadata
             (mkState bound two_keys []) in
  option_map invalidatedNamespaces
  (match res.1 with Returned r => Some r | Thrown _ => None end) = Some 1
  /\ world res.2 = [("s1", "ns2:k2", 2)]
  /\ counters res.2 = (1, 1, 0).
Proof. vm_compute. auto. Qed.

(** The same through the tiered manager: the clear is fanned out to
    both tiers. *)
Example invalidate_namespace_through_manager :
  let res := invalidate (Many ["ns1"]) (Some NAMESPACE) no_metadata
               (mkState on_manager two_tiers_filled []) in
  option_map namespaces
    (match res.1 with Returned r => Some r | Thrown _ => None end)
  = Some ["ns1"]
  /\ CacheManagerService.world (world res.2) = [("s2", "ns2:k2", 2)]
  /\ map call_target (CacheManagerService.calls (world res.2))
     = ["layer1"; "layer2"].
Proof. vm_compute. auto. Qed.

End InvalidationExamples.

(** ** The tiered manager: order of the layers, misses, fan-out of
    [delete] and [clear], [exists], administration, counters, health *)

Section ManagerMore.
Import CacheManagerService ManagerSpec ManagerLemmas ManagerOps.
Context {V W : Type}.
Implicit Types (l x y : CacheLayerConfig V W).
Implicit Types (ls : list (CacheLayerConfig V W)).
Implicit Types (m : Manager V W) (s : State V W).

Lemma layer_sort_insert_sorted x ls :
  StronglySorted by_priority ls ->
  StronglySorted by_priority (sort_insert x ls).
Proof.
  induction 1 as [|y ls Hs IH Hy]; simpl.
  - repeat constructor.
  - destruct (priority x <=? priority y)%Z eqn:E.
    + apply Z.leb_le in E. constructor; [constructor; assumption|].
      constructor; [exact E|].
      eapply List.Forall_impl; [|exact Hy].
      unfold by_priority. intros z Hz. lia.
    + apply Z.leb_gt in E. constructor; [exact IH|].
      apply List.Forall_forall. intros z Hz.
      apply layer_sort_insert_In in Hz as [-> | Hz].
      * unfold by_priority. lia.
      * eapply List.Forall_forall in Hy; eauto.
Qed.

Lemma layer_sort_insert_perm x ls : Permutation (sort_insert x ls) (x :: ls).
Proof.
  induction ls as [|y ls IH]; simpl; [reflexivity|].
  destruct (priority x <=? priority y)%Z; [reflexivity|].
  rewrite IH. apply perm_swap.
Qed.

Lemma layer_sort_insert_stable (p : Z) x ls :
  List.filter (fun l => (priority l =? p)%Z) (sort_insert x ls)
  = List.filter (fun l => (priority l =? p)%Z) (x :: ls).
Proof.
  induction ls as [|y ls IH]; [reflexivity|].
  cbn [sort_insert]. destruct (priority x <=? priority y)%Z eqn:E;
    [reflexivity|].
  apply Z.leb_gt in E. cbn [List.filter] in *. rewrite IH.
  destruct (priority x =? p)%Z eqn:Ex, (priority y =? p)%Z eqn:Ey;
    try reflexivity.
  apply Z.eqb_eq in Ex, Ey. lia.
Qed.

(** X1.  The layers the data operations walk through are exactly the
    enabled layers, each once, in ascending priority number; layers of
    equal priority keep the order in which they were added. *)
Theorem getSortedLayers_ascending_and_stable m :
  StronglySorted by_priority (getSortedLayers m)
  /\ Permutation (getSortedLayers m) (List.filter enabled (layers m))
  /\ forall p : Z,
       List.filter (fun l => (priority l =? p)%Z) (getSortedLayers m)
       = List.filter (fun l => (priority l =? p)%Z)
           (List.filter enabled (layers m)).
Proof.
  unfold getSortedLayers.
  induction (List.filter enabled (layers m)) as [|x ls (Hs & Hp & Hst)];
    simpl.
  - repeat split; constructor.
  - split; [apply layer_sort_insert_sorted, Hs|].
    split; [rewrite layer_sort_insert_perm, Hp; reflexivity|].
    intros p. rewrite layer_sort_insert_stable. simpl. rewrite Hst.
    reflexivity.
Qed.

(** X2.  When every enabled layer answers [null], [get] returns [null]
    after exactly one read per enabled layer, in priority order, and
    writes nowhere; the request is counted and none is counted as a
    hit. *)
Theorem get_misses_when_every_layer_misses
  (k : CacheKey) m (w w' : W) (tr : list (Call V)) :
  all_miss k (getSortedLayers m) w = Some w' ->
  (get k (mkState m w tr)).1 = Returned None
  /\ calls (get k (mkState m w tr)).2
     = tr ++ map (missed k) (getSortedLayers m)
  /\ world (get k (mkState m w tr)).2 = w'
  /\ requestCount (mgr (get k (mkState m w tr)).2) = S (requestCount m)
  /\ hitCount (mgr (get k (mkState m w tr)).2) = hitCount m.
Proof.
  intros Hmiss. rewrite get_at_once. cbn [mgr world calls].
  pose proof (get_loop_miss_prefix k (getSortedLayers m) [] w w' tr
                (getSortedLayers_enabled m) Hmiss) as Hloop.
  rewrite app_nil_r in Hloop. rewrite Hloop. simpl.
  unfold emitEvent. simpl. destruct (enableEvents m); simpl; auto.
Qed.


Lemma delete_loop_spec k ls success s :
  exists new,
    calls (delete_loop k ls success s).2 = calls s ++ new
    /\ map delete_request new
       = map (fun l => Some (name l, k)) (List.filter writable ls)
    /\ (delete_loop k ls success s).1 = success || existsb resolved_true new.
Proof.
  revert success s. induction ls as [|l ls IH]; intros success s.
  - exists []. simpl. rewrite app_nil_r, orb_false_r. auto.
  - simpl. unfold writable at 1.
    destruct (enabled l), (readOnly l); simpl; try apply IH.
    destruct (svc_delete (service l) k (world s)) as [r w'] eqn:Hd.
    set (c := CallDelete (name l) k r : Call V).
    assert (Hgo : forall b m',
      exists new',
        calls (delete_loop k ls b (mkState m' w' (calls s ++ [c]))).2
        = calls s ++ c :: new'
        /\ map delete_request (c :: new')
           = Some (name l, k)
               :: map (fun l => Some (name l, k)) (List.filter writable ls)
        /\ (delete_loop k ls b (mkState m' w' (calls s ++ [c]))).1
           = b || existsb resolved_true new').
    { intros b m'.
      destruct (IH b (mkState m' w' (calls s ++ [c])))
        as (new & Hc & Hr & Hs).
      exists new. simpl in Hc. rewrite Hc, <- app_assoc. simpl.
      rewrite Hr. auto. }
    destruct r as [[|]|msg].
    + destruct (Hgo true (emitEvent "cache_delete" (Some (name l)) (mgr s)))
        as (new & Hc & Hr & Hs).
      exists (c :: new). split; [exact Hc|]. split; [exact Hr|].
      rewrite Hs. simpl. rewrite orb_true_r. reflexivity.
    + destruct (Hgo success (mgr s)) as (new & Hc & Hr & Hs).
      exists (c :: new). split; [exact Hc|]. split; [exact Hr|].
      rewrite Hs. reflexivity.
    + destruct (Hgo success (mgr s)) as (new & Hc & Hr & Hs).
      exists (c :: new). split; [exact Hc|]. split; [exact Hr|].
      rewrite Hs. reflexivity.
Qed.

Lemma clear_loop_spec ns ls success s :
  exists new,
    calls (clear_loop ns ls success s).2 = calls s ++ new
    /\ map clear_request new
       = map (fun l => Some (name l, ns)) (List.filter writable ls)
    /\ (clear_loop ns ls success s).1 = success || existsb resolved_true new.
Proof.
  revert success s. induction ls as [|l ls IH]; intros success s.
  - exists []. simpl. rewrite app_nil_r, orb_false_r. auto.
  - simpl. unfold writable at 1.
    destruct (enabled l), (readOnly l); simpl; try apply IH.
    destruct (svc_clear (service l) ns (world s)) as [r w'] eqn:Hd.
    set (c := CallClear (name l) ns r : Call V).
    assert (Hgo : forall b m',
      exists new',
        calls (clear_loop ns ls b (mkState m' w' (calls s ++ [c]))).2
        = calls s ++ c :: new'
        /\ map clear_request (c :: new')
           = Some (name l, ns)
               :: map (fun l => Some (name l, ns)) (List.filter writable ls)
        /\ (clear_loop ns ls b (mkState m' w' (calls s ++ [c]))).1
           = b || existsb resolved_true new').
    { intros b m'.
      destruct (IH b (mkState m' w' (calls s ++ [c])))
        as (new & Hc & Hr & Hs).
      exists new. simpl in Hc. rewrite Hc, <- app_assoc. simpl.
      rewrite Hr. auto. }
    destruct r as [[|]|msg].
    + destruct (Hgo true (emitEvent "cache_clear" (Some (name l)) (mgr s)))
        as (new & Hc & Hr & Hs).
      exists (c :: new). split; [exact Hc|]. split; [exact Hr|].
      rewrite Hs. simpl. rewrite orb_true_r. reflexivity.
    + destruct (Hgo success (mgr s)) as (new & Hc & Hr & Hs).
      exists (c :: new). split; [exact Hc|]. split; [exact Hr|].
      rewrite Hs. reflexivity.
    + destruct (Hgo success (mgr s)) as (new & Hc & Hr & Hs).
      exists (c :: new). split; [exact Hc|]. split; [exact Hr|].
      rewrite Hs. reflexivity.
Qed.

(** X3.  [delete] issues one delete of the key to every enabled,
    non-read-only layer, in priority order, and no other call, whatever
    the layers answer; it returns [true] exactly when one of these
    deletes resolved with [true] -- so deleting a key that no layer
    holds returns [false] -- and it never throws.  The deletes are the
    calls on the stores themselves, made in turn from the stores as
    they are when [delete] is called: each entry of [new] carries what
    the store answered, and the stores end as the last delete leaves
    them. *)
Theorem delete_fans_out_to_writable_layers (k : CacheKey) s :
  let deletes :=
    in_turn (delete_on k) (List.filter writable (getSortedLayers (mgr s)))
      (world s) in
  exists new,
    calls (delete k s).2 = calls s ++ new
    /\ map delete_request new
       = map (fun l => Some (name l, k))
           (List.filter writable (getSortedLayers (mgr s)))
    /\ (delete k s).1 = Returned (existsb resolved_true new)
    /\ new = deletes.1
    /\ world (delete k s).2 = deletes.2.
Proof.
  intros deletes. unfold delete.
  destruct (delete_loop_spec k (getSortedLayers (mgr s)) false s)
    as (new & Hc & Hr & Hs).
  destruct (delete_loop_turn k (getSortedLayers (mgr s)) false s)
    as (Hc' & Hw'). fold deletes in Hc', Hw'.
  destruct (delete_loop k (getSortedLayers (mgr s)) false s)
    as [success s'] eqn:Hloop.
  cbn [fst snd calls world] in *. exists new. rewrite Hs.
  repeat (split; [auto; fail|]).
  split; [|exact Hw']. rewrite Hc in Hc'. now apply app_inv_head in Hc'.
Qed.

(** X4.  [clear] issues one clear, with the namespace it was given (or
    none), to every enabled, non-read-only layer, in priority order, and
    no other call; it returns [true] exactly when one of them resolved
    with [true], and it never throws.  The clears are the calls on the
    stores themselves, made in turn from the stores as they are when
    [clear] is called: each entry of [new] carries what the store
    answered, and the stores end as the last clear leaves them. *)
Theorem clear_fans_out_to_writable_layers (ns : option string) s :
  let clears :=
    in_turn (clear_on ns) (List.filter writable (getSortedLayers (mgr s)))
      (world s) in
  exists new,
    calls (clear ns s).2 = calls s ++ new
    /\ map clear_request new
       = map (fun l => Some (name l, ns))
           (List.filter writable (getSortedLayers (mgr s)))
    /\ (clear ns s).1 = Returned (existsb resolved_true new)
    /\ new = clears.1
    /\ world (clear ns s).2 = clears.2.
Proof.
  intros clears. unfold clear.
  destruct (clear_loop_spec ns (getSortedLayers (mgr s)) false s)
    as (new & Hc & Hr & Hs).
  destruct (clear_loop_turn ns (getSortedLayers (mgr s)) false s)
    as (Hc' & Hw'). fold clears in Hc', Hw'.
  destruct (clear_loop ns (getSortedLayers (mgr s)) false s)
    as [success s'] eqn:Hloop.
  cbn [fst snd calls world] in *. exists new. rewrite Hs.
  repeat (split; [auto; fail|]).
  split; [|exact Hw']. rewrite Hc in Hc'. now apply app_inv_head in Hc'.
Qed.


Lemma exists_loop_absent_prefix k pre rest (w w1 : W) (tr : list (Call V)) :
  Forall (fun l => enabled l = true) pre ->
  all_absent k pre w = Some w1 ->
  exists_loop k (pre ++ rest) w tr
  = exists_loop k rest w1 (tr ++ map (probed k false) pre).
Proof.
  revert w tr. induction pre as [|l pre IH]; intros w tr Hen Habs.
  - simpl in *. injection Habs as ->. rewrite app_nil_r. reflexivity.
  - inversion Hen as [|? ? Hl Hpre]; subst. simpl in *. rewrite Hl. simpl.
    destruct (svc_exists (service l) k w) as [[[|]|msg] w'];
      try discriminate.
    rewrite (IH w' _ Hpre Habs), <- app_assoc. reflexivity.
Qed.

(** X5.  [exists] answers [true] at the first enabled layer, in
    priority order, that reports the key: the layers before it are asked
    once each, the layers after it are not asked, and nothing is written
    to any layer -- a key found by [exists] is not promoted. *)
Theorem exists_stops_at_first_layer_that_has_the_key
  (k : CacheKey) m (w w1 w2 : W) (tr : list (Call V))
  (pre post : list (CacheLayerConfig V W)) L :
  getSortedLayers m = pre ++ L :: post ->
  all_absent k pre w = Some w1 ->
  svc_exists (service L) k w1 = (Returned true, w2) ->
  (exists_ k (mkState m w tr)).1 = Returned true
  /\ calls (exists_ k (mkState m w tr)).2
     = tr ++ map (probed k false) pre ++ [probed k true L]
  /\ world (exists_ k (mkState m w tr)).2 = w2.
Proof.
  intros Hsorted Habs Hhit. unfold exists_. cbn [mgr world calls].
  change (getSortedLayers (incr_requestCount m)) with (getSortedLayers m).
  pose proof (getSortedLayers_enabled m) as Hen. rewrite Hsorted in *.
  apply Forall_app in Hen as [Hpre HL].
  inversion HL as [|? ? HLen _]; subst.
  rewrite (exists_loop_absent_prefix _ _ _ _ _ _ Hpre Habs).
  simpl. rewrite HLen, Hhit. simpl. rewrite <- app_assoc. auto.
Qed.

(** *** Which layers an operation touches *)

Lemma get_loop_allowed k ls m (w : W) (tr : list (Call V)) :
  (forall l, In l ls -> In l (layers m)) ->
  exists new,
    (get_loop k ls w tr).2 = tr ++ new /\ Forall (allowed m) new.
Proof.
  revert w tr. induction ls as [|l ls IH]; intros w tr Hin.
  - exists []. simpl. rewrite app_nil_r. auto.
  - assert (Hls : forall l', In l' ls -> In l' (layers m))
      by (intros; apply Hin; right; assumption).
    simpl. destruct (enabled l) eqn:Hen; simpl; [|apply IH, Hls].
    destruct (svc_get (service l) k w) as [r w'].
    assert (Hc : allowed m (CallGet (name l) k r)).
    { exists l. simpl. split; [apply Hin; left; reflexivity|].
      split; [reflexivity|]. split; [exact Hen|]. intros; discriminate. }
    destruct r as [[v|]|msg].
    + eexists [_]. simpl. split; [reflexivity|]. repeat constructor. exact Hc.
    + destruct (IH w' (tr ++ [CallGet (name l) k (Returned None)]) Hls)
        as (new & Hn & Ha).
      exists (CallGet (name l) k (Returned None) :: new).
      rewrite Hn, <- app_assoc. split; [reflexivity|].
      constructor; assumption.
    + eexists [_]. simpl. split; [reflexivity|]. repeat constructor. exact Hc.
Qed.

Lemma exists_loop_allowed k ls m (w : W) (tr : list (Call V)) :
  (forall l, In l ls -> In l (layers m)) ->
  exists new,
    (exists_loop k ls w tr).2 = tr ++ new /\ Forall (allowed m) new.
Proof.
  revert w tr. induction ls as [|l ls IH]; intros w tr Hin.
  - exists []. simpl. rewrite app_nil_r. auto.
  - assert (Hls : forall l', In l' ls -> In l' (layers m))
      by (intros; apply Hin; right; assumption).
    simpl. destruct (enabled l) eqn:Hen; simpl; [|apply IH, Hls].
    destruct (svc_exists (service l) k w) as [r w'].
    assert (Hc : allowed m (CallExists (name l) k r)).
    { exists l. simpl. split; [apply Hin; left; reflexivity|].
      split; [reflexivity|]. split; [exact Hen|]. intros; discriminate. }
    destruct r as [[|]|msg].
    + eexists [_]. simpl. split; [reflexivity|]. repeat constructor. exact Hc.
    + destruct (IH w' (tr ++ [CallExists (name l) k (Returned false)]) Hls)
        as (new & Hn & Ha).
      exists (CallExists (name l) k (Returned false) :: new).
      rewrite Hn, <- app_assoc. split; [reflexivity|].
      constructor; assumption.
    + eexists [_]. simpl. split; [reflexivity|]. repeat constructor. exact Hc.
Qed.

(** Calls whose requests are read off writable layers of [m] are
    allowed. *)
Lemma requests_allowed {R : Type} m (request : Call V -> option R)
  (wanted : CacheLayerConfig V W -> option R) ls (new : list (Call V)) :
  (forall c l, request c = wanted l ->
               call_target c = name l /\ is_write c = true) ->
  (forall l, In l ls ->
             In l (layers m) /\ enabled l = true /\ readOnly l = false) ->
  map request new = map wanted ls ->
  Forall (allowed m) new.
Proof.
  intros Hreq Hls Hmap. apply List.Forall_forall. intros c Hc.
  apply (in_map request) in Hc. rewrite Hmap in Hc.
  apply in_map_iff in Hc as (l & Hl & Hin). symmetry in Hl.
  destruct (Hreq _ _ Hl) as [Ht _]. destruct (Hls _ Hin) as (? & ? & ?).
  exists l. auto.
Qed.

Lemma writable_sorted_layers m l :
  In l (List.filter writable (getSortedLayers m)) ->
  In l (layers m) /\ enabled l = true /\ readOnly l = false.
Proof.
  intros H. apply filter_In in H as [H Hw].
  apply getSortedLayers_In in H as [H Hen]. unfold writable in Hw.
  rewrite Hen in Hw. simpl in Hw. apply negb_true_iff in Hw. auto.
Qed.

Lemma data_operation_calls_allowed (op : DataOp V) s :
  exists new,
    calls (after op s) = calls s ++ new /\ Forall (allowed (mgr s)) new.
Proof.
  destruct op as [k | k v o | k | k | ns]; simpl.
  - rewrite get_at_once.
    destruct (get_loop_allowed k (getSortedLayers (mgr s))
                (mgr s) (world s) (calls s)) as (gets & Hg & Ha).
    { intros l Hl. apply getSortedLayers_In in Hl. tauto. }
    destruct (get_loop k _ (world s) (calls s)) as [[[L v| |msg] w] tr];
      cbn [snd] in Hg; subst tr; cbn [snd calls];
      try (exists gets; split; [reflexivity | exact Ha]).
    destruct (priority L >? 1)%Z; cbn [calls];
      [|exists gets; split; [reflexivity | exact Ha]].
    match goal with |- context [promote_loop k v ?ls ?p ?s1] =>
      destruct (promote_loop_spec k v ls p s1) as (sets & Hc & Hr) end.
    rewrite Hc. cbn [calls]. exists (gets ++ sets).
    rewrite <- app_assoc. split; [reflexivity|].
    apply Forall_app. split; [exact Ha|].
    eapply (requests_allowed (mgr s) set_request (promotion_for k v));
      [| |exact Hr].
    + intros c l Hreq. apply set_request_Some in Hreq as (_ & Ht & r & ->).
      auto.
    + intros l Hl. apply higherLayers_In in Hl. cbn [mgr] in Hl.
      destruct Hl as (? & ? & ? & _). auto.
  - destruct (set_loop_spec k v (spread (defaultOptions (mgr s)) o)
                (getSortedLayers (mgr s)) false s) as (new & Hc & Hr & _).
    unfold set.
    destruct (set_loop k v _ (getSortedLayers (mgr s)) false s)
      as [success s'].
    cbn [snd calls] in *. exists new. split; [exact Hc|].
    eapply (requests_allowed (mgr s) set_request); [| |exact Hr].
    + intros c l Hreq. apply set_request_Some in Hreq as (_ & Ht & r & ->).
      auto.
    + apply writable_sorted_layers.
  - destruct (delete_loop_spec k (getSortedLayers (mgr s)) false s)
      as (new & Hc & Hr & _).
    unfold delete.
    destruct (delete_loop k (getSortedLayers (mgr s)) false s)
      as [success s'].
    cbn [snd calls] in *. exists new. split; [exact Hc|].
    eapply (requests_allowed (mgr s) delete_request); [| |exact Hr].
    + intros c l Hreq. destruct c; try discriminate.
      injection Hreq as -> _. auto.
    + apply writable_sorted_layers.
  - unfold exists_.
    destruct (exists_loop_allowed k
                (getSortedLayers (incr_requestCount (mgr s)))
                (mgr s) (world s) (calls s)) as (new & Hg & Ha).
    { intros l Hl. apply getSortedLayers_In in Hl. tauto. }
    destruct (exists_loop k _ (world s) (calls s)) as [[[L| |msg] w] tr];
      cbn [snd] in Hg; subst tr; cbn [snd calls];
      exists new; split; (reflexivity || exact Ha).
  - destruct (clear_loop_spec ns (getSortedLayers (mgr s)) false s)
      as (new & Hc & Hr & _).
    unfold clear.
    destruct (clear_loop ns (getSortedLayers (mgr s)) false s)
      as [success s'].
    cbn [snd calls] in *. exists new. split; [exact Hc|].
    eapply (requests_allowed (mgr s) clear_request); [| |exact Hr].
    + intros c l Hreq. destruct c; try discriminate.
      injection Hreq as -> _. auto.
    + apply writable_sorted_layers.
Qed.


Lemma new_calls_app s s' (new : list (Call V)) :
  calls s' = calls s ++ new -> new_calls s s' = new.
Proof.
  intros H. unfold new_calls. rewrite H.
  rewrite skipn_app, skipn_all, Nat.sub_diag. reflexivity.
Qed.

Lemma unique_name_identifies m l l' :
  names_unique m -> In l (layers m) -> In l' (layers m) ->
  name l = name l' -> l = l'.
Proof.
  unfold names_unique. induction (layers m) as [|x ls IH]; [contradiction|].
  simpl. intros Hnd Hl Hl' Hname. inversion Hnd as [|? ? Hx Hls]; subst.
  destruct Hl as [<- | Hl], Hl' as [<- | Hl']; auto.
  - exfalso. apply Hx. rewrite Hname. apply list_elem_of_In, in_map, Hl'.
  - exfalso. apply Hx. rewrite <- Hname. apply list_elem_of_In, in_map, Hl.
Qed.

(** X6.  No data operation -- [get] with its promotion, [set],
    [delete], [exists], [clear] -- calls a disabled layer, and none
    writes to a read-only layer: whatever call goes to a layer, that
    layer is enabled, and it is not read-only if the call is a [set], a
    [delete] or a [clear]. *)
Theorem disabled_and_read_only_layers_are_left_alone
  (op : DataOp V) s l (c : Call V) :
  names_unique (mgr s) ->
  In l (layers (mgr s)) ->
  In c (new_calls s (after op s)) ->
  call_target c = name l ->
  enabled l = true /\ (is_write c = true -> readOnly l = false).
Proof.
  intros Hu Hl Hc Ht.
  destruct (data_operation_calls_allowed op s) as (new & Hn & Ha).
  rewrite (new_calls_app _ _ _ Hn) in Hc.
  eapply List.Forall_forall in Ha as (l' & Hl' & Hname & Hen & Hw); [|exact Hc].
  assert (l' = l) as ->
    by (eapply unique_name_identifies; eauto; congruence).
  auto.
Qed.

(** *** Layer administration *)

Lemma layers_emitEvent type layer m :
  layers (emitEvent type layer m) = layers m.
Proof. unfold emitEvent. destruct (enableEvents m); reflexivity. Qed.

Lemma find_map_set l ls n :
  find (fun x => Js.streq (name x) n) (map_set l ls)
  = if Js.streq (name l) n then Some l
    else find (fun x => Js.streq (name x) n) ls.
Proof.
  induction ls as [|y ls IH]; simpl.
  - destruct (Js.streq (name l) n); reflexivity.
  - destruct (Js.streq (name y) (name l)) eqn:Eyl.
    + apply String.eqb_eq in Eyl. simpl. rewrite Eyl.
      destruct (Js.streq (name l) n); reflexivity.
    + simpl. rewrite IH.
      destruct (Js.streq (name y) n) eqn:Eyn; [|reflexivity].
      apply String.eqb_eq in Eyn. subst n.
      unfold Js.streq in *. rewrite String.eqb_sym, Eyl. reflexivity.
Qed.

Lemma length_map_set l ls :
  length (map_set l ls)
  = if map_has (name l) ls then length ls else S (length ls).
Proof.
  unfold map_has. induction ls as [|y ls IH]; [reflexivity|].
  simpl. destruct (Js.streq (name y) (name l)); simpl; [reflexivity|].
  rewrite IH. destruct (existsb _ ls); reflexivity.
Qed.

(** X7.  [addLayer] always succeeds; afterwards the layer found under
    the configuration's name is the configured one, with [enabled],
    [readOnly] and [fallback] defaulting to true, false and false; the
    layer found under any other name is the one found before; and the
    number of layers grows by one exactly when the name was new -- a
    layer of the same name is replaced. *)
Theorem addLayer_then_lookup (config : CacheLayerInput V W) m :
  (addLayer config m).1 = true
  /\ find_layer (in_name config) (addLayer config m).2 = Some (stored config)
  /\ (forall n, n <> in_name config ->
                find_layer n (addLayer config m).2 = find_layer n m)
  /\ length (layers (addLayer config m).2)
     = (if map_has (in_name config) (layers m)
        then length (layers m) else S (length (layers m))).
Proof.
  unfold addLayer, find_layer. cbn [fst snd].
  rewrite layers_emitEvent. cbn [with_layers layers].
  fold (stored config). split; [reflexivity|].
  split; [|split].
  - rewrite find_map_set. cbn [stored name]. unfold Js.streq.
    rewrite String.eqb_refl. reflexivity.
  - intros n Hn. rewrite find_map_set. cbn [stored name].
    unfold Js.streq at 1. destruct (String.eqb_spec (in_name config) n);
      [congruence | reflexivity].
  - apply (length_map_set (stored config)).
Qed.

Lemma find_map_delete n n' ls :
  find (fun x => Js.streq (name x) n') (map_delete n ls)
  = if Js.streq n n' then None
    else find (fun x => Js.streq (name x) n') ls.
Proof.
  unfold map_delete. induction ls as [|y ls IH]; simpl.
  - destruct (Js.streq n n'); reflexivity.
  - destruct (Js.streq (name y) n) eqn:Eyn; simpl.
    + rewrite IH. apply String.eqb_eq in Eyn. subst n.
      destruct (Js.streq (name y) n'); reflexivity.
    + rewrite IH. destruct (Js.streq (name y) n') eqn:Eyn'; [|reflexivity].
      apply String.eqb_eq in Eyn'. subst n'.
      unfold Js.streq in *. rewrite String.eqb_sym, Eyn. reflexivity.
Qed.

Lemma map_has_find n ls :
  map_has n ls = false -> find (fun x => Js.streq (name x) n) ls = None.
Proof.
  unfold map_has. induction ls as [|y ls IH]; [reflexivity|].
  simpl. destruct (Js.streq (name y) n); [discriminate | exact IH].
Qed.

(** X8.  [removeLayer] returns whether a layer of that name existed.
    If none did, the manager is left as it was (no event either);
    otherwise no layer is found under that name afterwards, and the
    layer found under any other name is the one found before. *)
Theorem removeLayer_then_lookup (n : string) m :
  (removeLayer n m).1 = map_has n (layers m)
  /\ (map_has n (layers m) = false -> (removeLayer n m).2 = m)
  /\ find_layer n (removeLayer n m).2 = None
  /\ (forall n', n' <> n ->
                 find_layer n' (removeLayer n m).2 = find_layer n' m).
Proof.
  unfold removeLayer, find_layer.
  destruct (map_has n (layers m)) eqn:Hhas; cbn [negb fst snd].
  - rewrite layers_emitEvent. cbn [with_layers layers].
    split; [reflexivity|]. split; [discriminate|]. split.
    + rewrite find_map_delete. unfold Js.streq. rewrite String.eqb_refl.
      reflexivity.
    + intros n' Hn'. rewrite find_map_delete. unfold Js.streq at 1.
      destruct (String.eqb_spec n n'); [congruence | reflexivity].
  - split; [reflexivity|]. split; [reflexivity|].
    split; [apply map_has_find, Hhas | reflexivity].
Qed.


(** X9.  A layer that was switched off or removed gets no call: after
    [enableLayer(n, false)], and after [removeLayer(n)], no data
    operation issues a call to a layer named [n]. *)
Theorem switched_off_layer_gets_no_call
  (n : string) m (op : DataOp V) (w : W) (tr : list (Call V)) :
  (forall c,
      In c (new_calls (mkState (enableLayer n false m).2 w tr)
              (after op (mkState (enableLayer n false m).2 w tr))) ->
      call_target c <> n)
  /\ (forall c,
        In c (new_calls (mkState (removeLayer n m).2 w tr)
                (after op (mkState (removeLayer n m).2 w tr))) ->
        call_target c <> n).
Proof.
  split; intros c Hc.
  - set (s := mkState (enableLayer n false m).2 w tr) in *.
    destruct (data_operation_calls_allowed op s) as (new & Hn & Ha).
    rewrite (new_calls_app _ _ _ Hn) in Hc.
    eapply List.Forall_forall in Ha as (l & Hl & Hname & Hen & _);
      [|exact Hc].
    intros Ht. subst s. cbn [mgr] in Hl. unfold enableLayer in Hl.
    destruct (map_has n (layers m)) eqn:Hhas; cbn [negb snd] in Hl.
    + rewrite layers_emitEvent in Hl. cbn [with_layers layers] in Hl.
      apply in_map_iff in Hl as (l0 & <- & _).
      destruct (Js.streq (name l0) n) eqn:E; [discriminate|].
      apply String.eqb_neq in E. congruence.
    + apply map_has_find in Hhas.
      eapply find_none in Hhas; [|exact Hl]. cbn beta in Hhas.
      apply String.eqb_neq in Hhas. congruence.
  - set (s := mkState (removeLayer n m).2 w tr) in *.
    destruct (data_operation_calls_allowed op s) as (new & Hn & Ha).
    rewrite (new_calls_app _ _ _ Hn) in Hc.
    eapply List.Forall_forall in Ha as (l & Hl & Hname & Hen & _);
      [|exact Hc].
    intros Ht. subst s. cbn [mgr] in Hl. unfold removeLayer in Hl.
    destruct (map_has n (layers m)) eqn:Hhas; cbn [negb snd] in Hl.
    + rewrite layers_emitEvent in Hl. cbn [with_layers layers] in Hl.
      apply filter_In in Hl as [_ Hl]. apply negb_true_iff in Hl.
      apply String.eqb_neq in Hl. congruence.
    + apply map_has_find in Hhas.
      eapply find_none in Hhas; [|exact Hl]. cbn beta in Hhas.
      apply String.eqb_neq in Hhas. congruence.
Qed.

(** *** What the data operations leave of the manager *)

Lemma same_but_events_refl m : same_but_events m m.
Proof. repeat split. Qed.

Lemma same_but_events_emitEvent type layer m m' :
  same_but_events m m' -> same_but_events m (emitEvent type layer m').
Proof.
  unfold same_but_events, emitEvent. intros H.
  destruct (enableEvents m') eqn:E; simpl; rewrite ?E; exact H.
Qed.

Lemma promote_loop_mgr k (v : V) ls p s :
  same_but_events (mgr s) (mgr (promote_loop k v ls p s)).
Proof.
  assert (H : forall m0, same_but_events m0 (mgr s) ->
                         same_but_events m0 (mgr (promote_loop k v ls p s))).
  { revert s. induction ls as [|l ls IH]; intros s m0 H0; [exact H0|].
    simpl. destruct (svc_set (service l) k v None (world s)) as [r w'].
    apply IH. cbn [mgr].
    destruct r; [apply same_but_events_emitEvent|]; exact H0. }
  apply H, same_but_events_refl.
Qed.

Lemma set_loop_mgr k (v : V) mo ls b s :
  same_but_events (mgr s) (mgr (set_loop k v mo ls b s).2).
Proof.
  assert (H : forall m0, same_but_events m0 (mgr s) ->
                same_but_events m0 (mgr (set_loop k v mo ls b s).2)).
  { revert b s. induction ls as [|l ls IH]; intros b s m0 H0; [exact H0|].
    simpl. destruct (negb (enabled l) || readOnly l); [apply IH, H0|].
    destruct (svc_set (service l) k v _ (world s)) as [[[|]|msg] w'];
      apply IH; cbn [mgr];
      [apply same_but_events_emitEvent| |]; exact H0. }
  apply H, same_but_events_refl.
Qed.

Lemma delete_loop_mgr k ls b s :
  same_but_events (mgr s) (mgr (delete_loop k ls b s).2).
Proof.
  assert (H : forall m0, same_but_events m0 (mgr s) ->
                same_but_events m0 (mgr (delete_loop k ls b s).2)).
  { revert b s. induction ls as [|l ls IH]; intros b s m0 H0; [exact H0|].
    simpl. destruct (negb (enabled l) || readOnly l); [apply IH, H0|].
    destruct (svc_delete (service l) k (world s)) as [[[|]|msg] w'];
      apply IH; cbn [mgr];
      [apply same_but_events_emitEvent| |]; exact H0. }
  apply H, same_but_events_refl.
Qed.

Lemma clear_loop_mgr ns ls b s :
  same_but_events (mgr s) (mgr (clear_loop ns ls b s).2).
Proof.
  assert (H : forall m0, same_but_events m0 (mgr s) ->
                same_but_events m0 (mgr (clear_loop ns ls b s).2)).
  { revert b s. induction ls as [|l ls IH]; intros b s m0 H0; [exact H0|].
    simpl. destruct (negb (enabled l) || readOnly l); [apply IH, H0|].
    destruct (svc_clear (service l) ns (world s)) as [[[|]|msg] w'];
      apply IH; cbn [mgr];
      [apply same_but_events_emitEvent| |]; exact H0. }
  apply H, same_but_events_refl.
Qed.

Lemma emitEvent_keeps type layer (m : Manager V W) :
  requestCount (emitEvent type layer m) = requestCount m
  /\ hitCount (emitEvent type layer m) = hitCount m
  /\ stats_hits (emitEvent type layer m) = stats_hits m
  /\ stats_misses (emitEvent type layer m) = stats_misses m.
Proof. unfold emitEvent. destruct (enableEvents m); repeat split. Qed.

Ltac keep_counters :=
  repeat match goal with
    | |- context [promote_loop ?k ?v ?ls ?p ?s] =>
        let H := fresh in
        pose proof (promote_loop_mgr k v ls p s) as H;
        unfold same_but_events in H;
        destruct H as (?H1 & _ & _ & ?H4 & ?H5 & ?H6 & ?H7);
        rewrite ?H1, ?H4, ?H5, ?H6, ?H7; cbn [mgr]
    | |- context [emitEvent ?t ?l ?m] =>
        let H1 := fresh in let H2 := fresh in
        let H3 := fresh in let H4 := fresh in
        let H5 := fresh in
        pose proof (layers_emitEvent t l m) as H5;
        destruct (emitEvent_keeps t l m) as (H1 & H2 & H3 & H4);
        rewrite ?H1, ?H2, ?H3, ?H4, ?H5; clear H1 H2 H3 H4 H5
    end.

(** What a data operation does to the manager: nothing to the layers
    and the configuration; the counters move as the next theorem
    says. *)
Lemma after_mgr (op : DataOp V) s :
  layers (mgr (after op s)) = layers (mgr s)
  /\ (counters_consistent (mgr s) -> counters_consistent (mgr (after op s)))
  /\ requestCount (mgr (after op s))
     = (match op with
        | OpGet _ | OpExists _ => S (requestCount (mgr s))
        | _ => requestCount (mgr s)
        end)
  /\ hitCount (mgr s) <= hitCount (mgr (after op s))
     <= S (hitCount (mgr s)).
Proof.
  unfold counters_consistent.
  destruct op as [k | k v o | k | k | ns]; simpl.
  - rewrite get_at_once.
    destruct (get_loop k _ (world s) (calls s)) as [[[L v| |msg] w] tr];
      cbn [snd mgr].
    + destruct (priority L >? 1)%Z; cbn [mgr]; keep_counters;
        cbn [mgr]; simpl; repeat split; try lia.
    + keep_counters; simpl; repeat split; try lia.
    + keep_counters; simpl; repeat split; try lia.
  - unfold set.
    pose proof (set_loop_mgr k v (spread (defaultOptions (mgr s)) o)
                  (getSortedLayers (mgr s)) false s)
      as (H1 & _ & _ & H4 & H5 & H6 & H7).
    destruct (set_loop k v _ (getSortedLayers (mgr s)) false s)
      as [success s']. cbn [snd mgr] in *. simpl.
    rewrite H1, H4, H5. repeat split; try lia.
  - unfold delete.
    pose proof (delete_loop_mgr k (getSortedLayers (mgr s)) false s)
      as (H1 & _ & _ & H4 & H5 & H6 & H7).
    destruct (delete_loop k (getSortedLayers (mgr s)) false s)
      as [success s']. cbn [snd mgr] in *. simpl.
    rewrite H1, H4, H5. repeat split; try lia.
  - unfold exists_.
    destruct (exists_loop k _ (world s) (calls s)) as [[[L| |msg] w] tr];
      cbn [snd mgr]; keep_counters; simpl; repeat split; try lia.
  - unfold clear.
    pose proof (clear_loop_mgr ns (getSortedLayers (mgr s)) false s)
      as (H1 & _ & _ & H4 & H5 & H6 & H7).
    destruct (clear_loop ns (getSortedLayers (mgr s)) false s)
      as [success s']. cbn [snd mgr] in *. simpl.
    rewrite H1, H4, H5. repeat split; try lia.
Qed.

(** The administration methods keep the layer names distinct and do
    not touch the counters. *)
Lemma names_map_set (l : CacheLayerConfig V W) ls :
  map name (map_set l ls)
  = if map_has (name l) ls then map name ls else map name ls ++ [name l].
Proof.
  induction ls as [|x ls IH]; [reflexivity|].
  simpl. unfold Js.streq. rewrite String.eqb_sym.
  destruct (String.eqb (name l) (name x)) eqn:E; simpl.
  - apply String.eqb_eq in E. now rewrite E.
  - rewrite IH. unfold map_has in *. simpl.
    now destruct (existsb _ ls).
Qed.

Lemma names_map_delete (n : string) (ls : list (CacheLayerConfig V W)) :
  NoDup (map name ls) -> NoDup (map name (map_delete n ls)).
Proof.
  unfold map_delete. induction ls as [|x ls IH]; [trivial|].
  simpl. rewrite !NoDup_cons. intros [Hx Hnd].
  destruct (negb _); simpl; [|auto].
  rewrite NoDup_cons. split; [|auto].
  intros Hin. apply Hx. apply list_elem_of_In in Hin.
  apply list_elem_of_In. apply in_map_iff in Hin as (y & Hy & Hin).
  apply filter_In in Hin as [Hin _]. apply in_map_iff. eauto.
Qed.

Lemma administer_keeps (a : AdminOp V W) m :
  (names_unique m -> names_unique (administer a m))
  /\ requestCount (administer a m) = requestCount m
  /\ hitCount (administer a m) = hitCount m
  /\ stats_hits (administer a m) = stats_hits m
  /\ stats_misses (administer a m) = stats_misses m.
Proof.
  unfold names_unique.
  destruct a as [config | n | n on]; simpl.
  - unfold addLayer. cbn [snd].
    keep_counters. cbn. repeat split. intros Hnd.
    rewrite names_map_set. cbn [name].
    destruct (map_has (in_name config) (layers m)) eqn:Hhas; [exact Hnd|].
    apply NoDup_app. repeat split; [exact Hnd| |apply NoDup_singleton].
    intros x Hx Hx'. apply list_elem_of_singleton in Hx'. subst x.
    apply list_elem_of_In, in_map_iff in Hx as (l & Hl & Hin).
    apply map_has_find in Hhas. eapply find_none in Hhas; [|exact Hin].
    cbn beta in Hhas. apply String.eqb_neq in Hhas. congruence.
  - unfold removeLayer.
    destruct (map_has n (layers m)); cbn [negb snd]; [|tauto].
    keep_counters. cbn. repeat split. apply names_map_delete.
  - unfold enableLayer.
    destruct (map_has n (layers m)); cbn [negb snd]; [|tauto].
    keep_counters. cbn. repeat split. intros Hnd.
    rewrite map_map.
    erewrite map_ext; [exact Hnd|].
    intros l. cbn beta. now destruct (Js.streq (name l) n).
Qed.

(** Whatever is done to a manager that starts without layers, no two
    of its layers share a name. *)
Lemma layer_names_stay_unique ops (s : State V W) :
  names_unique (mgr s) -> names_unique (mgr (fold_left do_op ops s)).
Proof.
  revert s. induction ops as [|[d|a] ops IH]; intros s Hs; [exact Hs| |];
    simpl; apply IH.
  - unfold names_unique. destruct (after_mgr d s) as (-> & _). exact Hs.
  - now apply administer_keeps.
Qed.

(** X10.  The counters of the manager: on a manager that starts
    without layers, after any sequence of data operations and layer
    administration calls, made one after the other, [requestCount] is
    the number of [get] and [exists] calls made, [hitCount] never
    exceeds it (the hit rate is at most 1), and the published [hits]
    and [misses] never add up to more than the requests. *)
Theorem counters_stay_consistent
  (defaults : option CacheOptions) (events : bool) (w : W)
  (ops : list (DataOp V + AdminOp V W)) :
  let m := mgr (fold_left do_op ops (mkState (initial defaults events) w []))
  in requestCount m = length (List.filter counts_as_request ops)
     /\ hitCount m <= requestCount m
     /\ stats_hits m + stats_misses m <= requestCount m.
Proof.
  cbv zeta.
  assert (H : forall ops (s : State V W),
             counters_consistent (mgr s) ->
             counters_consistent (mgr (fold_left do_op ops s))
             /\ requestCount (mgr (fold_left do_op ops s))
                = requestCount (mgr s)
                  + length (List.filter counts_as_request ops)).
  { clear. induction ops as [|[d|a] ops IH]; intros s Hs; simpl.
    - split; [exact Hs|lia].
    - destruct (after_mgr d s) as (_ & Hc & Hr & _).
      destruct (IH (after d s) (Hc Hs)) as [IH1 IH2].
      split; [exact IH1|]. rewrite IH2, Hr.
      destruct d; simpl; lia.
    - destruct (administer_keeps a (mgr s)) as (_ & H1 & H2 & H3 & H4).
      assert (Hc : counters_consistent
                     (mgr (mkState (administer a (mgr s)) (world s)
                             (calls s)))).
      { unfold counters_consistent in *. cbn [mgr].
        rewrite H1, H2, H3, H4. exact Hs. }
      destruct (IH _ Hc) as [IH1 IH2].
      split; [exact IH1|]. rewrite IH2. cbn [mgr]. rewrite H1. lia. }
  destruct (H ops (mkState (initial defaults events) w [])) as [Hc Hr].
  { unfold counters_consistent. simpl. lia. }
  unfold counters_consistent in Hc. simpl in Hr. rewrite Hr. lia.
Qed.

End ManagerMore.

Section HealthMore.
Import CacheManagerService CacheManagerHealth.
Context {V W : Type}.
Variable svc_getHealth : ICacheService V W -> W -> outcome CacheHealth * W.

Lemma health_loop_spec (ls : list (CacheLayerConfig V W)) t w :
  let answers := health_answers svc_getHealth ls w in
  let t' := (health_loop svc_getHealth ls t w).1 in
  healthyLayers t'
  = healthyLayers t + length (List.filter answered_healthy answers)
  /\ hasError t' = hasError t || negb (forallb answered_healthy answers)
  /\ (if hasError t' then Some (errorMessage t') else None)
     = match last (omap complaint answers) with
       | Some e => Some e
       | None => if hasError t then Some (errorMessage t) else None
       end
  /\ length answers = length (List.filter enabled ls).
Proof.
  cbv zeta. revert t w. induction ls as [|l ls IH]; intros t w.
  - simpl. rewrite orb_false_r. repeat split; try lia.
  - simpl. destruct (enabled l); [|apply IH].
    destruct (svc_getHealth (service l) w) as [r w'] eqn:E. cbn [fst snd].
    match goal with |- context [health_loop _ ls ?t1 w'] =>
      specialize (IH t1 w') end.
    destruct IH as (I1 & I2 & I3 & I4).
    rewrite I3, I1, I2. simpl.
    destruct r as [h|msg]; simpl; [destruct (healthy h) eqn:Hh|]; simpl;
      rewrite ?orb_true_r; repeat split; try lia;
      rewrite ?last_cons;
      try (destruct (last _); reflexivity).
Qed.

(** X11.  The health report of the manager: it is healthy exactly when
    every enabled layer answered and answered healthy (so also when no
    layer is enabled), connected exactly when at least one did, and the
    error it reports is the complaint of the last layer that did not,
    none when all did. *)
Theorem getHealth_aggregates_the_layers (m : Manager V W) (w : W) :
  let answers := health_answers svc_getHealth (layers m) w in
  let report := (getHealth svc_getHealth m w).1 in
  healthy report = forallb answered_healthy answers
  /\ connected report = existsb answered_healthy answers
  /\ error report = last (omap complaint answers).
Proof.
  cbv zeta. unfold getHealth.
  pose proof (health_loop_spec (layers m) (mkTally 0 false "") w)
    as (H1 & H2 & H3 & H4). cbv zeta in *.
  destruct (health_loop svc_getHealth (layers m) _ w) as [t w'].
  cbn [fst snd healthyLayers hasError errorMessage] in *.
  cbn [healthy connected error fst]. rewrite H3, H1, H2, <- H4.
  set (answers := health_answers svc_getHealth (layers m) w). clearbody answers.
  clear. repeat split.
  - induction answers as [|r rs IH]; [reflexivity|].
    simpl. destruct (answered_healthy r); simpl.
    + simpl in IH. exact IH.
    + pose proof (List.filter_length_le answered_healthy rs).
      destruct (Nat.eqb_spec (length (List.filter answered_healthy rs))
                  (S (length rs))); [lia|reflexivity].
  - induction answers as [|r rs IH]; [reflexivity|].
    simpl. destruct (answered_healthy r); simpl; [reflexivity|exact IH].
  - now destruct (last (omap complaint answers)).
Qed.

End HealthMore.

Section ManagerMoreExamples.
Import CacheManagerService ManagerSpec ManagerOps Fixtures Fixtures.Mgr.

(** X2 on the tiers 1 and 2 with empty stores. *)
Lemma get_misses_when_every_layer_misses_witness :
  let k := plain_key "k" in
  all_miss k (getSortedLayers tiers_1_2) [] = Some []
  /\ (get k (mkState tiers_1_2 [] [])).1 = Returned None
  /\ calls (get k (mkState tiers_1_2 [] [])).2
     = [CallGet "layer1" k (Returned None);
        CallGet "layer2" k (Returned None)].
Proof.
  intros k.
  assert (H : all_miss k (getSortedLayers tiers_1_2) [] = Some [])
    by reflexivity.
  split; [exact H|].
  destruct (get_misses_when_every_layer_misses k tiers_1_2 [] [] [] H)
    as (Hres & Hcalls & _).
  split; [exact Hres | exact Hcalls].
Defined.

(** X5 on the tiers 1 and 2, the key being in both. *)
Lemma exists_stops_at_first_layer_that_has_the_key_witness :
  let k := plain_key "k" in
  let w := [("s1", "k", 7); ("s2", "k", 7)] in
  getSortedLayers tiers_1_2 = [] ++ layer1 :: [layer2]
  /\ all_absent k ([] : list (CacheLayerConfig nat Store)) w = Some w
  /\ svc_exists (service layer1) k w = (Returned true, w)
  /\ (exists_ k (mkState tiers_1_2 w [])).1 = Returned true
  /\ calls (exists_ k (mkState tiers_1_2 w [])).2
     = [CallExists "layer1" k (Returned true)].
Proof.
  intros k w.
  assert (H1 : getSortedLayers tiers_1_2 = [] ++ layer1 :: [layer2])
    by reflexivity.
  assert (H2 : all_absent k ([] : list (CacheLayerConfig nat Store)) w
               = Some w) by reflexivity.
  assert (H3 : svc_exists (service layer1) k w = (Returned true, w))
    by reflexivity.
  split; [exact H1|]. split; [exact H2|]. split; [exact H3|].
  destruct (exists_stops_at_first_layer_that_has_the_key
              k tiers_1_2 w w w [] [] [layer2] layer1 H1 H2 H3)
    as (Hres & Hcalls & _).
  split; [exact Hres | exact Hcalls].
Defined.

(** X6 on a writable and a read-only tier: the one call of [clear]
    goes to the writable tier. *)
Lemma disabled_and_read_only_layers_are_left_alone_witness :
  let s := mkState normal_and_readonly [] [] in
  let l := mkLayer "normal" 1 (memory_store "s1") None true false false in
  let c := CallClear "normal" None (Returned true) : Call nat in
  names_unique (mgr s)
  /\ In l (layers (mgr s))
  /\ In c (new_calls s (after (OpClear None) s))
  /\ call_target c = name l
  /\ enabled l = true
  /\ (is_write c = true -> readOnly l = false).
Proof.
  intros s l c.
  assert (H1 : names_unique (mgr s)).
  { unfold names_unique. cbn.
    apply NoDup_cons. split; [|apply NoDup_singleton].
    intros H. apply list_elem_of_singleton in H. discriminate H. }
  assert (H2 : In l (layers (mgr s))) by (left; reflexivity).
  assert (H3 : In c (new_calls s (after (OpClear None) s)))
    by (left; reflexivity).
  assert (H4 : call_target c = name l) by reflexivity.
  split; [exact H1|]. split; [exact H2|]. split; [exact H3|].
  split; [exact H4|].
  exact (disabled_and_read_only_layers_are_left_alone
           (OpClear None) s l c H1 H2 H3 H4).
Defined.

(** A switched-off tier is skipped by [set], which then reaches the
    other tier only. *)
Example set_skips_switched_off_layer :
  calls (set (plain_key "k") 7 None
           (mkState (enableLayer "layer1" false tiers_1_2).2 [] [])).2
  = [CallSet "layer2" (plain_key "k") 7
       (Some (spread None (Some (spread None None)))) (Returned true)].
Proof. reflexivity. Qed.

End ManagerMoreExamples.

(** ** More on the invalidation service *)

Section InvalidationMore.
Import CacheInvalidationService InvalidationSpec InvalidationOps.
Import ManagerOps.
Context {V W A : Type}.
Implicit Types (e : Engine V W) (s : State V W).
Implicit Types (md : list (string * A)).
Implicit Types (svc : ICacheService V W).

(** *** The workers *)


Lemma invalidateNamespaces_spec svc nss (w : W) (tr : list (Call V)) :
  exists new,
    (invalidateNamespaces svc nss w tr).2 = tr ++ new
    /\ map clear_request new = map clear_of nss
    /\ (invalidateNamespaces svc nss w tr).1.1 = kept nss new.
Proof.
  revert w tr. induction nss as [|k ks IH]; intros w tr.
  - exists []. simpl. rewrite app_nil_r. auto.
  - simpl. destruct (svc_clear svc (Some k) w) as [r w'].
    destruct (IH w' (tr ++ [CallClear "" (Some k) r]))
      as (new & Htr & Hreq & Hkeys).
    destruct (invalidateNamespaces svc ks w' _) as [[rest w''] tr''].
    cbn [fst snd] in *.
    exists (CallClear "" (Some k) r :: new).
    destruct r as [[|]|]; cbn [fst snd]; rewrite Htr, <- app_assoc;
      (split; [reflexivity|]); (split; [simpl; now rewrite Hreq|]);
      rewrite Hkeys; reflexivity.
Qed.

Lemma invalidatePrefix_spec svc nss (w : W) (tr : list (Call V)) :
  invalidatePrefix svc nss w tr = invalidateNamespaces svc nss w tr.
Proof.
  revert w tr. induction nss as [|k ks IH]; intros w tr; [reflexivity|].
  simpl. destruct (svc_clear svc (Some k) w) as [r w']. now rewrite IH.
Qed.


Lemma invalidateNamespaces_turn svc nss (w : W) (tr : list (Call V)) :
  (invalidateNamespaces svc nss w tr).2
  = tr ++ (in_turn (clear_target svc) nss w).1
  /\ (invalidateNamespaces svc nss w tr).1.2
     = (in_turn (clear_target svc) nss w).2.
Proof.
  revert w tr. induction nss as [|k ks IH]; intros w tr.
  - simpl. rewrite app_nil_r. auto.
  - cbn [invalidateNamespaces].
    destruct (svc_clear svc (Some k) w) as [r w'] eqn:E.
    assert (Hcall : clear_target svc k w = (CallClear "" (Some k) r, w'))
      by (unfold clear_target; now rewrite E).
    rewrite (ManagerLemmas.in_turn_cons _ _ _ _ _ _ Hcall).
    destruct (IH w' (tr ++ [CallClear "" (Some k) r])) as (Htr & Hw).
    destruct (invalidateNamespaces svc ks w' _) as [[rest w''] tr''].
    cbn [fst snd] in *.
    destruct r as [[|]|]; cbn [fst snd]; rewrite Htr, Hw, <- app_assoc;
      auto.
Qed.







(** X14.  Prefix invalidation is namespace invalidation: with a store
    bound, [invalidate] with strategy [prefix] does what it does with
    strategy [namespace] -- one [clear(target)] per target, in order --
    and returns the same result: the targets whose [clear] resolved
    with [true] are reported as namespaces, no key is deleted one by
    one and [invalidatedKeys] is 0.  The clears are the calls on the
    bound store itself, made in turn from the stores as they are when
    [invalidate] is called: each entry of [new] carries what the store
    answered, and the stores end as the last clear leaves them. *)
Theorem prefix_invalidation_clears_namespaces
  (target : Target) (md : list (string * A)) s svc :
  cacheService (eng s) = Some svc ->
  let clears :=
    in_turn (clear_target svc) (targets_of target) (world s) in
  (invalidate target (Some PREFIX) md s).1
  = (invalidate target (Some NAMESPACE) md s).1
  /\ world (invalidate target (Some PREFIX) md s).2
     = world (invalidate target (Some NAMESPACE) md s).2
  /\ exists r new,
       (invalidate target (Some PREFIX) md s).1 = Returned r
       /\ calls (invalidate target (Some PREFIX) md s).2 = calls s ++ new
       /\ calls (invalidate target (Some NAMESPACE) md s).2
          = calls s ++ new
       /\ map clear_request new = map clear_of (targets_of target)
       /\ success r = true
       /\ namespaces r = kept (targets_of target) new
       /\ invalidatedNamespaces r = length (namespaces r)
       /\ keys r = [] /\ invalidatedKeys r = 0
       /\ new = clears.1
       /\ world (invalidate target (Some PREFIX) md s).2 = clears.2.
Proof.
  intros Hsvc clears. unfold invalidate. rewrite Hsvc.
  fold (targets_of target). unfold dispatch. simpl.
  rewrite invalidatePrefix_spec.
  destruct (invalidateNamespaces_spec svc (targets_of target)
              (world s) (calls s)) as (new & Htr & Hreq & Hkeys).
  destruct (invalidateNamespaces_turn svc (targets_of target)
              (world s) (calls s)) as (Htr' & Hw').
  fold clears in Htr', Hw'.
  destruct (invalidateNamespaces svc (targets_of target) (world s) (calls s))
    as [[nss w'] tr'].
  cbn [fst snd] in *. subst tr' nss. apply app_inv_head in Htr'. subst new.
  split; [reflexivity|]. split; [reflexivity|].
  eexists. exists clears.1. simpl. rewrite Hw'. auto 14.
Qed.

(** X15.  Tag and suffix invalidation never reach the store: with a
    store bound, [invalidate] with strategy [tag] reports every target
    as an invalidated tag and with strategy [suffix] reports nothing,
    both with [success = true], and neither issues a store call, so
    every entry stays cached. *)
Theorem tag_and_suffix_invalidation_remove_nothing
  (target : Target) (md : list (string * A)) s svc :
  cacheService (eng s) = Some svc ->
  (exists r,
      (invalidate target (Some TAG) md s).1 = Returned r
      /\ success r = true
      /\ tags r = targets_of target
      /\ invalidatedTags r = length (targets_of target)
      /\ invalidatedKeys r = 0
      /\ calls (invalidate target (Some TAG) md s).2 = calls s
      /\ world (invalidate target (Some TAG) md s).2 = world s)
  /\ (exists r,
        (invalidate target (Some SUFFIX) md s).1 = Returned r
        /\ success r = true
        /\ (keys r, namespaces r, tags r) = ([], [], [])
        /\ calls (invalidate target (Some SUFFIX) md s).2 = calls s
        /\ world (invalidate target (Some SUFFIX) md s).2 = world s).
Proof.
  intros Hsvc. unfold invalidate. rewrite Hsvc.
  fold (targets_of target). simpl.
  split; eexists; (split; [reflexivity|]); simpl; auto 10.
Qed.

(** *** Statistics and rules *)

Lemma rules_emitEvent type e : rules (emitEvent type e) = rules e.
Proof. unfold emitEvent. destruct (enableEvents e); reflexivity. Qed.

Lemma cacheService_emitEvent type e :
  cacheService (emitEvent type e) = cacheService e.
Proof. unfold emitEvent. destruct (enableEvents e); reflexivity. Qed.

Lemma invalidate_keeps_rules {B : Type}
  (target : Target) (strategy : option string)
  (md : list (string * B)) s :
  rules (eng (invalidate target strategy md s).2) = rules (eng s).
Proof.
  unfold invalidate, caught.
  destruct (cacheService (eng s)) as [svc|];
    [destruct (dispatch _ _ _ _ _ _) as [[[[[ks nss] tgs] w] tr]|]|];
    simpl; now rewrite rules_emitEvent.
Qed.

(** X16.  What one call of [invalidate] does to the service: it never
    throws; it adds the number of keys it reports to
    [totalInvalidatedKeys] (nothing for namespaces and tags, nothing
    when it fails), refreshes [activeRules] to the number of enabled
    rules, and changes neither the rules nor the bound store
    service. *)
Theorem invalidate_updates_statistics
  (target : Target) (strategy : option string)
  (md : list (string * A)) s :
  exists r,
    (invalidate target strategy md s).1 = Returned r
    /\ totalInvalidatedKeys (stats (eng (invalidate target strategy md s).2))
       = totalInvalidatedKeys (stats (eng s)) + invalidatedKeys r
    /\ activeRules (stats (eng (invalidate target strategy md s).2))
       = count_enabled (rules (eng s))
    /\ rules (eng (invalidate target strategy md s).2) = rules (eng s)
    /\ cacheService (eng (invalidate target strategy md s).2)
       = cacheService (eng s).
Proof.
  unfold invalidate, caught.
  destruct (cacheService (eng s)) as [svc|] eqn:Hsvc.
  - destruct (dispatch _ _ _ _ _ _) as [[[[[ks nss] tgs] w] tr]|];
      eexists; (split; [reflexivity|]); simpl;
      rewrite stats_emitEvent, rules_emitEvent, cacheService_emitEvent;
      simpl; auto.
  - eexists; (split; [reflexivity|]); simpl;
      rewrite stats_emitEvent, rules_emitEvent, cacheService_emitEvent;
      simpl; auto.
Qed.

Lemma step_triggerUsage s (op : Op V W) :
  triggerUsage (stats (eng (step s op))) = triggerUsage (stats (eng s))
  \/ triggerUsage (stats (eng (step s op))) = triggerUsage initializeStats.
Proof.
  destruct op; simpl; auto.
  - left. unfold addRule. simpl. now rewrite stats_emitEvent.
  - left. unfold removeRule. destruct (rules (eng s) !! ruleId); simpl;
      [now rewrite stats_emitEvent|reflexivity].
  - left. unfold updateRule. destruct (rules (eng s) !! ruleId); simpl;
      [now rewrite stats_emitEvent|reflexivity].
  - left. unfold invalidate, caught.
    destruct (cacheService (eng s)) as [svc|];
      [destruct (dispatch _ _ _ _ _ _) as [[[[[ks nss] tgs] w] tr]|]|];
      simpl; now rewrite stats_emitEvent.
  - left. destruct (invalidateByRule_cases ruleId context s)
      as [-> | (rule & _ & _ & ->)]; [reflexivity|].
    unfold invalidate, caught.
    destruct (cacheService (eng s)) as [svc|];
      [destruct (dispatch _ _ _ _ _ _) as [[[[[ks nss] tgs] w] tr]|]|];
      simpl; now rewrite stats_emitEvent.
Qed.

(** X17.  The usage per trigger is never counted: after every sequence
    of calls of the public methods on a new service, [triggerUsage]
    still is the table of zeros the constructor made, whatever
    triggers the rules that were run have. *)
Theorem trigger_usage_is_never_counted
  (ops : list (Op V W)) (defaultStrategy : string) (batchSize : nat)
  (enableEvents : bool) (w : W) (t : string) :
  triggerUsage
    (stats (eng (run ops
                   (mkState (new_engine defaultStrategy batchSize
                               enableEvents) w []))))
  !! t
  = if bool_decide (t ∈ InvalidationTrigger_values) then Some 0 else None.
Proof.
  assert (H : forall ops s,
             triggerUsage (stats (eng s)) = triggerUsage initializeStats ->
             triggerUsage (stats (eng (run ops s)))
             = triggerUsage initializeStats).
  { clear. induction ops as [|op ops IH]; intros s Hs; [exact Hs|].
    simpl. apply IH. destruct (step_triggerUsage s op) as [-> | ->]; auto. }
  rewrite H by reflexivity. clear H.
  unfold initializeStats, InvalidationTrigger_values. simpl.
  repeat match goal with
    | |- context [<[?k := _]> _ !! t] =>
        destruct (decide (k = t)) as [<- | ?];
        [rewrite lookup_insert; vm_compute; reflexivity
        |rewrite lookup_insert_ne by assumption]
    end.
  rewrite lookup_empty.
  rewrite bool_decide_eq_false_2; [reflexivity|].
  rewrite !elem_of_cons, elem_of_nil. intuition congruence.
Qed.

Lemma context_decides_nothing
  {C : Type} (ruleId : string) (context context' : C) s :
  (invalidateByRule ruleId context s).2
  = (invalidateByRule ruleId context' s).2
  /\ same_answer_but_metadata (invalidateByRule ruleId context s).1
       (invalidateByRule ruleId context' s).1
  /\ (forall r, (invalidateByRule ruleId context s).1 = Returned r ->
                error r <> Some "Condition not met")
  /\ (forall r members,
        (invalidateByRule ruleId context s).1 = Returned r ->
        metadata r = Some members ->
        exists rule,
          rules (eng s) !! ruleId = Some rule
          /\ members
             = [("ruleId", RuleText ruleId);
                ("ruleName", RuleText (name rule));
                ("context", RuleContext context)]).
Proof.
  assert (Hsettle : forall (o o' : outcome (InvalidationResult
                                               (RuleMetadata C))) s',
             o = o' ->
             (forall r, o = Returned r ->
                        error r <> Some "Condition not met"
                        /\ metadata r = None) ->
             (o, s').2 = (o', s').2
             /\ same_answer_but_metadata (o, s').1 (o', s').1
             /\ (forall r, (o, s').1 = Returned r ->
                           error r <> Some "Condition not met")
             /\ (forall r members,
                   (o, s').1 = Returned r ->
                   metadata r = Some members ->
                   exists rule0,
                     rules (eng s) !! ruleId = Some rule0
                     /\ members
                        = [("ruleId", RuleText ruleId);
                           ("ruleName", RuleText (name rule0));
                           ("context", RuleContext context)])).
  { intros o o' s' <- Hr. cbn [fst snd]. split; [reflexivity|].
    split; [destruct o; reflexivity|]. split.
    - intros r Ho. exact (proj1 (Hr r Ho)).
    - intros r members Ho Hm. rewrite (proj2 (Hr r Ho)) in Hm.
      discriminate. }
  unfold invalidateByRule, getRule.
  destruct (rules (eng s) !! ruleId) as [rule|] eqn:Hrule;
    [|apply Hsettle; [reflexivity | intros r [=]]].
  destruct (enabled rule); unfold evaluateCondition; cbn [negb];
    [|apply Hsettle; [reflexivity|]; intros r [= <-]; split;
      [discriminate | reflexivity]].
  rewrite !andb_false_r.
  destruct (match dependencies rule with Some _ => _ | None => _ end);
    [apply Hsettle; [reflexivity|]; intros r [= <-]; split;
     [discriminate | reflexivity]|].
  clear Hsettle. unfold invalidate, caught.
  destruct (cacheService (eng s)) as [svc|];
    [destruct (dispatch _ _ _ _ _ _) as [[[[[ks nss] tgs] w] tr]|]|];
    cbn [fst snd]; (split; [reflexivity|]);
    (split; [reflexivity|]);
    (split; [intros r [= <-]; discriminate|]);
    intros r members [= <-] [= <-]; exists rule; auto.
Qed.

(** X18.  The condition of a rule never blocks it, and the context
    decides nothing: whatever context [invalidateByRule] is given, it
    leaves the service, the store and the list of store operations in
    the same state and ends the same way -- it throws the same error
    or returns a result with the same counts, lists, [success] and
    [error] -- and it never answers [Condition not met], whatever the
    rule's condition says: an enabled rule whose dependencies are met
    is handed to [invalidate] with its pattern and strategy, with or
    without a condition.  The context shows in one place only: a
    result that carries metadata carries the rule's id and name and
    the context as it was given. *)
Theorem condition_never_blocks_a_rule
  {C : Type} (ruleId : string) (context context' : C) s :
  (invalidateByRule ruleId context s).2
  = (invalidateByRule ruleId context' s).2
  /\ same_answer_but_metadata (invalidateByRule ruleId context s).1
       (invalidateByRule ruleId context' s).1
  /\ (forall r, (invalidateByRule ruleId context s).1 = Returned r ->
                error r <> Some "Condition not met")
  /\ (forall r members,
        (invalidateByRule ruleId context s).1 = Returned r ->
        metadata r = Some members ->
        exists rule,
          rules (eng s) !! ruleId = Some rule
          /\ members
             = [("ruleId", RuleText ruleId);
                ("ruleName", RuleText (name rule));
                ("context", RuleContext context)])
  /\ (forall rule,
        rules (eng s) !! ruleId = Some rule ->
        enabled rule = true -> dependencies_met s rule ->
        invalidateByRule ruleId context s
        = invalidate (One (pattern rule)) (Some (strategy rule))
            [("ruleId", RuleText ruleId);
             ("ruleName", RuleText (name rule));
             ("context", RuleContext context)] s).
Proof.
  destruct (context_decides_nothing ruleId context context' s)
    as (H1 & H2 & H3 & H4).
  split; [exact H1|]. split; [exact H2|]. split; [exact H3|].
  split; [exact H4|].
  intros rule Hrule Hon Hdeps.
  destruct (invalidateByRule_by_rule ruleId context s) as [_ H].
  destruct (H rule Hrule) as (_ & _ & Hmet). exact (Hmet Hon Hdeps).
Qed.

Lemma step_ids_are_keys s (op : Op V W) :
  ids_are_keys (eng s) -> ids_are_keys (eng (step s op)).
Proof.
  unfold ids_are_keys, getRule. intros Hs.
  destruct op; cbn [step with_eng eng]; try exact Hs.
  - unfold addRule. cbn [snd]. rewrite rules_emitEvent. cbn [with_rules rules].
    intros k r Hk. apply lookup_insert_Some in Hk as [[<- <-] | [_ Hk]];
      [reflexivity | eauto].
  - unfold removeRule. destruct (rules (eng s) !! ruleId); cbn [snd];
      [|exact Hs].
    rewrite rules_emitEvent. cbn [with_rules rules].
    intros k r Hk. apply lookup_delete_Some in Hk as [_ Hk]. eauto.
  - unfold updateRule.
    destruct (rules (eng s) !! ruleId) as [old|] eqn:Hold; cbn [snd];
      [|exact Hs].
    rewrite rules_emitEvent. cbn [with_rules rules].
    intros k r Hk. apply lookup_insert_Some in Hk as [[<- <-] | [_ Hk]];
      [cbn [id]; eauto | eauto].
  - rewrite invalidate_keeps_rules. exact Hs.
  - destruct (invalidateByRule_cases ruleId context s)
      as [-> | (rule & _ & _ & ->)]; [exact Hs|].
    rewrite invalidate_keeps_rules. exact Hs.
Qed.

(** X19.  Rules are stored under their own id: after every sequence of
    calls of the public methods on a new service, a rule that
    [getRule(k)] returns has [id = k] -- the id given to [addRule] or
    the generated one, and no update changes it. *)
Theorem stored_rule_id_is_its_key
  (ops : list (Op V W)) (defaultStrategy : string) (batchSize : nat)
  (enableEvents : bool) (w : W) (k : string) (r : InvalidationRule) :
  getRule k
    (eng (run ops
            (mkState (new_engine defaultStrategy batchSize enableEvents)
               w [])))
  = Some r ->
  id r = k.
Proof.
  assert (H : forall ops s, ids_are_keys (eng s) ->
                            ids_are_keys (eng (run ops s))).
  { clear. induction ops as [|op ops IH]; intros s Hs; [exact Hs|].
    simpl. apply IH, step_ids_are_keys, Hs. }
  apply H. intros k' r'. unfold getRule. simpl.
  rewrite lookup_empty. discriminate.
Qed.

End InvalidationMore.

Section InvalidationMoreExamples.
Import CacheInvalidationService InvalidationSpec InvalidationOps.
Import Fixtures Fixtures.Inv.


(** Exact invalidation on the same store: the key that is there is
    reported, the other is passed over. *)
Example exact_invalidation_reports_deleted_keys :
  let s := mkState bound two_keys [] in
  (invalidate (Many ["ns1:k1"; "ns1:gone"]) None no_metadata s).1
  = Returned
      (mkResult 1 0 0 ["ns1:k1"] [] [] true None (Some []))
  /\ world (invalidate (Many ["ns1:k1"; "ns1:gone"]) None no_metadata s).2
     = [("s1", "ns2:k2", 2)].
Proof. vm_compute. auto. Qed.

(** X14 on a store with two namespaces. *)
Lemma prefix_invalidation_clears_namespaces_witness :
  let s := mkState bound two_keys [] in
  cacheService (eng s) = Some (memory_store "s1")
  /\ (invalidate (One "ns1") (Some PREFIX) no_metadata s).1
     = (invalidate (One "ns1") (Some NAMESPACE) no_metadata s).1
  /\ world (invalidate (One "ns1") (Some PREFIX) no_metadata s).2
     = world (invalidate (One "ns1") (Some NAMESPACE) no_metadata s).2
  /\ calls (invalidate (One "ns1") (Some PREFIX) no_metadata s).2
     = [CallClear "" (Some "ns1") (Returned true)]
  /\ world (invalidate (One "ns1") (Some PREFIX) no_metadata s).2
     = [("s1", "ns2:k2", 2)].
Proof.
  intros s.
  assert (H1 : cacheService (eng s) = Some (memory_store "s1"))
    by reflexivity.
  split; [exact H1|].
  destruct (prefix_invalidation_clears_namespaces (One "ns1") no_metadata
              s _ H1)
    as (Hr & Hw & r & new & _ & Hc & _ & _ & _ & _ & _ & _ & _ & Hn & Hw').
  split; [exact Hr|]. split; [exact Hw|]. split; [|exact Hw'].
  rewrite Hc, Hn. reflexivity.
Defined.

(** X15 on a store with two keys. *)
Lemma tag_and_suffix_invalidation_remove_nothing_witness :
  let s := mkState bound two_keys [] in
  cacheService (eng s) = Some (memory_store "s1")
  /\ world (invalidate (One "t1") (Some TAG) no_metadata s).2 = two_keys
  /\ world (invalidate (One ":k1") (Some SUFFIX) no_metadata s).2 = two_keys.
Proof.
  intros s.
  assert (H1 : cacheService (eng s) = Some (memory_store "s1"))
    by reflexivity.
  split; [exact H1|].
  destruct (tag_and_suffix_invalidation_remove_nothing (One "t1")
              no_metadata s _ H1)
    as ((r & _ & _ & _ & _ & _ & _ & Hw) & _).
  destruct (tag_and_suffix_invalidation_remove_nothing (One ":k1")
              no_metadata s _ H1)
    as (_ & (r' & _ & _ & _ & _ & Hw')).
  split; [exact Hw | exact Hw'].
Defined.

(** X19 on a rule added without an id: it is found under the generated
    one. *)
Lemma stored_rule_id_is_its_key_witness :
  let ops :=
    [OpAddRule
       (mkRuleInput None "rule" NAMESPACE "ns1" "manual" true 1 None None)
       "uuid-1" : Op nat Store] in
  let r := mkRule "uuid-1" "rule" NAMESPACE "ns1" "manual" true 1 None None in
  getRule "uuid-1" (eng (run ops (mkState (new_engine EXACT 100 true) [] [])))
  = Some r
  /\ id r = "uuid-1".
Proof.
  intros ops r.
  assert (H1 : getRule "uuid-1"
                 (eng (run ops (mkState (new_engine EXACT 100 true) [] [])))
               = Some r) by reflexivity.
  split; [exact H1|].
  exact (stored_rule_id_is_its_key ops EXACT 100 true [] "uuid-1" r H1).
Defined.

(** X18 on a rule with a condition: the context changes the metadata
    of the result and nothing else; left out, it is handed on as
    [undefined]. *)
Example context_is_handed_on_in_metadata :
  let s := mkState with_both_enabled two_keys [] in
  let given := Some [("a", "b")] in
  (invalidateByRule "r2" given s).1
  = Returned
      (mkResult 1 0 0 ["ns2:k2"] [] [] true None
         (Some [("ruleId", RuleText "r2"); ("ruleName", RuleText "second");
                ("context", RuleContext given)]))
  /\ (invalidateByRule "r2" no_context s).1
     = Returned
         (mkResult 1 0 0 ["ns2:k2"] [] [] true None
            (Some [("ruleId", RuleText "r2");
                   ("ruleName", RuleText "second");
                   ("context", RuleContext None)]))
  /\ (invalidateByRule "r2" given s).2
     = (invalidateByRule "r2" no_context s).2.
Proof. vm_compute. auto. Qed.

(** The usage per strategy: a supported strategy is counted up; a
    strategy that is the name of a member every object inherits is
    not [undefined] in the table and becomes [NaN]; [__proto__] and any
    other string leave the table as it is. *)
Example usage_of_an_inherited_member_name :
  let s := mkState bound two_keys [] in
  let after strategy :=
    strategyUsage
      (stats (eng (invalidate (One "k") (Some strategy) no_metadata s).2)) in
  after EXACT !! EXACT = Some (Counted 1)
  /\ strategyUsage (stats (eng s)) !! "constructor" = None
  /\ after "constructor" !! "constructor" = Some NotANumber
  /\ after "__proto__" !! "__proto__" = None
  /\ after "unsupported" !! "unsupported" = None.
Proof. vm_compute. auto. Qed.

End InvalidationMoreExamples.

(** ** More on the key factory *)

Module KeyFactoryMore.
Import Js CacheKeyFactory CacheKeySpec KeyLemmas KeyRoundTrip.
Import CacheKeyPatterns.

(** *** Sanitizers *)

Lemma trim_start_clean cls s :
  (forall c, cls c = true -> is_space c = false) ->
  all_chars cls s = true -> trim_start s = s.
Proof.
  intros Hcls. destruct s as [|c s]; [reflexivity|]. simpl.
  intros H. apply andb_prop in H as [Hc _]. now rewrite (Hcls _ Hc).
Qed.

Lemma trim_end_clean cls s :
  (forall c, cls c = true -> is_space c = false) ->
  all_chars cls s = true -> trim_end s = s.
Proof.
  intros Hcls. induction s as [|c s IH]; [reflexivity|]. simpl.
  intros H. apply andb_prop in H as [Hc Hs]. rewrite (IH Hs).
  destruct s; [now rewrite (Hcls _ Hc)|reflexivity].
Qed.

Lemma trim_clean cls s :
  (forall c, cls c = true -> is_space c = false) ->
  all_chars cls s = true -> trim s = s.
Proof.
  intros Hcls Hs. unfold trim.
  rewrite (trim_start_clean cls s Hcls Hs). apply (trim_end_clean cls s Hcls Hs).
Qed.

Lemma replace_outside_clean cls s :
  all_chars cls s = true -> replace_outside cls s = s.
Proof.
  unfold replace_outside. induction s as [|c s IH]; [reflexivity|]. simpl.
  intros H. apply andb_prop in H as [Hc Hs]. now rewrite Hc, (IH Hs).
Qed.

Lemma map_chars_fixed f s cls :
  (forall c, cls c = true -> f c = c) ->
  all_chars cls s = true -> map_chars f s = s.
Proof.
  intros Hf. induction s as [|c s IH]; [reflexivity|]. simpl.
  intros H. apply andb_prop in H as [Hc Hs]. now rewrite (Hf _ Hc), (IH Hs).
Qed.

Lemma key_char_no_space c : key_char c = true -> is_space c = false.
Proof. destruct c as [[] [] [] [] [] [] [] []]; try reflexivity; discriminate. Qed.

Lemma id_char_no_space c : id_char c = true -> is_space c = false.
Proof. destruct c as [[] [] [] [] [] [] [] []]; try reflexivity; discriminate. Qed.

Lemma id_char_key_char c : id_char c = true -> key_char c = true.
Proof. destruct c as [[] [] [] [] [] [] [] []]; try reflexivity; discriminate. Qed.

Lemma namespace_char_key_char c : namespace_char c = true -> key_char c = true.
Proof. unfold namespace_char. intros H. now apply andb_prop in H as [H _]. Qed.

Lemma namespace_char_lower c : namespace_char c = true -> lower_char c = c.
Proof.
  destruct c as [[] [] [] [] [] [] [] []]; try reflexivity; discriminate.
Qed.

Lemma key_class_clean c : key_char (if key_char c then c else "_"%char) = true.
Proof. all_ascii c. Qed.

Lemma id_class_clean c : id_char (if id_char c then c else "_"%char) = true.
Proof. all_ascii c. Qed.

Lemma namespace_class_clean c :
  namespace_char (lower_char (if key_char c then c else "_"%char)) = true.
Proof. all_ascii c. Qed.

Lemma nonempty_false s : nonempty s = false -> s = "".
Proof. destruct s; [reflexivity|discriminate]. Qed.

Lemma nonempty_true s : nonempty s = true -> s <> "".
Proof. destruct s; [discriminate|discriminate]. Qed.

Lemma sanitizeKey_sanitizes k : sanitizes_to sanitizeKey key_char k.
Proof.
  unfold sanitizes_to, sanitizeKey.
  destruct (nonempty k) eqn:Hk; simpl;
    [|apply nonempty_false in Hk; now subst k].
  set (s := replace_outside key_char (trim k)).
  assert (Hclean : all_chars key_char s = true)
    by apply all_chars_map_chars, key_class_clean.
  rewrite length_zero_nonempty.
  destruct (nonempty s) eqn:Hs; simpl.
  - split; [|split; [split; assumption|]].
    + subst s. unfold replace_outside in Hs.
      rewrite map_chars_nonempty in Hs. now apply nonempty_true.
    + rewrite Hs. simpl.
      rewrite (trim_clean _ _ key_char_no_space Hclean).
      rewrite (replace_outside_clean _ _ Hclean).
      rewrite length_zero_nonempty, Hs. reflexivity.
  - subst s. unfold replace_outside in Hs.
    rewrite map_chars_nonempty in Hs. now apply nonempty_false.
Qed.

Lemma sanitizeId_sanitizes k : sanitizes_to sanitizeId id_char k.
Proof.
  unfold sanitizes_to, sanitizeId.
  destruct (nonempty k) eqn:Hk; simpl;
    [|apply nonempty_false in Hk; now subst k].
  set (s := replace_outside id_char (trim k)).
  assert (Hclean : all_chars id_char s = true)
    by apply all_chars_map_chars, id_class_clean.
  rewrite length_zero_nonempty.
  destruct (nonempty s) eqn:Hs; simpl.
  - split; [|split; [split; assumption|]].
    + subst s. unfold replace_outside in Hs.
      rewrite map_chars_nonempty in Hs. now apply nonempty_true.
    + rewrite Hs. simpl.
      rewrite (trim_clean _ _ id_char_no_space Hclean).
      rewrite (replace_outside_clean _ _ Hclean).
      rewrite length_zero_nonempty, Hs. reflexivity.
  - subst s. unfold replace_outside in Hs.
    rewrite map_chars_nonempty in Hs. now apply nonempty_false.
Qed.

Lemma sanitizeNamespace_sanitizes k :
  sanitizes_to sanitizeNamespace namespace_char k.
Proof.
  unfold sanitizes_to, sanitizeNamespace.
  destruct (nonempty k) eqn:Hk; simpl;
    [|apply nonempty_false in Hk; now subst k].
  set (s := replace_outside key_char (trim k)).
  rewrite length_zero_nonempty.
  assert (Hclean : all_chars namespace_char (toLowerCase s) = true).
  { subst s. unfold toLowerCase, replace_outside. rewrite map_chars_compose.
    apply all_chars_map_chars, namespace_class_clean. }
  assert (Hkey : all_chars key_char (toLowerCase s) = true)
    by (eapply all_chars_impl; [apply namespace_char_key_char|exact Hclean]).
  destruct (nonempty s) eqn:Hs; simpl.
  - assert (Hl : nonempty (toLowerCase s) = true)
      by (unfold toLowerCase; now rewrite map_chars_nonempty).
    split; [|split; [split; assumption|]].
    + subst s. unfold replace_outside in Hs.
      rewrite map_chars_nonempty in Hs. now apply nonempty_true.
    + rewrite Hl. simpl.
      rewrite (trim_clean _ _ key_char_no_space Hkey).
      rewrite (replace_outside_clean _ _ Hkey).
      rewrite length_zero_nonempty, Hl. simpl. f_equal.
      apply (map_chars_fixed _ _ namespace_char);
        [apply namespace_char_lower|exact Hclean].
  - subst s. unfold replace_outside in Hs.
    rewrite map_chars_nonempty in Hs. now apply nonempty_false.
Qed.

(** X20.  The three sanitizers, on the strings of the model (code
    units below 256, where [trim] removes the codes 9 to 13, the space
    and the no-break space): each throws exactly on the strings that
    are blank after trimming; on every other string it returns a
    non-empty string of its character class (letters, digits, [-],
    [_], and [.] for keys and namespaces, which come out in lower case)
    -- so never one with a [:] or a [,] -- and sanitizing that string
    again changes nothing. *)
Theorem sanitizers_are_idempotent (k : string) :
  sanitizes_to sanitizeKey key_char k
  /\ sanitizes_to sanitizeNamespace namespace_char k
  /\ sanitizes_to sanitizeId id_char k.
Proof.
  split; [apply sanitizeKey_sanitizes|].
  split; [apply sanitizeNamespace_sanitizes | apply sanitizeId_sanitizes].
Qed.

(** *** Tags *)

Lemma existsb_streq x (seen : list string) :
  existsb (streq x) seen = true <-> In x seen.
Proof.
  rewrite existsb_exists. split.
  - intros (y & Hy & E). apply String.eqb_eq in E. now subst.
  - intros H. exists x. split; [exact H|apply String.eqb_refl].
Qed.

Lemma dedup_first_NoDup seen l :
  List.NoDup (dedup_first seen l)
  /\ forall x, In x (dedup_first seen l) -> ~ In x seen.
Proof.
  revert seen. induction l as [|y l IH]; intros seen; simpl.
  - split; [constructor|tauto].
  - destruct (existsb (streq y) seen) eqn:E; [apply IH|].
    destruct (IH (y :: seen)) as [Hnd Hout]. split.
    + constructor; [|exact Hnd]. intros Hy. apply (Hout _ Hy). now left.
    + intros x [<- | Hx].
      * intros Hin. apply existsb_streq in Hin. congruence.
      * intros Hin. apply (Hout _ Hx). now right.
Qed.

Lemma dedup_first_fixed seen l :
  List.NoDup l -> (forall x, In x l -> ~ In x seen) ->
  dedup_first seen l = l.
Proof.
  revert seen. induction l as [|y l IH]; intros seen Hnd Hout; [reflexivity|].
  simpl. inversion Hnd as [|? ? Hy Hl]; subst.
  destruct (existsb (streq y) seen) eqn:E.
  - apply existsb_streq in E. exfalso. apply (Hout y); [now left|exact E].
  - f_equal. apply IH; [exact Hl|].
    intros x Hx [<- | Hin]; [contradiction|].
    apply (Hout x); [now right|exact Hin].
Qed.

Lemma sanitizeTags_clean ts :
  List.Forall (clean id_char) (sanitizeTags ts).
Proof.
  apply List.Forall_forall. intros x Hx.
  apply dedup_first_In in Hx. apply in_map_iff in Hx as [y [<- Hy]].
  apply filter_In in Hy as [_ Hy]. split.
  - unfold replace_outside. rewrite map_chars_nonempty. exact Hy.
  - apply all_chars_map_chars, id_class_clean.
Qed.

Lemma map_fixed {A} (f : A -> A) (P : A -> Prop) l :
  (forall x, P x -> f x = x) -> List.Forall P l -> map f l = l.
Proof.
  intros Hf. induction 1 as [|x l Hx Hl IH]; [reflexivity|].
  simpl. now rewrite (Hf _ Hx), IH.
Qed.

Lemma sanitizeTags_of_clean ts :
  List.NoDup ts -> List.Forall (clean id_char) ts -> sanitizeTags ts = ts.
Proof.
  intros Hnd Hclean. unfold sanitizeTags.
  assert (Hne : List.Forall (fun t => nonempty t = true) ts)
    by (eapply List.Forall_impl; [|exact Hclean]; now intros t [H _]).
  rewrite (filter_nonempty_id _ Hne).
  rewrite (map_fixed trim (clean id_char));
    [|intros x [_ Hx]; apply (trim_clean _ _ id_char_no_space Hx)
     |exact Hclean].
  rewrite (filter_nonempty_id _ Hne).
  rewrite (map_fixed (replace_outside id_char) (clean id_char));
    [|intros x [_ Hx]; apply (replace_outside_clean _ _ Hx)|exact Hclean].
  apply dedup_first_fixed; [exact Hnd|]. intros x _ [].
Qed.

(** X21.  On tags that are strings of the model (code units below
    256), [sanitizeTags] returns tags that are non-empty, made of
    letters, digits, [-] and [_] only, and pairwise different; every
    one of them comes from a tag of the input; and sanitizing the
    result again changes nothing. *)
Theorem sanitizeTags_cleans_and_deduplicates (ts : list string) :
  List.Forall (clean id_char) (sanitizeTags ts)
  /\ List.NoDup (sanitizeTags ts)
  /\ (forall t, In t (sanitizeTags ts) ->
        exists t0, In t0 ts /\ t = replace_outside id_char (trim t0))
  /\ sanitizeTags (sanitizeTags ts) = sanitizeTags ts.
Proof.
  split; [apply sanitizeTags_clean|].
  split; [apply dedup_first_NoDup|].
  split.
  - intros t Ht. unfold sanitizeTags in Ht.
    apply dedup_first_In in Ht. apply in_map_iff in Ht as (y & <- & Hy).
    apply filter_In in Hy as [Hy _]. apply in_map_iff in Hy as (t0 & <- & Ht0).
    apply filter_In in Ht0 as [Ht0 _]. eauto.
  - apply sanitizeTags_of_clean;
      [apply dedup_first_NoDup | apply sanitizeTags_clean].
Qed.

(** *** Keys made by the factory *)

Lemma sanitizes_to_Ok f cls k s :
  sanitizes_to f cls k -> f k = Ok s -> f s = Ok s.
Proof. unfold sanitizes_to. intros H E. rewrite E in H. tauto. Qed.

(** X22.  The keys the factory makes are sanitized: whenever [create],
    [createNamespace], [createTenant], [createUser] or [createTagged]
    returns a key (called without further options), every field of
    that key is left as it is by its sanitizer. *)
Theorem created_keys_are_sanitized
  (k ns t u : string) (ts : list string) (ck : CacheKey) :
  create k no_options = Ok ck
  \/ createNamespace ns k no_options = Ok ck
  \/ createTenant t k no_options = Ok ck
  \/ createUser u k no_options = Ok ck
  \/ createTagged k ts no_options = Ok ck ->
  sanitized ck.
Proof.
  unfold createNamespace, createTenant, createUser, createTagged, create.
  pose proof (fun s => sanitizes_to_Ok _ _ k s (sanitizeKey_sanitizes k))
    as Hk.
  pose proof (fun s =>
                sanitizes_to_Ok _ _ ns s (sanitizeNamespace_sanitizes ns))
    as Hn.
  pose proof (fun s => sanitizes_to_Ok _ _ t s (sanitizeId_sanitizes t))
    as Ht.
  pose proof (fun s => sanitizes_to_Ok _ _ u s (sanitizeId_sanitizes u))
    as Hu.
  destruct (sanitizeKey k) as [sk|]; destruct (sanitizeNamespace ns) as [sn|];
    destruct (sanitizeId t) as [st|]; destruct (sanitizeId u) as [su|];
    intros H; repeat destruct H as [H | H]; try discriminate H;
    injection H as <-; unfold sanitized; simpl;
    repeat split; auto;
    apply sanitizeTags_of_clean;
    solve [apply dedup_first_NoDup | apply sanitizeTags_clean].
Qed.

(** X23.  No two keys share a string unless they are the same key: for
    sanitized keys that [parse] reads back without a guess, equal
    serialized strings mean equal keys, up to the order of the tags
    (which [toString] sorts). *)
Theorem toString_tells_unambiguous_keys_apart (k1 k2 : CacheKey) :
  sanitized k1 -> sanitized k2 ->
  unambiguous k1 = true -> unambiguous k2 = true ->
  toString k1 = toString k2 ->
  after_toString k1 = after_toString k2.
Proof.
  intros S1 S2 U1 U2 E. unfold unambiguous in *.
  apply andb_prop in U1 as [U1 K1]. apply andb_prop in U1 as [V1 N1].
  apply andb_prop in U2 as [U2 K2]. apply andb_prop in U2 as [V2 N2].
  destruct (parse_of_toString k1 S1 V1 N1) as [_ P1].
  destruct (parse_of_toString k2 S2 V2 N2) as [_ P2].
  apply negb_true_iff in K1, K2. rewrite K1 in P1. rewrite K2 in P2.
  rewrite <- P1, <- P2, E. reflexivity.
Qed.

(** *** Patterns *)

Lemma pattern_block_kept label f o :
  kept_by f o ->
  pattern_block label f o
  = Ok (if truthy o then [String.append label (default "" o)] else []).
Proof.
  unfold kept_by, pattern_block. destruct o as [s|]; [|reflexivity].
  simpl. intros ->. now destruct (nonempty s).
Qed.

(** X24.  The pattern made from a key's own fields: for a sanitized
    key [k] and any pattern [p], [createPattern(p, k)] is the string of
    [k] with [p] as its key name when [k] has a version, and that
    string behind [v1:] when it has none -- a pattern made without a
    version always starts with the default version, which [toString]
    never adds. *)
Theorem createPattern_of_a_key (p : string) (k : CacheKey) :
  sanitized k ->
  createPattern p (options_of k)
  = Ok (if truthy (version k) then toString (with_key p k)
        else String.append "v1:" (toString (with_key p k))).
Proof.
  intros (_ & Hns & Ht & Hu & Htags).
  unfold createPattern, options_of, toString, toString_parts, with_key.
  cbn [o_namespace o_version o_tenantId o_userId o_tags
       key namespace version tenantId userId tags].
  rewrite (pattern_block_kept "" _ _ Hns).
  rewrite (pattern_block_kept "tenant:" _ _ Ht).
  rewrite (pattern_block_kept "user:" _ _ Hu).
  rewrite Htags. f_equal.
  destruct (truthy (version k)); [reflexivity|].
  unfold DEFAULT_VERSION.
  match goal with |- context [["v1"] ++ ?a ++ ?b ++ ?c ++ ?d ++ [?e]] =>
    change (["v1"] ++ a ++ b ++ c ++ d ++ [e])
      with ("v1" :: (a ++ b ++ c ++ d ++ [e]));
    destruct (a ++ b ++ c ++ d ++ [e]) as [|x rest] eqn:E
  end.
  - exfalso. apply (f_equal (@length string)) in E.
    rewrite !length_app in E. simpl in E. lia.
  - change (if truthy (namespace k) then [default "" (namespace k)] else [])
      with (if truthy (namespace k)
            then [String.append "" (default "" (namespace k))] else []).
    rewrite E. unfold DEFAULT_SEPARATOR. rewrite join_cons. reflexivity.
Qed.

(** X22 on the namespaced key of the factory's tests. *)
Lemma created_keys_are_sanitized_witness :
  let ck := mkCacheKey "test-key" (Some "test-namespace") None None None [] in
  createNamespace "Test-Namespace" "test-key" no_options = Ok ck
  /\ sanitized ck.
Proof.
  intros ck.
  assert (H : createNamespace "Test-Namespace" "test-key" no_options = Ok ck)
    by reflexivity.
  split; [exact H|].
  exact (created_keys_are_sanitized "test-key" "Test-Namespace" "" "" [] ck
           (or_intror (or_introl H))).
Defined.

(** X23 on the key of the factory's tests and the same key with its
    tags in the other order. *)
Lemma toString_tells_unambiguous_keys_apart_witness :
  let k1 := Fixtures.full_key in
  let k2 := mkCacheKey "test-key" (Some "test-namespace") (Some "v2")
              (Some "tenant-123") (Some "user-456") ["tag1"; "tag2"] in
  sanitized k1 /\ sanitized k2
  /\ unambiguous k1 = true /\ unambiguous k2 = true
  /\ toString k1 = toString k2
  /\ after_toString k1 = after_toString k2.
Proof.
  intros k1 k2.
  assert (H1 : sanitized k1) by (repeat split; reflexivity).
  assert (H2 : sanitized k2) by (repeat split; reflexivity).
  assert (H3 : unambiguous k1 = true) by reflexivity.
  assert (H4 : unambiguous k2 = true) by reflexivity.
  assert (H5 : toString k1 = toString k2) by reflexivity.
  split; [exact H1|]. split; [exact H2|]. split; [exact H3|].
  split; [exact H4|]. split; [exact H5|].
  exact (toString_tells_unambiguous_keys_apart k1 k2 H1 H2 H3 H4 H5).
Defined.

(** Without that condition two sanitized keys can share a string: a
    namespace and a version that are the same word. *)
Example keys_that_share_a_string :
  let k1 := Fixtures.video_key in
  let k2 := mkCacheKey "clip" None (Some "video") None None [] in
  sanitized k1 /\ sanitized k2 /\ k1 <> k2
  /\ toString k1 = toString k2.
Proof.
  split; [repeat split; reflexivity|]. split; [repeat split; reflexivity|].
  split; [discriminate|reflexivity].
Qed.

(** X20 and X21 at the no-break space U+00A0, which [trim] removes: a
    string made of it alone is blank for the three sanitizers, and
    around a word it is dropped and not replaced. *)
Example no_break_space_is_trimmed :
  let nbsp := String (ascii_of_nat 160) "" in
  sanitizeKey nbsp = Err "Cache key cannot be empty after sanitization"
  /\ sanitizeNamespace nbsp
     = Err "Namespace cannot be empty after sanitization"
  /\ sanitizeId nbsp = Err "ID cannot be empty after sanitization"
  /\ sanitizeKey (String.append nbsp (String.append "a b" nbsp)) = Ok "a_b"
  /\ sanitizeTags [String.append nbsp "a"; nbsp] = ["a"].
Proof. vm_compute. auto. Qed.

(** X24 on a key without a version. *)
Lemma createPattern_of_a_key_witness :
  let k := mkCacheKey "profile" (Some "users") None (Some "tenant-123")
             None [] in
  sanitized k
  /\ createPattern "user-*" (options_of k)
     = Ok "v1:users:tenant:tenant-123:user-*"
  /\ toString k = "users:tenant:tenant-123:profile".
Proof.
  intros k.
  assert (H : sanitized k) by (repeat split; reflexivity).
  split; [exact H|].
  split; [exact (createPattern_of_a_key "user-*" k H) | reflexivity].
Defined.

End KeyFactoryMore.

(** ** The in-memory store *)

Section MemoryMore.
Import Js CacheInterface CacheKeySpec MemoryCacheService.
Context {V : Type}.
Variable calculateSize : V -> Z.
Implicit Types (m : Memory V) (k : CacheKey).

(** *** The map *)

Lemma smap_get_set {A} (k k' : string) (a : A) (l : list (string * A)) :
  smap_get k' (smap_set k a l)
  = if streq k k' then Some a else smap_get k' l.
Proof.
  unfold smap_get. induction l as [|[x b] l IH]; simpl.
  - now destruct (streq k k').
  - destruct (streq x k) eqn:E; simpl.
    + apply String.eqb_eq in E. subst x. now destruct (streq k k').
    + destruct (streq x k') eqn:E'; simpl.
      * apply String.eqb_eq in E'. subst x. unfold streq in *.
        now rewrite String.eqb_sym, E.
      * exact IH.
Qed.

Lemma smap_get_delete {A} (k k' : string) (l : list (string * A)) :
  smap_get k' (smap_delete k l)
  = if streq k k' then None else smap_get k' l.
Proof.
  unfold smap_get, smap_delete. induction l as [|[x b] l IH]; simpl.
  - now destruct (streq k k').
  - destruct (streq x k) eqn:E; simpl.
    + apply String.eqb_eq in E. subst x. rewrite IH.
      now destruct (streq k k').
    + destruct (streq x k') eqn:E'; simpl; [|exact IH].
      apply String.eqb_eq in E'. subst x. unfold streq in *.
      now rewrite String.eqb_sym, E.
Qed.

Lemma streq_refl s : streq s s = true.
Proof. apply String.eqb_refl. Qed.

Lemma streq_ne s r : s <> r -> streq s r = false.
Proof. intros H. now apply String.eqb_neq. Qed.

(** What a read returns is decided by the map alone. *)
Lemma get_result k now m :
  (get k now m).1
  = match smap_get (toString k) (cache m) with
    | Some entry => if isExpired entry now then None else Some (value entry)
    | None => None
    end.
Proof.
  unfold MemoryCacheService.get.
  destruct (smap_get (toString k) (cache m)) as [e|]; [|reflexivity].
  now destruct (isExpired e now).
Qed.

Lemma exists_result k now m :
  (exists_ k now m).1
  = match smap_get (toString k) (cache m) with
    | Some entry => negb (isExpired entry now)
    | None => false
    end.
Proof.
  unfold MemoryCacheService.exists_.
  destruct (smap_get (toString k) (cache m)) as [e|]; [|reflexivity].
  now destruct (isExpired e now).
Qed.

(** X25.  What was stored is read back until its time to live has run
    out: [set] always answers [true], and a [get] of the same key at
    the time [now'] returns the value stored at [now] unless the time
    to live (the option, else the default of 300000 ms) is positive
    and [now'] is later than [now] plus it; then it returns [null].
    [exists] answers accordingly.  A time to live of 0 or less never
    runs out. *)
Theorem get_after_set_until_expiry
  k (v : V) (options : option CacheOptions) (now created now' : Z) m :
  (set calculateSize k v options now created m).1 = true
  /\ (get k now' (set calculateSize k v options now created m).2).1
     = (if lapsed options now now' then None else Some v)
  /\ (exists_ k now' (set calculateSize k v options now created m).2).1
     = negb (lapsed options now now').
Proof.
  split; [reflexivity|].
  rewrite get_result, exists_result.
  unfold MemoryCacheService.set, lapsed. cbn [snd cache].
  rewrite smap_get_set, streq_refl. unfold isExpired. cbn [expiresAt value].
  destruct (0 <? default defaultTtl (options ≫= opt_ttl))%Z; simpl;
    [|auto].
  destruct (_ <? now')%Z; auto.
Qed.

(** X26.  [delete] answers whether the key was stored (expired or
    not); afterwards the key is neither read nor found, a second
    [delete] answers [false], and the other keys are read as
    before. *)
Theorem delete_removes_the_key_only k (now : Z) m :
  (delete k m).1 = bool_decide (is_Some (smap_get (toString k) (cache m)))
  /\ (get k now (delete k m).2).1 = None
  /\ (exists_ k now (delete k m).2).1 = false
  /\ (delete k (delete k m).2).1 = false
  /\ forall k', toString k' <> toString k ->
                (get k' now (delete k m).2).1 = (get k' now m).1.
Proof.
  assert (Hc : forall k',
             smap_get (toString k') (cache (delete k m).2)
             = if streq (toString k) (toString k') then None
               else smap_get (toString k') (cache m)).
  { intros k'. unfold MemoryCacheService.delete.
    destruct (smap_get (toString k) (cache m)) as [e|] eqn:E; cbn [snd].
    - cbn [with_stats forget cache]. apply smap_get_delete.
    - destruct (streq (toString k) (toString k')) eqn:E'; [|reflexivity].
      apply String.eqb_eq in E'. now rewrite <- E'. }
  split; [|split; [|split; [|split]]].
  - unfold MemoryCacheService.delete.
    now destruct (smap_get (toString k) (cache m)).
  - rewrite get_result, Hc, streq_refl. reflexivity.
  - rewrite exists_result, Hc, streq_refl. reflexivity.
  - pose proof (Hc k) as Hk. rewrite streq_refl in Hk.
    unfold MemoryCacheService.delete at 1. now rewrite Hk.
  - intros k' Hne. rewrite !get_result, Hc, streq_ne by congruence.
    reflexivity.
Qed.

(** *** Clearing a namespace *)

Lemma smap_delete_absent {A} (k0 : string) (l : list (string * A)) :
  smap_get k0 l = None -> smap_delete k0 l = l.
Proof.
  unfold smap_get, smap_delete. induction l as [|x l IH]; [reflexivity|].
  simpl. destruct (streq x.1 k0); simpl; [discriminate|].
  intros H. f_equal. exact (IH H).
Qed.

Lemma filter_after_delete {A} (p : string -> bool) (k0 : string)
  (l : list (string * A)) :
  List.filter (fun ke => negb (p ke.1)) (smap_delete k0 l)
  = List.filter (fun ke => negb (streq ke.1 k0 || p ke.1)) l.
Proof.
  unfold smap_delete. induction l as [|x l IH]; [reflexivity|].
  simpl. destruct (streq x.1 k0); simpl; [exact IH|].
  destruct (negb (p x.1)); [now f_equal|exact IH].
Qed.

Lemma cache_take_out expired keysToDelete m :
  cache (take_out expired keysToDelete m)
  = List.filter
      (fun ke => negb (existsb (fun kd => streq ke.1 kd) keysToDelete))
      (cache m).
Proof.
  revert m. induction keysToDelete as [|kd rest IH]; intros m; simpl.
  - induction (cache m) as [|x l IHl]; [reflexivity|]. simpl. now f_equal.
  - pose proof (filter_after_delete
                  (fun s => existsb (fun kd => streq s kd) rest) kd (cache m))
      as Hf. cbn beta in Hf.
    destruct (smap_get kd (cache m)) as [e|] eqn:E.
    + rewrite IH. cbn [with_stats forget cache]. exact Hf.
    + rewrite IH, <- Hf. now rewrite (smap_delete_absent _ _ E).
Qed.

(** [clear] of a non-empty namespace takes out the entries whose key
    string is parsed with that namespace, and no other. *)
Lemma cache_clear_namespace (ns : string) m :
  nonempty ns = true ->
  cache (clear (Some ns) m).2
  = List.filter
      (fun ke => negb (bool_decide (namespace (parse ke.1) = Some ns)))
      (cache m).
Proof.
  intros Hns. unfold MemoryCacheService.clear. simpl truthy. rewrite Hns.
  cbn [snd recount with_stats cache]. rewrite cache_take_out.
  apply filter_ext_in. intros [key0 e] Hin. f_equal. cbn [fst].
  destruct (bool_decide (namespace (parse key0) = Some ns)) eqn:E.
  - apply existsb_exists. exists key0. split; [|apply streq_refl].
    apply in_map_iff. exists (key0, e). split; [reflexivity|].
    apply filter_In. split; [exact Hin|exact E].
  - apply not_true_is_false. intros H.
    apply existsb_exists in H as (kd & Hkd & Heq).
    apply String.eqb_eq in Heq. cbn in Heq. subst kd.
    apply in_map_iff in Hkd as ([key1 e1] & Hk & Hin1). cbn in Hk. subst key1.
    apply filter_In in Hin1 as [_ Hm]. cbn [fst] in Hm. congruence.
Qed.

Lemma smap_get_filter_keys {A} (p : string -> bool) (k : string)
  (l : list (string * A)) :
  smap_get k (List.filter (fun ke => p ke.1) l)
  = if p k then smap_get k l else None.
Proof.
  unfold smap_get. induction l as [|[x b] l IH]; simpl.
  - now destruct (p k).
  - destruct (streq x k) eqn:E.
    + apply String.eqb_eq in E. subst x.
      destruct (p k) eqn:Hp; simpl; [now rewrite streq_refl|].
      rewrite IH. try rewrite Hp. reflexivity.
    + destruct (p x); simpl; [rewrite E|]; exact IH.
Qed.

Lemma parse_toString_namespace k :
  sanitized k -> unambiguous k = true ->
  namespace (parse (toString k)) = namespace k.
Proof.
  intros Hs Hu. unfold unambiguous in Hu.
  apply andb_prop in Hu as [Hu Hk]. apply andb_prop in Hu as [Hv Hn].
  destruct (KeyRoundTrip.parse_of_toString k Hs Hv Hn) as [_ Hp].
  apply negb_true_iff in Hk. rewrite Hk in Hp. now rewrite Hp.
Qed.

(** X27.  Clearing a namespace and the key factory: after
    [clear(ns)] the store no longer returns any key of the namespace
    [ns] -- for the sanitized keys that [parse] reads back without a
    guess, since the store finds the namespace of an entry by parsing
    its key string -- and it returns the keys of every other namespace
    as before. *)
Theorem clear_namespace_removes_its_keys k (ns : string) (now : Z) m :
  sanitized k -> unambiguous k = true -> namespace k = Some ns ->
  (get k now (clear (Some ns) m).2).1 = None
  /\ forall k',
       sanitized k' -> unambiguous k' = true -> namespace k' <> Some ns ->
       (get k' now (clear (Some ns) m).2).1 = (get k' now m).1.
Proof.
  intros Hs Hu Hns.
  assert (Hne : nonempty ns = true).
  { destruct Hs as (_ & Hn & _). rewrite Hns in Hn.
    now apply KeyLemmas.sanitizeNamespace_fixed in Hn as [Hn _]. }
  assert (Hget : forall k0,
             smap_get (toString k0) (cache (clear (Some ns) m).2)
             = if negb (bool_decide
                          (namespace (parse (toString k0)) = Some ns))
               then smap_get (toString k0) (cache m) else None).
  { intros k0. rewrite (cache_clear_namespace ns m Hne).
    exact (smap_get_filter_keys
             (fun s => negb (bool_decide (namespace (parse s) = Some ns)))
             (toString k0) (cache m)). }
  split.
  - rewrite get_result, Hget, (parse_toString_namespace k Hs Hu), Hns.
    now rewrite bool_decide_eq_true_2.
  - intros k' Hs' Hu' Hns'.
    rewrite !get_result, Hget, (parse_toString_namespace k' Hs' Hu').
    now rewrite bool_decide_eq_false_2.
Qed.

(** *** Capacity *)













End MemoryMore.

Section MemoryExamples.
Import Js CacheInterface CacheKeySpec MemoryCacheService Fixtures.

(** X27 on a store that holds a key of the namespace and one of
    another. *)
Lemma clear_namespace_removes_its_keys_witness :
  let k := mkCacheKey "k1" (Some "ns1") None None None [] in
  let other := mkCacheKey "k2" (Some "ns2") None None None [] in
  let m :=
    (set (fun _ : nat => 1%Z) other 2 None 0 0
       (set (fun _ : nat => 1%Z) k 1 None 0 0 new_memory).2).2 in
  sanitized k /\ unambiguous k = true /\ namespace k = Some "ns1"
  /\ (get k 5 m).1 = Some 1
  /\ (get k 5 (clear (Some "ns1") m).2).1 = None
  /\ (get other 5 (clear (Some "ns1") m).2).1 = Some 2.
Proof.
  intros k other m.
  assert (H1 : sanitized k) by (repeat split; reflexivity).
  assert (H2 : unambiguous k = true) by reflexivity.
  assert (H3 : namespace k = Some "ns1") by reflexivity.
  split; [exact H1|]. split; [exact H2|]. split; [exact H3|].
  split; [reflexivity|].
  split; [|reflexivity].
  exact (proj1 (clear_namespace_removes_its_keys k "ns1" 5 m H1 H2 H3)).
Defined.

(** A key whose namespace starts with [v] is not cleared with its
    namespace: its string is parsed as a version and a key name. *)
Example clear_misses_namespace_read_as_version :
  let m := (set (fun _ : nat => 1%Z) video_key 7 None 0 0 new_memory).2 in
  namespace video_key = Some "video"
  /\ (get video_key 5 (clear (Some "video") m).2).1 = Some 7.
Proof. split; reflexivity. Qed.


End MemoryExamples.

(** ** The string keys of the services *)

Module KeyStringsMore.
Import Js KeyStrings.

(** *** Lengths *)

Lemma slen_append (a b : string) :
  String.length (String.append a b) = String.length a + String.length b.
Proof. induction a as [|c a IH]; simpl; [reflexivity|]. now rewrite IH. Qed.

Lemma slen_substring_le (n m : nat) (s : string) :
  String.length (String.substring n m s) <= m
  /\ String.length (String.substring n m s) <= String.length s - n.
Proof.
  revert n m. induction s as [|c s IH]; intros n m.
  - destruct n, m; simpl; lia.
  - destruct n as [|n].
    + destruct m as [|m]; simpl; [lia|].
      destruct (IH 0 m) as [H1 H2]. lia.
    + simpl. apply IH.
Qed.

Lemma all_chars_append p (a b : string) :
  all_chars p (String.append a b) = all_chars p a && all_chars p b.
Proof.
  induction a as [|c a IH]; simpl; [reflexivity|].
  now rewrite IH, andb_assoc.
Qed.

(** *** The hash *)

Lemma to_int32_range z :
  (-2147483648 <= to_int32 z < 2147483648)%Z.
Proof.
  unfold to_int32.
  pose proof (Z.mod_pos_bound z 4294967296 ltac:(lia)).
  destruct (Z.ltb_spec (z mod 4294967296) 2147483648); lia.
Qed.

Lemma hash_loop_range s h :
  (-2147483648 <= h < 2147483648)%Z ->
  (-2147483648 <= hash_loop s h < 2147483648)%Z.
Proof.
  revert h. induction s as [|c s IH]; intros h Hh; [exact Hh|].
  simpl. apply IH, to_int32_range.
Qed.

Lemma base36_length (d fuel : nat) (n : Z) (acc : string) :
  (0 <= n < 36 ^ Z.of_nat d)%Z -> 1 <= d ->
  String.length (base36 fuel n acc) <= d + String.length acc.
Proof.
  revert fuel n acc. induction d as [|d IH]; intros fuel n acc Hn Hd; [lia|].
  destruct fuel as [|fuel]; simpl; [lia|].
  destruct (Z.eqb_spec (n / 36) 0) as [E|E]; simpl; [lia|].
  destruct d as [|d].
  - exfalso. apply E. apply Z.div_small. simpl in Hn. lia.
  - assert (Hq : (0 <= n / 36 < 36 ^ Z.of_nat (S d))%Z).
    { split; [apply Z.div_pos; lia|].
      apply Z.div_lt_upper_bound; [lia|].
      replace (36 ^ Z.of_nat (S (S d)))%Z
        with (36 * 36 ^ Z.of_nat (S d))%Z in Hn; [lia|].
      rewrite (Nat2Z.inj_succ (S d)), Z.pow_succ_r by lia. reflexivity. }
    specialize (IH fuel (n / 36)%Z
                  (String (digit36 (n mod 36)) acc) Hq ltac:(lia)).
    simpl in IH. lia.
Qed.

Lemma simpleHash_length s : String.length (simpleHash s) <= 6.
Proof.
  unfold simpleHash, toString36.
  pose proof (hash_loop_range s 0 ltac:(lia)) as Hr.
  pose proof (base36_length 6 (S (Z.to_nat (Z.log2 (Z.abs (hash_loop s 0)))))
                (Z.abs (hash_loop s 0)) "") as Hl.
  simpl String.length in Hl. rewrite Nat.add_0_r in Hl. apply Hl; [|lia].
  change (36 ^ Z.of_nat 6)%Z with 2176782336%Z. lia.
Qed.

(** *** Truncation *)

Lemma truncateKey_long key :
  maxKeyLength < String.length key ->
  String.length (truncateKey key) <= 137
  /\ all_chars valid_char (truncateKey key) = false.
Proof.
  intros Hlong. unfold truncateKey.
  destruct (Nat.leb_spec (String.length key) maxKeyLength); [lia|].
  split.
  - rewrite !slen_append. unfold substring.
    pose proof (simpleHash_length
                  (String.substring
                     (Nat.min prefixLength (String.length key - suffixLength))
                     (Nat.max prefixLength (String.length key - suffixLength)
                      - Nat.min prefixLength
                          (String.length key - suffixLength)) key)) as Hh.
    match goal with
    | |- String.length (String.substring ?a ?b key) + _ <= _ =>
        pose proof (proj1 (slen_substring_le a b key)) as H1
    end.
    match goal with
    | |- _ + (_ + (String.length (String.substring ?a ?b ?h) + _)) <= _ =>
        pose proof (proj2 (slen_substring_le a b h)) as H2
    end.
    match goal with
    | |- _ + (_ + (_ + (_ + String.length (String.substring ?a ?b key))))
         <= _ =>
        pose proof (proj2 (slen_substring_le a b key)) as H3
    end.
    unfold prefixLength, suffixLength, maxKeyLength in *. simpl in *. lia.
  - rewrite all_chars_append, all_chars_append. simpl.
    now rewrite andb_false_r.
Qed.

Lemma validateKey_invalid_char key :
  all_chars valid_char key = false -> validateKey key = false.
Proof.
  unfold validateKey. intros ->.
  destruct (negb (nonempty key)); [reflexivity|].
  now destruct (maxKeyLength <? String.length key)%nat.
Qed.

Lemma createKey_parts_fit (namespace type id : string) (options : KeyOptions) :
  String.length (join separator (key_parts namespace type id options))
  <= maxKeyLength ->
  createKey namespace type id options
  = join separator (key_parts namespace type id options).
Proof.
  intros Hl. unfold createKey. cbn [enableCompression enableValidation andb].
  destruct (Nat.ltb_spec maxKeyLength
              (String.length
                 (join separator (key_parts namespace type id options))));
    [lia|reflexivity].
Qed.

(** X29.  [createKey] never returns a key longer than the maximum of
    250 characters: when the parts joined by [:] fit, it returns them
    as they are; when they do not, it returns a cut key of at most 137
    characters (75 of the start, [...], a hash of the middle in base
    36, [...], 50 of the end) -- and that key, holding dots, is
    rejected by [validateKey]. *)
Theorem createKey_never_exceeds_max_length
  (namespace type id : string) (options : KeyOptions) :
  let joined := join separator (key_parts namespace type id options) in
  let key := createKey namespace type id options in
  String.length key <= maxKeyLength
  /\ (String.length joined <= maxKeyLength -> key = joined)
  /\ (maxKeyLength < String.length joined ->
      String.length key <= 137 /\ validateKey key = false).
Proof.
  cbv zeta. unfold createKey. cbn [enableCompression enableValidation andb].
  set (joined := join separator (key_parts namespace type id options)).
  destruct (Nat.ltb_spec maxKeyLength (String.length joined)) as [Hl|Hl].
  - destruct (truncateKey_long joined Hl) as [H1 H2].
    split; [unfold maxKeyLength; lia|]. split; [lia|].
    intros _. split; [exact H1|]. apply validateKey_invalid_char, H2.
  - split; [exact Hl|]. split; [reflexivity|lia].
Qed.

(** *** Reading a key back *)

Lemma plain_facts s :
  plain s = true ->
  CacheKeySpec.no_sep ":" s = true
  /\ streq s "v" = false /\ streq s "tenant" = false
  /\ streq s "user" = false.
Proof.
  unfold plain. rewrite !andb_true_iff, !negb_true_iff. tauto.
Qed.

Ltac plain_option o H :=
  destruct o as [?s|];
  [ cbn [plain_option] in H; apply andb_prop in H as [?Hne H];
    apply plain_facts in H as (?Hsep & ?Hv & ?Ht & ?Hu)
  | clear H ].

(** X30.  [parseKey] reads back what [createKey] wrote: when the
    namespace, the type, the id and the optional fields hold no [:]
    and are none of the words [v], [tenant], [user], and the key is not
    cut for its length, [parseKey(createKey(namespace, type, id,
    options))] has that namespace, type and id and the version, tenant
    and user of the options.  (The namespace of the options, the first
    part of the key, is not part of what [parseKey] returns.) *)
Theorem parseKey_reads_back_a_plain_key
  (namespace type id : string) (options : KeyOptions) :
  plain namespace = true -> plain type = true -> plain id = true ->
  plain_option (k_namespace options) = true ->
  plain_option (k_version options) = true ->
  plain_option (k_tenantId options) = true ->
  plain_option (k_userId options) = true ->
  String.length (join separator (key_parts namespace type id options))
  <= maxKeyLength ->
  parseKey (createKey namespace type id options)
  = {| p_namespace := Some namespace;
       p_type := Some type;
       p_id := Some id;
       p_version := k_version options;
       p_tenantId := k_tenantId options;
       p_userId := k_userId options |}.
Proof.
  intros Hn Ht Hi Hon Hov Hot Hou Hlen.
  rewrite (createKey_parts_fit namespace type id options Hlen).
  apply plain_facts in Hn as (Hn0 & Hn1 & Hn2 & Hn3).
  apply plain_facts in Ht as (Ht0 & Ht1 & Ht2 & Ht3).
  apply plain_facts in Hi as (Hi0 & Hi1 & Hi2 & Hi3).
  destruct options as [on ov ot ou].
  cbn [k_namespace k_version k_tenantId k_userId] in *. clear Hlen.
  plain_option on Hon; plain_option ov Hov; plain_option ot Hot;
    plain_option ou Hou.
  all: unfold parseKey, key_parts;
       cbn [k_namespace k_version k_tenantId k_userId truthy default];
       rewrite ?Hne, ?Hne0, ?Hne1, ?Hne2; cbn [app default];
       unfold Datatypes.id.
  all: rewrite KeyLemmas.split_join;
       [|discriminate
        |repeat (constructor; [first [assumption|reflexivity]|]);
         constructor].
  all: unfold part_behind; cbn [length indexOf Nat.leb at_ nth];
       repeat match goal with
         | H : streq ?a ?b = false |- context [streq ?a ?b] => rewrite H
         end;
       reflexivity.
Qed.

(** X30 on a tenant-scoped key with a version. *)
Lemma parseKey_reads_back_a_plain_key_witness :
  let options := mkKeyOptions None (Some "2") (Some "t1") None in
  plain "order" = true /\ plain "detail" = true /\ plain "42" = true
  /\ plain_option (k_namespace options) = true
  /\ plain_option (k_version options) = true
  /\ plain_option (k_tenantId options) = true
  /\ plain_option (k_userId options) = true
  /\ String.length
       (join separator (key_parts "order" "detail" "42" options))
     <= maxKeyLength
  /\ createKey "order" "detail" "42" options
     = "cache:order:detail:42:v:2:tenant:t1"
  /\ parseKey (createKey "order" "detail" "42" options)
     = mkParsedKey (Some "order") (Some "detail") (Some "42") (Some "2")
         (Some "t1") None.
Proof.
  intros options.
  assert (H1 : plain "order" = true) by reflexivity.
  assert (H2 : plain "detail" = true) by reflexivity.
  assert (H3 : plain "42" = true) by reflexivity.
  assert (H4 : plain_option (k_namespace options) = true) by reflexivity.
  assert (H5 : plain_option (k_version options) = true) by reflexivity.
  assert (H6 : plain_option (k_tenantId options) = true) by reflexivity.
  assert (H7 : plain_option (k_userId options) = true) by reflexivity.
  assert (H8 : String.length
                 (join separator (key_parts "order" "detail" "42" options))
               <= maxKeyLength) by (vm_compute; lia).
  repeat (split; [assumption|]).
  split; [reflexivity|].
  exact (parseKey_reads_back_a_plain_key "order" "detail" "42" options
           H1 H2 H3 H4 H5 H6 H7 H8).
Defined.

(** The keys of [createUserKey] and [createTenantKey] are not read
    back: their namespace is the marker itself, and [parseKey] takes
    the type for the user or the tenant. *)
Example parseKey_misreads_user_and_tenant_keys :
  createUserKey "u1" "t1" "profile" "42" no_key_options
  = "cache:user:profile:42:tenant:t1:user:u1"
  /\ p_userId (parseKey (createUserKey "u1" "t1" "profile" "42"
                           no_key_options))
     = Some "profile"
  /\ p_tenantId (parseKey (createTenantKey "t1" "config" "7"
                             no_key_options))
     = Some "config".
Proof. vm_compute. auto. Qed.

(** The hash of [abc] is 96354, [22ci] in base 36. *)
Example simpleHash_abc :
  hash_loop "abc" 0 = 96354%Z /\ simpleHash "abc" = "22ci".
Proof. vm_compute. auto. Qed.

End KeyStringsMore.
